(** * Hardcover reading-progress synchronisation

    A shallow embedding of the synchronisation core of the reader:
    [services/sync/HardcoverClient.ts] (circuit breaker, rate limiter,
    GraphQL request wrapper, progress update, book matcher, duplicate
    clean-up) and of the page mapping and conflict dispatch of
    [app/reader/hooks/useHardcoverSync.ts].

    Conventions.  JavaScript numbers that hold counters, identifiers and
    millisecond time stamps are integers of [Z]; doubles (percentages,
    similarity scores) are the rationals of [Q] they denote, and every
    operation on them that rounds is rounded as in [Module Double];
    strings are [string];
    [null]/[undefined] are [None].  [Date.now()] is read from an explicit
    clock.  Executions are sequential: a call runs to completion before the
    next one starts; where requests can overlap, the segments of
    [graphqlRequest] between its [await]s are taken one by one
    ([passGate], [settle], [graphqlRequestAmid]). *)

From Stdlib Require Import ZArith QArith Qround Qabs Qpower Qreduction.
From Stdlib Require Import List String Ascii Bool Lia.
From Stdlib Require Floats.
From Stdlib Require Import DecimalString Sorted Permutation Lqa.
From Equations Require Import Equations.
Import ListNotations.
Local Open Scope Z_scope.

(** ** JavaScript string primitives used by the client *)

Module Js.

(** [s.includes(sub)] *)
Fixpoint includes (s sub : string) : bool :=
  if String.prefix sub s then true
  else match s with
       | EmptyString => false
       | String _ s' => includes s' sub
       end.

(** [s.startsWith(pre)] *)
Definition startsWith (s pre : string) : bool := String.prefix pre s.

Definition isWhitespace (c : ascii) : bool :=
  let n := nat_of_ascii c in
  (Nat.eqb n 32 || Nat.eqb n 9 || Nat.eqb n 10 || Nat.eqb n 11
   || Nat.eqb n 12 || Nat.eqb n 13)%bool.

(** [s.trim() === ''] : every character of [s] is white space. *)
Fixpoint isBlank (s : string) : bool :=
  match s with
  | EmptyString => true
  | String c s' => (isWhitespace c && isBlank s')%bool
  end.

(** String conversion of an integer, as in a template literal. *)
Definition decimal (z : Z) : string := NilZero.string_of_int (Z.to_int z).

(** [Math.ceil(a / b)] for integers [a] and positive [b]. *)
Definition ceilDiv (a b : Z) : Z := - ((- a) / b).

(** Truthiness of a string value. *)
Definition truthy (s : string) : bool :=
  match s with EmptyString => false | _ => true end.

End Js.

(** ** Circuit breaker (HardcoverClient.ts, lines 28-223) *)

Definition CIRCUIT_BREAKER_THRESHOLD : Z := 3.
Definition CIRCUIT_BREAKER_TIMEOUT : Z := 60000.
Definition CIRCUIT_BREAKER_HALF_OPEN_REQUESTS : Z := 1.

Inductive CircuitState : Set := CLOSED | OPEN | HALF_OPEN.

Record CircuitBreakerState : Set := mkBreaker {
  state : CircuitState;
  failureCount : Z;
  lastFailureTime : Z;
  halfOpenAttempts : Z;
  hasNotifiedDisconnect : bool
}.

(** The singleton as created by [getInstance], and as left by [reset]. *)
Definition initialBreaker : CircuitBreakerState :=
  mkBreaker CLOSED 0 0 0 false.

Definition reset (_ : CircuitBreakerState) : CircuitBreakerState :=
  initialBreaker.

Definition checkAndClearRecoveryFlag (cb : CircuitBreakerState)
  : bool * CircuitBreakerState :=
  if lastFailureTime cb =? -1
  then (true, mkBreaker (state cb) (failureCount cb) 0 (halfOpenAttempts cb) false)
  else (false, cb).

Definition markDisconnectNotified (cb : CircuitBreakerState) : CircuitBreakerState :=
  mkBreaker (state cb) (failureCount cb) (lastFailureTime cb)
            (halfOpenAttempts cb) true.

Inductive Admission : Set :=
| Allowed
| Blocked (reason : string).

Definition allowed (a : Admission) : bool :=
  match a with Allowed => true | Blocked _ => false end.

Definition openReason (waitTime : Z) : string :=
  ("Circuit breaker is open. Hardcover service unavailable. Retry in "
     ++ Js.decimal waitTime ++ "s.")%string.

Definition probingReason : string :=
  "Circuit breaker is testing service recovery. Please wait."%string.

(** [canMakeRequest], with [now] the value of [Date.now()]. *)
Definition canMakeRequest (now : Z) (cb : CircuitBreakerState)
  : Admission * CircuitBreakerState :=
  match state cb with
  | CLOSED => (Allowed, cb)
  | OPEN =>
      if CIRCUIT_BREAKER_TIMEOUT <=? now - lastFailureTime cb
      then (Allowed,
            mkBreaker HALF_OPEN (failureCount cb) (lastFailureTime cb) 0
                      (hasNotifiedDisconnect cb))
      else
        let waitTime :=
          Js.ceilDiv (CIRCUIT_BREAKER_TIMEOUT - (now - lastFailureTime cb)) 1000 in
        (Blocked (openReason waitTime), cb)
  | HALF_OPEN =>
      if halfOpenAttempts cb <? CIRCUIT_BREAKER_HALF_OPEN_REQUESTS
      then (Allowed,
            mkBreaker HALF_OPEN (failureCount cb) (lastFailureTime cb)
                      (halfOpenAttempts cb + 1) (hasNotifiedDisconnect cb))
      else (Blocked probingReason, cb)
  end.

(** [recordSuccess] *)
Definition recordSuccess (cb : CircuitBreakerState) : CircuitBreakerState :=
  match state cb with
  | HALF_OPEN =>
      mkBreaker CLOSED 0 (-1) (halfOpenAttempts cb) (hasNotifiedDisconnect cb)
  | s =>
      mkBreaker s 0 (lastFailureTime cb) (halfOpenAttempts cb)
                (hasNotifiedDisconnect cb)
  end.

(** A failure is an authentication failure for the breaker when its
    message contains [AUTH_FAILED]. *)
Definition isAuthFailure (error : string) : bool :=
  Js.includes error "AUTH_FAILED".

(** [recordFailure(error)], with [now] the value of [Date.now()]. *)
Definition recordFailure (now : Z) (error : string) (cb : CircuitBreakerState)
  : CircuitBreakerState :=
  let count := failureCount cb + 1 in
  if isAuthFailure error
  then mkBreaker (state cb) count now (halfOpenAttempts cb)
                 (hasNotifiedDisconnect cb)
  else
    match state cb with
    | HALF_OPEN =>
        mkBreaker OPEN CIRCUIT_BREAKER_THRESHOLD now (halfOpenAttempts cb)
                  (hasNotifiedDisconnect cb)
    | s =>
        if CIRCUIT_BREAKER_THRESHOLD <=? count
        then mkBreaker OPEN count now (halfOpenAttempts cb)
                       (hasNotifiedDisconnect cb)
        else mkBreaker s count now (halfOpenAttempts cb)
                       (hasNotifiedDisconnect cb)
    end.

(** What happens to the breaker between two successes: an admission
    check made at some time, or a failure recorded at some time. *)
Inductive GateEvent : Set :=
| Checked (now : Z)
| Failed (now : Z) (error : string).

Fixpoint runGate (events : list GateEvent) (cb : CircuitBreakerState)
  : CircuitBreakerState :=
  match events with
  | [] => cb
  | Checked now :: rest => runGate rest (snd (canMakeRequest now cb))
  | Failed now error :: rest => runGate rest (recordFailure now error cb)
  end.

(** The number of failures among the events. *)
Fixpoint failures (events : list GateEvent) : nat :=
  match events with
  | [] => O
  | Checked _ :: rest => failures rest
  | Failed _ _ :: rest => S (failures rest)
  end.

(** No failure among the events is an authentication failure. *)
Definition nonAuth (event : GateEvent) : Prop :=
  match event with
  | Checked _ => True
  | Failed _ error => isAuthFailure error = false
  end.

(** Everything that is ever done to the singleton. *)
Inductive BreakerCall : Set :=
| CallCanMakeRequest (now : Z)
| CallRecordSuccess
| CallRecordFailure (now : Z) (error : string)
| CallCheckAndClearRecoveryFlag
| CallMarkDisconnectNotified
| CallReset.

Definition call (cb : CircuitBreakerState) (c : BreakerCall) : CircuitBreakerState :=
  match c with
  | CallCanMakeRequest now => snd (canMakeRequest now cb)
  | CallRecordSuccess => recordSuccess cb
  | CallRecordFailure now error => recordFailure now error cb
  | CallCheckAndClearRecoveryFlag => snd (checkAndClearRecoveryFlag cb)
  | CallMarkDisconnectNotified => markDisconnectNotified cb
  | CallReset => reset cb
  end.

(** ** Rate limiter (HardcoverClient.ts, lines 25-26 and 243-259) *)

Definition RATE_LIMIT_WINDOW : Z := 60000.
Definition MAX_REQUESTS_PER_WINDOW : Z := 60.

Module Strategy.
Inductive t : Set := prompt | silent | send | receive.
End Strategy.

Module Frequency.
Inductive t : Set := page | chapter | session.
End Frequency.

(** [HardcoverSettings] of [types/settings.ts]. *)
Record HardcoverSettings : Set := mkSettings {
  enabled : bool;
  apiToken : string;
  strategy : Strategy.t;
  syncProgress : bool;
  syncStatus : bool;
  syncFrequency : Frequency.t;
  autoMatchBooks : bool;
  rateLimitBuffer : Z;
  debug : bool
}.

(** [this.config.rateLimitBuffer || 50] *)
Definition budget (config : HardcoverSettings) : Z :=
  if rateLimitBuffer config =? 0 then 50 else rateLimitBuffer config.

(** The time the caller is suspended: [waitTime] when the window is full
    and [waitTime > 0], nothing otherwise.  [requestTimestamps[0]] of an
    empty array is [undefined], which makes [waitTime] a NaN and the
    comparison false. *)
Definition rateLimitWait (config : HardcoverSettings) (now : Z) (kept : list Z) : Z :=
  if budget config <=? Z.of_nat (List.length kept)
  then match kept with
       | [] => 0
       | oldestRequest :: _ =>
           let waitTime := RATE_LIMIT_WINDOW - (now - oldestRequest) + 100 in
           if 0 <? waitTime then waitTime else 0
       end
  else 0.

(** [checkRateLimit]: given [Date.now()] and the recorded time stamps,
    the time waited before admission and the time stamps afterwards. *)
Definition checkRateLimit (config : HardcoverSettings) (now : Z)
  (requestTimestamps : list Z) : Z * list Z :=
  let kept := filter (fun ts => now - ts <? RATE_LIMIT_WINDOW) requestTimestamps in
  (rateLimitWait config now kept, (kept ++ [now])%list).

(** ** Remote requests and replies *)

(** A thrown JavaScript value: an [Error] with its message, or anything
    else. *)
Inductive JsThrown : Set :=
| JsError (message : string)
| JsValue.

Definition thrownMessage (e : JsThrown) : string :=
  match e with JsError m => m | JsValue => EmptyString end.

(** A row of [user_book_reads]. *)
Record UserBookRead : Set := mkRead {
  read_id : Z;
  progress_pages : option Z;
  started_at : option string;
  finished_at : option string;
  edition_id : option Z
}.

(** The object returned under [update_user_book_read] and
    [insert_user_book_read]. *)
Record ReadMutation : Set := mkReadMutation {
  mutation_error : option string;
  user_book_read : option UserBookRead
}.

(** A row of [user_books]. *)
Record UserBookRow : Set := mkUserBookRow {
  row_id : Z;
  row_edition_id : option Z;
  edition_pages : option Z;
  book_pages : option Z;
  user_book_reads : option (list UserBookRead)
}.

(** A document of a search hit, before it is parsed by [searchBooks]. *)
Record SearchDocument : Set := mkDocument {
  doc_id : option Z;
  doc_title : option string;
  doc_subtitle : option string;
  doc_contributions : option (list (option (option string)));
  doc_isbns : option (list string);
  doc_image_url : option string
}.

(** The [data] object of a reply; a field that is absent is [None]. *)
Record Data : Set := mkData {
  update_user_book_read : option ReadMutation;
  insert_user_book_read : option ReadMutation;
  user_books : option (list UserBookRow);
  search_hits : option (list SearchDocument)
}.

Definition emptyData : Data := mkData None None None None.

Inductive JsonBody : Set :=
| JsonThrows (e : JsThrown)                 (* [response.json()] rejects *)
| JsonErrors (firstMessage : option string) (* [json.errors], [errors[0]?.message] *)
| JsonData (data : option Data).            (* [json.data] *)

Inductive Reply : Set :=
| FetchRejects (e : JsThrown)
| Response (status : Z) (json : JsonBody).

Record Exchange : Set := mkExchange {
  latency : Z;
  reply : Reply
}.

(** The named operation and the variables sent with it. *)
Inductive Request : Set :=
| UPDATE_PROGRESS_MUTATION (readId pages : Z) (editionId : option Z)
    (startedAt : option string) (keepalive : bool)
| CREATE_READ_MUTATION (userBookId : option Z) (pages : Z) (startedAt : string)
    (editionId : option Z) (keepalive : bool)
| DELETE_READ_MUTATION (readId : Z)
| GET_ALL_READS_QUERY (userBookId : option Z)
| GET_USER_BOOK_QUERY (userBookId : option Z)
| SEARCH_BOOKS_QUERY (query : string) (perPage : Z)
| OTHER_QUERY (query : string).

(** ** The client and its environment

    [remote n] is what the service does with the [n]-th request that
    reaches it; [sent] lists the requests that reached it. *)
Record World : Type := mkWorld {
  clock : Z;
  breaker : CircuitBreakerState;
  requestTimestamps : list Z;
  sent : list Request;
  remote : nat -> Exchange
}.

Definition withBreaker (f : CircuitBreakerState -> CircuitBreakerState) (w : World)
  : World :=
  mkWorld (clock w) (f (breaker w)) (requestTimestamps w) (sent w) (remote w).

Definition advance (delay : Z) (w : World) : World :=
  mkWorld (clock w + delay) (breaker w) (requestTimestamps w) (sent w) (remote w).

(** ** Computations that may throw *)

Inductive Completion (A : Type) : Type :=
| Returned (a : A)
| Threw (e : JsThrown).
Arguments Returned {A} a.
Arguments Threw {A} e.

Definition M (A : Type) : Type := World -> Completion A * World.

Definition ret {A} (a : A) : M A := fun w => (Returned a, w).

Definition throw {A} (e : JsThrown) : M A := fun w => (Threw e, w).

Definition bind {A B} (m : M A) (k : A -> M B) : M B :=
  fun w =>
    match m w with
    | (Returned a, w') => k a w'
    | (Threw e, w') => (Threw e, w')
    end.

(** [try { m } catch (e) { handler e }] *)
Definition tryCatch {A} (m : M A) (handler : JsThrown -> M A) : M A :=
  fun w =>
    match m w with
    | (Returned a, w') => (Returned a, w')
    | (Threw e, w') => handler e w'
    end.

Definition modify (f : World -> World) : M unit := fun w => (Returned tt, f w).

Declare Scope js_scope.
Delimit Scope js_scope with js.
Notation "x <- m ;; k" := (bind m (fun x => k))
  (at level 61, m at next level, right associativity) : js_scope.
Notation "m ;;; k" := (bind m (fun _ => k))
  (at level 61, right associativity) : js_scope.

(** Reading a property of [result] when [result] is [null] or [undefined]
    throws a [TypeError]. *)
Definition property {A} (result : option Data) (field : Data -> option A)
  : M (option A) :=
  match result with
  | Some d => ret (field d)
  | None => throw (JsError "Cannot read properties of undefined")
  end.

(** ** The GraphQL request wrapper (HardcoverClient.ts, lines 264-366) *)

Definition statusError (status : Z) : string :=
  if status =? 401 then "HARDCOVER_AUTH_FAILED"%string
  else if status =? 429 then "HARDCOVER_RATE_LIMIT"%string
  else if 500 <=? status then "HARDCOVER_SERVER_ERROR"%string
  else ("HARDCOVER_API_ERROR_" ++ Js.decimal status)%string.

Definition graphqlError (errorMsg : string) : string :=
  if (Js.includes errorMsg "403" || Js.includes errorMsg "Forbidden")%bool
  then "HARDCOVER_AUTH_FAILED"%string
  else if (Js.includes errorMsg "401" || Js.includes errorMsg "Unauthorized")%bool
  then "HARDCOVER_AUTH_FAILED"%string
  else if (Js.includes errorMsg "429" || Js.includes errorMsg "rate limit")%bool
  then "HARDCOVER_RATE_LIMIT"%string
  else ("HARDCOVER_GRAPHQL_ERROR: " ++ errorMsg)%string.

(** [this.recordFailure(message)] at the current time. *)
Definition reportFailure (message : string) : M unit :=
  modify (fun w => withBreaker (recordFailure (clock w) message) w).

Definition reportSuccess : M unit := modify (withBreaker recordSuccess).

(** The body of the [try] block, from the reply of [fetchFn] on. *)
Definition interpretReply (r : Reply) : M (option Data) :=
  match r with
  | FetchRejects e => throw e
  | Response status json =>
      if ((200 <=? status) && (status <=? 299))%bool
      then match json with
           | JsonThrows e => throw e
           | JsonErrors firstMessage =>
               let errorMsg :=
                 match firstMessage with
                 | Some m => if Js.truthy m then m else "Unknown error"%string
                 | None => "Unknown error"%string
                 end in
               (reportFailure (graphqlError errorMsg) ;;;
                throw (JsError (graphqlError errorMsg)))%js
           | JsonData data => (reportSuccess ;;; ret data)%js
           end
      else throw (JsError (statusError status))
  end.

(** The [catch] block. *)
Definition rethrow (error : JsThrown) : M (option Data) :=
  match error with
  | JsError message =>
      if Js.startsWith message "HARDCOVER_" then throw error
      else if (Js.includes message "fetch" || Js.includes message "network")%bool
      then (reportFailure "HARDCOVER_NETWORK_ERROR" ;;;
            throw (JsError "HARDCOVER_NETWORK_ERROR"))%js
      else (reportFailure message ;;; throw error)%js
  | JsValue =>
      (reportFailure "HARDCOVER_UNKNOWN_ERROR" ;;;
       throw (JsError "HARDCOVER_UNKNOWN_ERROR"))%js
  end.

(** [await this.checkRateLimit()] *)
Definition awaitRateLimit (config : HardcoverSettings) : M unit :=
  modify (fun w =>
    let '(wait, stamps) := checkRateLimit config (clock w) (requestTimestamps w) in
    mkWorld (clock w + wait) (breaker w) stamps (sent w) (remote w)).

(** [await fetchFn(HARDCOVER_API_URL, ...)] *)
Definition fetchFn (request : Request) : M Reply :=
  fun w =>
    let exchange := remote w (List.length (sent w)) in
    (Returned (reply exchange),
     mkWorld (clock w + latency exchange) (breaker w) (requestTimestamps w)
             (sent w ++ [request])%list (remote w)).

Definition circuitOpenError (reason : string) : JsThrown :=
  JsError ("HARDCOVER_CIRCUIT_OPEN: " ++ reason)%string.

Definition graphqlRequest (config : HardcoverSettings) (request : Request)
  : M (option Data) :=
  fun w =>
    let '(admission, cb) := canMakeRequest (clock w) (breaker w) in
    let w1 := withBreaker (fun _ => cb) w in
    match admission with
    | Blocked reason => (Threw (circuitOpenError reason), w1)
    | Allowed =>
        if Js.isBlank (apiToken config)
        then (Threw (JsError "HARDCOVER_AUTH_FAILED"), w1)
        else
          (awaitRateLimit config ;;;
           tryCatch (r <- fetchFn request ;; interpretReply r) rethrow)%js w1
    end.

(** The segments of [graphqlRequest] between its [await]s.  The requests
    of a client share its breaker, and another request can run while
    this one waits for its reply: the breaker on which the reply is
    settled need not be the one that the admission check left. *)

(** Up to [await this.checkRateLimit()]: the gate and the token. *)
Definition passGate (config : HardcoverSettings) : M unit :=
  fun w =>
    let '(admission, cb) := canMakeRequest (clock w) (breaker w) in
    let w1 := withBreaker (fun _ => cb) w in
    match admission with
    | Blocked reason => (Threw (circuitOpenError reason), w1)
    | Allowed =>
        if Js.isBlank (apiToken config)
        then (Threw (JsError "HARDCOVER_AUTH_FAILED"), w1)
        else (Returned tt, w1)
    end.

(** From the reply on: the rest of the [try] block, and the [catch]
    block. *)
Definition settle (r : Reply) : M (option Data) :=
  tryCatch (interpretReply r) rethrow.

(** The request, with the calls that other requests make on the breaker
    while this one waits for its reply. *)
Definition graphqlRequestAmid (others : list BreakerCall)
  (config : HardcoverSettings) (request : Request) : M (option Data) :=
  (passGate config ;;;
   awaitRateLimit config ;;;
   r <- fetchFn request ;;
   modify (withBreaker (fun cb => fold_left call others cb)) ;;;
   settle r)%js.

(** ** Progress update (HardcoverClient.ts, lines 521-672) *)

Module JsNum.

Definition digitValue (c : ascii) : option Z :=
  let n := nat_of_ascii c in
  if (Nat.leb 48 n && Nat.leb n 57)%bool then Some (Z.of_nat (n - 48)) else None.

Fixpoint digits (s : string) (acc : option Z) : option Z :=
  match s with
  | EmptyString => acc
  | String c s' =>
      match digitValue c with
      | Some d =>
          digits s' (Some (10 * match acc with Some a => a | None => 0 end + d))
      | None => acc
      end
  end.

Fixpoint skipWhitespace (s : string) : string :=
  match s with
  | EmptyString => EmptyString
  | String c s' => if Js.isWhitespace c then skipWhitespace s' else s
  end.

(** [parseInt(s, 10)]; [None] is NaN. *)
Definition parseInt (s : string) : option Z :=
  match skipWhitespace s with
  | String "-"%char s' => option_map Z.opp (digits s' None)
  | String "+"%char s' => digits s' None
  | s' => digits s' None
  end.

(** [Math.round]: the nearest integer, halves rounded up. *)
Definition round (x : Q) : Z := Qfloor (x + (1 # 2))%Q.

(** Truthiness of an optional number: [undefined], [null] and [0] are
    falsy. *)
Definition truthy (n : option Z) : bool :=
  match n with Some v => negb (v =? 0) | None => false end.

Definition keepTruthy (n : option Z) : option Z :=
  if truthy n then n else None.

End JsNum.

(** ** Double-precision arithmetic

    A finite double is the rational number it denotes.  An operation on
    doubles gives the exact result rounded to the nearest double, ties
    to the one with an even significand: 53 significant bits, and the
    fixed last place [2^-1074] below [2^-1022].  Results of magnitude
    [2^1024] and above (infinities) and NaN are not represented. *)

Module Double.

Definition pow2 (e : Z) : Q := (2 ^ e)%Q.

(** The integer part of the binary logarithm of a positive fraction. *)
Definition floorLog2 (q : Q) : Z :=
  if Qle_bool 1 q then Z.log2 (Qfloor q) else - Z.log2_up (Qceiling (/ q)).

(** The exponent of the last bit of the significand of a positive
    fraction. *)
Definition lastPlace (q : Q) : Z := Z.max (floorLog2 q - 52) (-1074).

(** The nearest integer, ties to the even one. *)
Definition nearestEven (q : Q) : Z :=
  let f := Qfloor q in
  match (q - inject_Z f ?= 1 # 2)%Q with
  | Lt => f
  | Gt => f + 1
  | Eq => if Z.even f then f else f + 1
  end.

Definition roundPositive (q : Q) : Q :=
  (inject_Z (nearestEven (q / pow2 (lastPlace q))) * pow2 (lastPlace q))%Q.

(** The double nearest to [q], as a fraction in lowest terms. *)
Definition round (q : Q) : Q :=
  Qred match (0 ?= q)%Q with
       | Lt => roundPositive q
       | Eq => 0%Q
       | Gt => (- roundPositive (- q))%Q
       end.

(** [a + b], [a - b], [a * b] and [a / b] on doubles. *)
Definition add (a b : Q) : Q := round (a + b).
Definition sub (a b : Q) : Q := round (a - b).
Definition mul (a b : Q) : Q := round (a * b).
Definition div (a b : Q) : Q := round (a / b).

(** The fraction denoted by a float of the kernel. *)
Definition ofBinary64 (f : PrimFloat.float) : option Q :=
  match FloatOps.Prim2SF f with
  | SpecFloat.S754_zero _ => Some 0%Q
  | SpecFloat.S754_finite s m e =>
      Some (Qred ((if s then -1 else 1) * inject_Z (Zpos m) * pow2 e))
  | _ => None
  end.

End Double.

Definition truthyString (s : option string) : bool :=
  match s with Some v => Js.truthy v | None => false end.

Definition keepTruthyString (s : option string) : option string :=
  if truthyString s then s else None.

Record ProgressResult : Set := mkProgressResult {
  success : bool;
  result_readId : option Z;
  result_editionId : option Z;
  result_startedAt : option string
}.

(** [{ success: false }] *)
Definition failed : ProgressResult := mkProgressResult false None None None.

Definition succeeded (read : UserBookRead) : ProgressResult :=
  mkProgressResult true (Some (read_id read)) (edition_id read) (started_at read).

(** What the [try] block of [updateProgress] hands back: a result
    object, or the promise of the call that creates a new read. *)
Inductive Step : Set :=
| Done (result : ProgressResult)
| CreateInstead.

Definition fallbacks (readId : option Z) : nat :=
  match readId with Some _ => 1%nat | None => 0%nat end.

(** The variables of the update mutation: [editionId] and [startedAt]
    are included only when they are truthy. *)
Definition updateVariables (page : Q) (readId : Z) (editionId : option Z)
  (startedAt : option string) (keepalive : bool) : Request :=
  UPDATE_PROGRESS_MUTATION readId (Qfloor page) (JsNum.keepTruthy editionId)
                           (keepTruthyString startedAt) keepalive.

(** The variables of the create mutation: [startedAt || today]. *)
Definition createVariables (userBookId : string) (page : Q)
  (editionId : option Z) (startedAt : option string) (keepalive : bool)
  (today : string) : Request :=
  CREATE_READ_MUTATION (JsNum.parseInt userBookId) (Qfloor page)
                       (match keepTruthyString startedAt with
                        | Some s => s
                        | None => today
                        end)
                       (JsNum.keepTruthy editionId) keepalive.

Section Client.

Variable config : HardcoverSettings.

(** [new Date().toISOString().split('T')[0]] at a given time. *)
Variable isoDate : Z -> string.

(** The branch [if (readId)]: update the existing read. *)
Definition updateExistingRead (page : Q) (readId : Z) (editionId : option Z)
  (startedAt : option string) (keepalive : bool) : M Step :=
  (result <- graphqlRequest config
               (updateVariables page readId editionId startedAt keepalive) ;;
   mutation <- property result update_user_book_read ;;
   if truthyString (match mutation with
                    | Some m => mutation_error m
                    | None => None
                    end)
   then ret CreateInstead
   else
     match match mutation with Some m => user_book_read m | None => None end with
     | None => ret (Done failed)
     | Some userBookRead =>
         match progress_pages userBookRead with
         | None => ret CreateInstead
         | Some _ => ret (Done (succeeded userBookRead))
         end
     end)%js.

(** The [else] branch: create a new read. *)
Definition createNewRead (userBookId : string) (page : Q)
  (editionId : option Z) (startedAt : option string) (keepalive : bool)
  : M ProgressResult :=
  (today <- (fun w => (Returned (isoDate (clock w)), w)) ;;
   result <- graphqlRequest config
               (createVariables userBookId page editionId startedAt keepalive
                  today) ;;
   mutation <- property result insert_user_book_read ;;
   match keepTruthyString (match mutation with
                           | Some m => mutation_error m
                           | None => None
                           end) with
   | Some error =>
       if Js.includes error "Couldn't find UserBook"
       then throw (JsError "HARDCOVER_INVALID_USER_BOOK")
       else ret failed
   | None =>
       match match mutation with Some m => user_book_read m | None => None end with
       | None => ret failed
       | Some userBookRead => ret (succeeded userBookRead)
       end
   end)%js.

End Client.

(** [updateProgress]: the [try] block runs one of the two branches, and
    the [catch] block turns whatever was thrown into [{ success: false }].
    The call that creates a new read is returned from inside the [try]
    block without being awaited there. *)
Equations updateProgress (config : HardcoverSettings) (isoDate : Z -> string)
  (userBookId : string) (page percentage : Q) (readId : option Z)
  (editionId : option Z) (startedAt : option string) (keepalive : bool)
  : M ProgressResult by wf (fallbacks readId) lt :=
  updateProgress config isoDate userBookId page percentage (Some id)
                 editionId startedAt keepalive :=
    if id =? 0
    then tryCatch
           (createNewRead config isoDate userBookId page editionId startedAt
              keepalive)
           (fun _ => ret failed)
    else
      bind (tryCatch
              (updateExistingRead config page id editionId startedAt keepalive)
              (fun _ => ret (Done failed)))
           (fun step =>
              match step with
              | Done result => ret result
              | CreateInstead =>
                  updateProgress config isoDate userBookId page percentage None
                                 editionId startedAt keepalive
              end);
  updateProgress config isoDate userBookId page percentage None
                 editionId startedAt keepalive :=
    tryCatch
      (createNewRead config isoDate userBookId page editionId startedAt keepalive)
      (fun _ => ret failed).

(** ** Duplicate-read clean-up (HardcoverClient.ts, lines 826-903) *)

Record CleanupResult : Set := mkCleanup {
  deleted : Z;
  kept : option Z
}.

(** [read.progress_pages || 0] *)
Definition progressOf (read : UserBookRead) : Z :=
  match progress_pages read with Some p => p | None => 0 end.

(** The loop that looks for the read with the highest progress. *)
Definition bestReadFrom (first : UserBookRead) (reads : list UserBookRead)
  : UserBookRead :=
  fold_left
    (fun bestRead read =>
       if progressOf bestRead <? progressOf read then read else bestRead)
    reads first.

Section Cleanup.

Variable config : HardcoverSettings.

Definition getAllReads (userBookId : string) : M (list UserBookRead) :=
  tryCatch
    (data <- graphqlRequest config (GET_ALL_READS_QUERY (JsNum.parseInt userBookId)) ;;
     rows <- property data user_books ;;
     match rows with
     | None | Some [] => ret []
     | Some (row :: _) =>
         ret match user_book_reads row with Some reads => reads | None => [] end
     end)%js
    (fun _ => ret []).

Definition deleteRead (readId : Z) : M bool :=
  tryCatch
    (graphqlRequest config (DELETE_READ_MUTATION readId) ;;; ret true)%js
    (fun _ => ret false).

(** The loop that deletes every read whose id differs from the kept
    one, counting the deletions that succeeded. *)
Fixpoint deleteOthers (keptId : Z) (reads : list UserBookRead) (count : Z)
  : M Z :=
  match reads with
  | [] => ret count
  | read :: rest =>
      if read_id read =? keptId
      then deleteOthers keptId rest count
      else
        (ok <- deleteRead (read_id read) ;;
         deleteOthers keptId rest (if ok then count + 1 else count))%js
  end.

Definition cleanupDuplicateReads (userBookId : string) : M CleanupResult :=
  tryCatch
    (reads <- getAllReads userBookId ;;
     match reads with
     | [] | [_] => ret (mkCleanup 0 None)
     | first :: _ =>
         let bestRead := bestReadFrom first reads in
         (count <- deleteOthers (read_id bestRead) reads 0 ;;
          ret (mkCleanup count (Some (read_id bestRead))))
     end)%js
    (fun _ => ret (mkCleanup 0 None)).

End Cleanup.

(** ** Book matcher (HardcoverClient.ts, lines 387-430 and 756-824) *)

Module JsArray.

(** [arr[i] = v]: replaces an element, or extends the array, leaving
    holes (written [hole]) below index [i]. *)
Fixpoint set {A} (hole : A) (arr : list A) (i : nat) (v : A) : list A :=
  match arr, i with
  | [], O => [v]
  | [], S i' => hole :: set hole [] i' v
  | _ :: rest, O => v :: rest
  | x :: rest, S i' => x :: set hole rest i' v
  end.

(** [arr[i]] *)
Definition get {A} (hole : A) (arr : list A) (i : nat) : A := nth i arr hole.

End JsArray.

Definition Matrix : Set := list (list Z).

Definition cell (matrix : Matrix) (i j : nat) : Z :=
  JsArray.get 0 (JsArray.get [] matrix i) j.

Definition setCell (matrix : Matrix) (i j : nat) (v : Z) : Matrix :=
  JsArray.set [] matrix i (JsArray.set 0 (JsArray.get [] matrix i) j v).

(** [a.charAt(i) === b.charAt(j)]; [None] is the empty string returned
    out of range. *)
Definition sameChar (a : string) (i : nat) (b : string) (j : nat) : bool :=
  match String.get i a, String.get j b with
  | Some x, Some y => Ascii.eqb x y
  | None, None => true
  | _, _ => false
  end.

(** The body of the inner loop of [levenshteinDistance]. *)
Definition fillCell (str1 str2 : string) (matrix : Matrix) (i j : nat) : Matrix :=
  if sameChar str2 (i - 1) str1 (j - 1)
  then setCell matrix i j (cell matrix (i - 1) (j - 1))
  else setCell matrix i j
         (Z.min (Z.min (cell matrix (i - 1) (j - 1) + 1)
                       (cell matrix i (j - 1) + 1))
                (cell matrix (i - 1) j + 1)).

Definition levenshteinDistance (str1 str2 : string) : Z :=
  let n1 := String.length str1 in
  let n2 := String.length str2 in
  let rows :=
    fold_left (fun matrix i => JsArray.set [] matrix i [Z.of_nat i])
              (seq 0 (S n2)) [] in
  let bordered :=
    fold_left (fun matrix j => setCell matrix 0 j (Z.of_nat j))
              (seq 0 (S n1)) rows in
  let filled :=
    fold_left
      (fun matrix i =>
         fold_left (fun matrix j => fillCell str1 str2 matrix i j)
                   (seq 1 n1) matrix)
      (seq 1 n2) bordered in
  cell filled n2 n1.

Definition stringSimilarity (str1 str2 : string) : Q :=
  let longer :=
    if (String.length str2 <? String.length str1)%nat then str1 else str2 in
  let shorter :=
    if (String.length str2 <? String.length str1)%nat then str2 else str1 in
  if (String.length longer =? 0)%nat then 1%Q
  else
    let editDistance := levenshteinDistance longer shorter in
    (inject_Z (Z.of_nat (String.length longer) - editDistance)
     / inject_Z (Z.of_nat (String.length longer)))%Q.

(** The textbook recurrence of the edit distance between the first [i]
    characters of [a] and the first [j] characters of [b]. *)
Fixpoint prefixDistance (a b : string) (i : nat) : nat -> Z :=
  fix inner (j : nat) : Z :=
    match i, j with
    | O, _ => Z.of_nat j
    | _, O => Z.of_nat i
    | S i', S j' =>
        if sameChar a i' b j' then prefixDistance a b i' j'
        else 1 + Z.min (Z.min (prefixDistance a b i' j') (inner j'))
                       (prefixDistance a b i' j)
    end.

(** The Levenshtein distance, by that recurrence. *)
Definition editDistance (a b : string) : Z :=
  prefixDistance a b (String.length a) (String.length b).

Module JsString.

(** [toLowerCase], on the ASCII letters. *)
Definition lowerChar (c : ascii) : ascii :=
  let n := nat_of_ascii c in
  if (Nat.leb 65 n && Nat.leb n 90)%bool then ascii_of_nat (n + 32) else c.

Fixpoint toLowerCase (s : string) : string :=
  match s with
  | EmptyString => EmptyString
  | String c s' => String (lowerChar c) (toLowerCase s')
  end.

(** [names.join(' ')] *)
Definition joinSpace (names : list string) : string := String.concat " " names.

(** [s || ''] *)
Definition orEmpty (s : option string) : string :=
  match s with Some v => v | None => EmptyString end.


End JsString.

(** [HardcoverBook] of [hardcoverTypes.ts]. *)
Record HardcoverBook : Set := mkHardcoverBook {
  hb_id : string;
  hb_title : string;
  hb_subtitle : string;
  hb_authors : list string;
  isbn_10 : string;
  isbn_13 : string;
  hb_image_url : string
}.

(** The local book: title, author and [metadata?.isbn]. *)
Record Book : Set := mkBook {
  title : string;
  author : string;
  isbn : option string
}.

Definition parseHit (doc : SearchDocument) : HardcoverBook :=
  let isbns := match doc_isbns doc with Some l => l | None => [] end in
  let ofLength n :=
    JsString.orEmpty (find (fun i => (String.length i =? n)%nat) isbns) in
  mkHardcoverBook
    (match doc_id doc with Some n => Js.decimal n | None => EmptyString end)
    (JsString.orEmpty (doc_title doc))
    (JsString.orEmpty (doc_subtitle doc))
    (match doc_contributions doc with
     | Some cs =>
         flat_map (fun c => match c with
                            | Some name => [JsString.orEmpty name]
                            | None => []
                            end) cs
     | None => []
     end)
    (ofLength 10%nat)
    (ofLength 13%nat)
    (JsString.orEmpty (doc_image_url doc)).

Record Scored : Set := mkScored {
  scored_book : HardcoverBook;
  score : Q
}.

(** The scoring callback of [matchBook].  [stringSimilarity] gives the
    exact quotient; the double that the code holds is its rounding, and
    the products and the two sums of [score] are rounded in turn. *)
Definition scoreCandidate (book : Book) (hb : HardcoverBook) : Scored :=
  let titleMatch :=
    Double.round
      (stringSimilarity (JsString.toLowerCase (title book))
                        (JsString.toLowerCase (hb_title hb))) in
  let authorNames := JsString.toLowerCase (JsString.joinSpace (hb_authors hb)) in
  let authorMatch :=
    Double.round
      (stringSimilarity (JsString.toLowerCase (author book)) authorNames) in
  mkScored hb (Double.add (Double.add 0 (Double.mul titleMatch 70))
                          (Double.mul authorMatch 30)).

(** [scored.sort((a, b) => b.score - a.score)]: a stable sort by
    decreasing score. *)
Fixpoint insertScored (x : Scored) (sorted : list Scored) : list Scored :=
  match sorted with
  | [] => [x]
  | y :: rest =>
      if Qle_bool (score y) (score x) then x :: sorted
      else y :: insertScored x rest
  end.

Definition sortByScore (scored : list Scored) : list Scored :=
  fold_right insertScored [] scored.

(** The part of [matchBook] that follows the title/author search. *)
Definition bestMatch (book : Book) (results : list HardcoverBook)
  : option HardcoverBook :=
  match sortByScore (map (scoreCandidate book) results) with
  | [] => None
  | top :: _ =>
      if negb (Qle_bool (score top) 60) then Some (scored_book top) else None
  end.



Section Matcher.

Variable config : HardcoverSettings.

Definition searchBooks (title : string) (author : option string)
  : M (list HardcoverBook) :=
  let query :=
    match keepTruthyString author with
    | Some a => (title ++ " " ++ a)%string
    | None => title
    end in
  (data <- graphqlRequest config (SEARCH_BOOKS_QUERY query 10) ;;
   hits <- property data search_hits ;;
   match hits with
   | None | Some [] => ret []
   | Some docs => ret (map parseHit docs)
   end)%js.

Definition matchBook (book : Book) : M (option HardcoverBook) :=
  let byTitle :=
    (results <- searchBooks (title book) (Some (author book)) ;;
     ret (bestMatch book results))%js in
  match keepTruthyString (isbn book) with
  | Some code =>
      (results <- searchBooks code None ;;
       match find (fun hb => (String.eqb (isbn_13 hb) code
                              || String.eqb (isbn_10 hb) code)%bool) results with
       | Some exactMatch => ret (Some exactMatch)
       | None => byTitle
       end)%js
  | None => byTitle
  end.

End Matcher.

(** ** The user book as read by [getUserBook] (lines 436-505) *)

Record RemoteProgress : Set := mkRemoteProgress {
  rp_page : option Z;
  rp_updated_at : option string;
  rp_edition_id : option Z;
  rp_started_at : option string
}.

Record HardcoverUserBook : Set := mkUserBook {
  ub_id : Z;
  ub_progress : option RemoteProgress;
  ub_readId : option Z;
  ub_editionId : option Z;
  ub_remoteTotalPages : option Z
}.

Definition parseUserBook (userBook : UserBookRow) : HardcoverUserBook :=
  let reads :=
    match user_book_reads userBook with Some l => l | None => [] end in
  let latestRead := find (fun r => negb (truthyString (finished_at r))) reads in
  let remoteTotalPages :=
    match JsNum.keepTruthy (edition_pages userBook) with
    | Some n => Some n
    | None => JsNum.keepTruthy (book_pages userBook)
    end in
  mkUserBook
    (row_id userBook)
    (option_map (fun r => mkRemoteProgress (progress_pages r) (started_at r)
                            (edition_id r) (started_at r)) latestRead)
    (option_map read_id latestRead)
    (match JsNum.keepTruthy (row_edition_id userBook) with
     | Some e => Some e
     | None => match latestRead with Some r => edition_id r | None => None end
     end)
    remoteTotalPages.

Definition getUserBook (config : HardcoverSettings) (userBookId : string)
  : M (option HardcoverUserBook) :=
  tryCatch
    (data <- graphqlRequest config
               (GET_USER_BOOK_QUERY (JsNum.parseInt userBookId)) ;;
     rows <- property data user_books ;;
     match rows with
     | None | Some [] => ret None
     | Some (userBook :: _) => ret (Some (parseUserBook userBook))
     end)%js
    (fun _ => ret None).

(** ** The sync hook (useHardcoverSync.ts) *)

Module SyncState.
Inductive t : Set := idle | checking | conflict | synced | error | matching.
End SyncState.

Inductive Toast : Set :=
| ToastSyncedFromHardcover
| ToastRestored
| ToastPushFailed
| ToastTemporarilyDisabled
| ToastInvalidLink
| ToastPullFailed.

(** The Hardcover fields of the per-book configuration. *)
Record BookConfig : Set := mkConfig {
  hardcoverId : option string;
  hardcoverReadId : option Z;
  hardcoverEditionId : option Z;
  hardcoverStartedAt : option string;
  hardcoverRemoteTotalPages : option Z;
  hardcoverLastSynced : option Z;
  updatedAt : option Z
}.

Record PageInfo : Set := mkPageInfo {
  current : Z;
  total : Z
}.

(** What the reader stores supply: the progress of the open book (its
    [section] and [pageinfo]), whether the format is a fixed-layout one,
    and the book's [updatedAt]. *)
Record Reader : Set := mkReader {
  section : option PageInfo;
  pageinfo : option PageInfo;
  isFixedLayout : bool;
  bookUpdatedAt : Z
}.

Record ConflictDetails : Set := mkConflict {
  localPercentage : Q;
  conflictLocalPage : Z;
  remotePercentage : Q;
  conflictRemotePage : Z;
  remoteTimestamp : option string;
  conflictFixedLayout : bool;
  conflictLocalTotalPages : Z;
  remotePageRaw : Z
}.

(** The state kept by one instance of the hook.  [applied] lists the
    pages handed to [applyRemoteProgress]. *)
Record Hook : Set := mkHook {
  bookConfig : BookConfig;
  syncState : SyncState.t;
  needsMatching : bool;
  conflictDetails : option ConflictDetails;
  isPulling : bool;
  toasts : list Toast;
  applied : list Z
}.

Definition setSyncState (s : SyncState.t) (h : Hook) : Hook :=
  mkHook (bookConfig h) s (needsMatching h) (conflictDetails h) (isPulling h)
         (toasts h) (applied h).

Definition setConfig (c : BookConfig) (h : Hook) : Hook :=
  mkHook c (syncState h) (needsMatching h) (conflictDetails h) (isPulling h)
         (toasts h) (applied h).

Definition setNeedsMatching (b : bool) (h : Hook) : Hook :=
  mkHook (bookConfig h) (syncState h) b (conflictDetails h) (isPulling h)
         (toasts h) (applied h).

Definition setConflictDetails (d : option ConflictDetails) (h : Hook) : Hook :=
  mkHook (bookConfig h) (syncState h) (needsMatching h) d (isPulling h)
         (toasts h) (applied h).

Definition setPulling (b : bool) (h : Hook) : Hook :=
  mkHook (bookConfig h) (syncState h) (needsMatching h) (conflictDetails h) b
         (toasts h) (applied h).

Definition toast (t : Toast) (h : Hook) : Hook :=
  mkHook (bookConfig h) (syncState h) (needsMatching h) (conflictDetails h)
         (isPulling h) (toasts h ++ [t])%list (applied h).

(** [applyRemoteProgress(page)] *)
Definition applyRemoteProgress (remotePage : Z) (h : Hook) : Hook :=
  toast ToastSyncedFromHardcover
    (mkHook (bookConfig h) (syncState h) (needsMatching h) (conflictDetails h)
            (isPulling h) (toasts h) (applied h ++ [remotePage])%list).

(** *** Page mapping *)

(** [localPage / localTotalPages * remoteTotal], rounded (push, lines
    630-655).  The quotient and the product are taken exactly here; the
    code rounds each to a double before [Math.round], which can move the
    result by one page when the exact product lies within the rounding
    error of a half-integer. *)
Definition toRemotePage (localPage localTotalPages remoteTotal : Z) : Z :=
  JsNum.round (inject_Z localPage / inject_Z localTotalPages
               * inject_Z remoteTotal)%Q.

(** [remotePageRaw / remoteTotal * localTotalPages], rounded (pull, lines
    408-444), with the same exact quotient and product. *)
Definition toLocalPage (remotePageRaw remoteTotal localTotalPages : Z) : Z :=
  JsNum.round (inject_Z remotePageRaw / inject_Z remoteTotal
               * inject_Z localTotalPages)%Q.

(** The same two conversions in the arithmetic of the code: the quotient
    and the product are each rounded to a double before [Math.round]. *)
Definition toRemotePageDouble (localPage localTotalPages remoteTotal : Z) : Z :=
  JsNum.round (Double.mul (Double.div (inject_Z localPage)
                                      (inject_Z localTotalPages))
                          (inject_Z remoteTotal)).

Definition toLocalPageDouble (remotePageRaw remoteTotal localTotalPages : Z) : Z :=
  JsNum.round (Double.mul (Double.div (inject_Z remotePageRaw)
                                      (inject_Z remoteTotal))
                          (inject_Z localTotalPages)).

Definition pageToSend (fixedLayout : bool) (localPage localTotalPages : Z)
  (remoteTotal : option Z) : Z :=
  if fixedLayout then localPage
  else
    match JsNum.keepTruthy remoteTotal with
    | Some remoteTotal =>
        if remoteTotal =? localTotalPages then localPage
        else toRemotePage localPage localTotalPages remoteTotal
    | None => localPage
    end.

(** The page of the remote progress in the local pagination, and the
    remote percentage. *)
Definition mapRemotePage (fixedLayout : bool) (remotePageRaw localTotalPages : Z)
  (remoteTotal : option Z) : Z * Q :=
  if fixedLayout
  then (remotePageRaw,
        if 0 <? localTotalPages
        then Double.div (inject_Z remotePageRaw) (inject_Z localTotalPages)
        else 0%Q)
  else
    match JsNum.keepTruthy remoteTotal with
    | Some remoteTotal =>
        if remoteTotal =? localTotalPages
        then (remotePageRaw,
              Double.div (inject_Z remotePageRaw) (inject_Z localTotalPages))
        else (toLocalPage remotePageRaw remoteTotal localTotalPages,
              Double.div (inject_Z remotePageRaw) (inject_Z remoteTotal))
    | None => (remotePageRaw,
               Double.div (inject_Z remotePageRaw) (inject_Z localTotalPages))
    end.

(** *** Conflict dispatch (pullProgress, lines 455-488) *)

Inductive Resolution : Set :=
| ApplyRemote
| RaiseConflict
| NoAction.

Definition isStrategy (a b : Strategy.t) : bool :=
  match a, b with
  | Strategy.prompt, Strategy.prompt
  | Strategy.silent, Strategy.silent
  | Strategy.send, Strategy.send
  | Strategy.receive, Strategy.receive => true
  | _, _ => false
  end.

(** [a > b] on fractions *)
Definition Qgt_bool (a b : Q) : bool := negb (Qle_bool a b).

(** The literal [0.05]: the double nearest to 5/100. *)
Definition conflictThreshold : Q := Double.round (5 # 100).

Definition resolve (strategy : Strategy.t) (remoteIsNewer : bool)
  (percentageDiff : Q) : Resolution :=
  if (isStrategy strategy Strategy.receive
      || (isStrategy strategy Strategy.silent && remoteIsNewer))%bool
  then ApplyRemote
  else if (isStrategy strategy Strategy.prompt
           && Qgt_bool percentageDiff conflictThreshold)%bool
  then RaiseConflict
  else NoAction.

(** [remoteTimestamp > localTimestamp], where the remote time stamp of an
    unparsable date is NaN ([None]). *)
Definition newer (remoteTimestamp : option Z) (localTimestamp : Z) : bool :=
  match remoteTimestamp with
  | Some t => localTimestamp <? t
  | None => false
  end.

Definition pulledConfig (config : BookConfig) (userBook : HardcoverUserBook)
  : BookConfig :=
  mkConfig (hardcoverId config)
           (ub_readId userBook)
           (ub_editionId userBook)
           (match ub_progress userBook with
            | Some p => rp_started_at p
            | None => None
            end)
           (ub_remoteTotalPages userBook)
           (hardcoverLastSynced config)
           (updatedAt config).

(** What [pullProgress] computes from the two snapshots before it
    decides. *)
Record Comparison : Set := mkComparison {
  cmp_localPage : Z;
  cmp_localTotalPages : Z;
  cmp_localPercentage : Q;
  cmp_remotePage : Z;
  cmp_remotePercentage : Q;
  cmp_remoteIsNewer : bool
}.

(** [Math.abs(remotePercentage - localPercentage)]: the difference of
    the two doubles is rounded, its absolute value is exact. *)
Definition percentageDiff (c : Comparison) : Q :=
  Qabs (Double.sub (cmp_remotePercentage c) (cmp_localPercentage c)).

(** The three branches of lines 458-488. *)
Definition act (strategy : Strategy.t) (c : Comparison) (remote : RemoteProgress)
  (fixedLayout : bool) (page : Z) (h : Hook) : Hook :=
  match resolve strategy (cmp_remoteIsNewer c) (percentageDiff c) with
  | ApplyRemote =>
      (* [isPulling] is cleared by a timer 500 ms later *)
      setSyncState SyncState.synced (applyRemoteProgress (cmp_remotePage c) h)
  | RaiseConflict =>
      setSyncState SyncState.conflict
        (setConflictDetails
           (Some (mkConflict (cmp_localPercentage c) (cmp_localPage c)
                             (cmp_remotePercentage c) (cmp_remotePage c)
                             (rp_updated_at remote) fixedLayout
                             (cmp_localTotalPages c) page))
           h)
  | NoAction => setPulling false (setSyncState SyncState.synced h)
  end.

Section Hook.

Variable settings : HardcoverSettings.
Variable isoDate : Z -> string.

(** [new Date(s).getTime()]; [None] is NaN. *)
Variable getTime : option string -> option Z.

(** The hook's own [matchBook] (lines 90-154), which is called only
    when the configuration holds no [hardcoverId]. *)
Variable matchBookHook : Hook -> M (option string * Hook).

Definition ensureMatched (h : Hook) : M (option string * Hook) :=
  match keepTruthyString (hardcoverId (bookConfig h)) with
  | Some id => ret (Some id, h)
  | None => matchBookHook h
  end.

(** The two snapshots side by side (lines 392-456). *)
Definition compare (reader : Reader) (config : BookConfig)
  (userBook : HardcoverUserBook) (remote : RemoteProgress) (page : Z)
  : Comparison :=
  let localTimestamp :=
    match JsNum.keepTruthy (updatedAt config) with
    | Some t => t
    | None => bookUpdatedAt reader
    end in
  let remoteIsNewer := newer (getTime (rp_updated_at remote)) localTimestamp in
  let pageInfo :=
    if isFixedLayout reader then section reader else pageinfo reader in
  let localPage := match pageInfo with Some i => current i + 1 | None => 0 end in
  let localTotalPages :=
    match pageInfo with
    | Some i => if total i =? 0 then 1 else total i
    | None => 1
    end in
  let localPct :=
    if 0 <? localTotalPages
    then Double.div (inject_Z localPage) (inject_Z localTotalPages)
    else 0%Q in
  let '(remotePage, remotePct) :=
    mapRemotePage (isFixedLayout reader) page localTotalPages
                  (ub_remoteTotalPages userBook) in
  mkComparison localPage localTotalPages localPct remotePage remotePct
               remoteIsNewer.

(** The comparison of the remote progress with the local one and what
    follows from it (lines 392-488). *)
Definition compareProgress (reader : Reader) (config : BookConfig)
  (userBook : HardcoverUserBook) (remote : RemoteProgress) (page : Z)
  (h : Hook) : Hook :=
  act (strategy settings) (compare reader config userBook remote page)
      remote (isFixedLayout reader) page h.

(** [pullProgress] (lines 299-524).  [reader] is [None] when the
    progress, its location, the book data or the client is missing. *)
Definition pullProgress (reader : option Reader) (h : Hook) : M Hook :=
  match reader with
  | None => ret h
  | Some reader =>
      if (negb (enabled settings) || negb (syncProgress settings))%bool
      then ret h
      else
        let h := setPulling true h in
        if isStrategy (strategy settings) Strategy.send
        then ret (setPulling false (setSyncState SyncState.synced h))
        else
          tryCatch
            (matched <- ensureMatched h ;;
             match matched with
             | (None, h) => ret (setPulling false h)
             | (Some id, h) =>
                 let config := bookConfig h in
                 let h := setSyncState SyncState.checking h in
                 (userBook <- getUserBook settings id ;;
                  let h :=
                    match userBook with
                    | Some ub => setConfig (pulledConfig config ub) h
                    | None => h
                    end in
                  match userBook with
                  | Some ub =>
                      match ub_progress ub with
                      | Some remote =>
                          match JsNum.keepTruthy (rp_page remote) with
                          | Some page =>
                              ret (compareProgress reader config ub remote page h)
                          | None =>
                              ret (setPulling false
                                     (setSyncState SyncState.synced h))
                          end
                      | None =>
                          ret (setPulling false (setSyncState SyncState.synced h))
                      end
                  | None =>
                      ret (setPulling false (setSyncState SyncState.synced h))
                  end)
             end)%js
            (fun e =>
               let h := setPulling false (setSyncState SyncState.error h) in
               if Js.includes (thrownMessage e) "HARDCOVER_CIRCUIT_OPEN"
               then ret h
               else if Js.includes (thrownMessage e) "NETWORK"
               then ret h
               else ret (toast ToastPullFailed h))
  end.

End Hook.

(** *** Push (pushProgressInternal, lines 529-772) *)

Definition isOpen (s : CircuitState) : bool :=
  match s with OPEN => true | _ => false end.

Definition isConflict (s : SyncState.t) : bool :=
  match s with SyncState.conflict => true | _ => false end.

Definition isSession (f : Frequency.t) : bool :=
  match f with Frequency.session => true | _ => false end.

(** The configuration written after a successful push, at time [now]. *)
Definition pushedConfig (currentConfig : BookConfig) (result : ProgressResult)
  (now : Z) : BookConfig :=
  mkConfig (hardcoverId currentConfig)
           (match JsNum.keepTruthy (result_readId result) with
            | Some id => Some id
            | None => hardcoverReadId currentConfig
            end)
           (match JsNum.keepTruthy (result_editionId result) with
            | Some id => Some id
            | None => hardcoverEditionId currentConfig
            end)
           (match keepTruthyString (result_startedAt result) with
            | Some d => Some d
            | None => hardcoverStartedAt currentConfig
            end)
           (hardcoverRemoteTotalPages currentConfig)
           (Some now)
           (updatedAt currentConfig).

(** The configuration written when the stored link is invalid. *)
Definition clearedConfig (currentConfig : BookConfig) : BookConfig :=
  mkConfig None None None None
           (hardcoverRemoteTotalPages currentConfig)
           (hardcoverLastSynced currentConfig)
           (updatedAt currentConfig).

(** The notification policy for a failed push: the first failure is
    shown, the third one, which opens the circuit, is shown once. *)
Definition notifyFailure (h : Hook) : M Hook :=
  fun w =>
    let circuitState := breaker w in
    if failureCount circuitState =? 1
    then (Returned (toast ToastPushFailed h), w)
    else if ((failureCount circuitState =? 3) && isOpen (state circuitState)
             && negb (hasNotifiedDisconnect circuitState))%bool
    then (Returned (toast ToastTemporarilyDisabled h),
          withBreaker markDisconnectNotified w)
    else (Returned h, w).

Definition onPushResult (currentConfig : BookConfig) (result : ProgressResult)
  (h : Hook) : M Hook :=
  if success result
  then
    fun w =>
      let h := setSyncState SyncState.synced
                 (setConfig (pushedConfig currentConfig result (clock w)) h) in
      let '(wasRecovered, cb) := checkAndClearRecoveryFlag (breaker w) in
      (Returned (if wasRecovered then toast ToastRestored h else h),
       withBreaker (fun _ => cb) w)
  else notifyFailure (setSyncState SyncState.error h).

Definition onPushError (currentConfig : BookConfig) (e : JsThrown) (h : Hook)
  : M Hook :=
  let errorMessage := thrownMessage e in
  if Js.includes errorMessage "HARDCOVER_CIRCUIT_OPEN"
  then ret (setSyncState SyncState.error h)
  else if Js.includes errorMessage "HARDCOVER_INVALID_USER_BOOK"
  then ret (toast ToastInvalidLink
              (setSyncState SyncState.error
                 (setNeedsMatching true
                    (setConfig (clearedConfig currentConfig) h))))
  else notifyFailure (setSyncState SyncState.error h).

Section Push.

Variable settings : HardcoverSettings.
Variable isoDate : Z -> string.
Variable matchBookHook : Hook -> M (option string * Hook).

(** The [try]/[catch] statement around the call of [updateProgress]
    (lines 667-771). *)
Definition sendProgress (hardcoverId : string) (pageToSend : Z)
  (percentage : Q) (currentConfig : BookConfig) (h : Hook) : M Hook :=
  tryCatch
    (result <- updateProgress settings isoDate hardcoverId
                 (inject_Z pageToSend) percentage
                 (hardcoverReadId currentConfig)
                 (hardcoverEditionId currentConfig)
                 (hardcoverStartedAt currentConfig)
                 (isSession (syncFrequency settings)) ;;
     onPushResult currentConfig result h)%js
    (fun e => onPushError currentConfig e h).

(** [reader] is [None] when the progress or the book data is missing. *)
Definition pushProgressInternal (reader : option Reader) (h : Hook) : M Hook :=
  fun w =>
    if (isOpen (state (breaker w))
        && (clock w - lastFailureTime (breaker w) <? CIRCUIT_BREAKER_TIMEOUT))%bool
    then (Returned h, w)
    else if isPulling h then (Returned h, w)
    else if (isConflict (syncState h)
             || match conflictDetails h with Some _ => true | None => false end)%bool
    then (Returned h, w)
    else if (negb (enabled settings) || negb (syncProgress settings)
             || isStrategy (strategy settings) Strategy.receive)%bool
    then (Returned h, w)
    else
      match reader with
      | None => (Returned h, w)
      | Some reader =>
          let currentConfig := bookConfig h in
          (matched <- ensureMatched matchBookHook h ;;
           match matched with
           | (None, h) => ret h
           | (Some hardcoverId, h) =>
               match (if isFixedLayout reader
                      then section reader else pageinfo reader) with
               | None => ret h
               | Some pageInfo =>
                   let localPage := current pageInfo + 1 in
                   let localTotalPages := total pageInfo in
                   let percentage :=
                     if 0 <? localTotalPages
                     then (inject_Z localPage / inject_Z localTotalPages)%Q
                     else 0%Q in
                   sendProgress hardcoverId
                     (pageToSend (isFixedLayout reader) localPage
                                 localTotalPages
                                 (hardcoverRemoteTotalPages currentConfig))
                     percentage currentConfig h
               end
           end)%js w
      end.

End Push.

(** ** Runs of the breaker and of the rate limiter *)

(** Admission checks made one after the other at the given times, with
    no outcome recorded in between: which of them were admitted, and the
    breaker afterwards. *)
Fixpoint checkRequests (times : list Z) (cb : CircuitBreakerState)
  : list bool * CircuitBreakerState :=
  match times with
  | [] => ([], cb)
  | now :: rest =>
      let '(admission, cb1) := canMakeRequest now cb in
      let '(others, cb2) := checkRequests rest cb1 in
      (allowed admission :: others, cb2)
  end.

(** Calls of [checkRateLimit] made one after the other at the given
    times: the time at which each call is let through. *)
Fixpoint admissionTimes (config : HardcoverSettings) (calls : list Z)
  (requestTimestamps : list Z) : list Z :=
  match calls with
  | [] => []
  | now :: rest =>
      let '(wait, stamps) := checkRateLimit config now requestTimestamps in
      (now + wait) :: admissionTimes config rest stamps
  end.

(** Every call is made no earlier than the previous call was let
    through. *)
Fixpoint sequentialCalls (previous : Z) (calls admissions : list Z) : bool :=
  match calls, admissions with
  | now :: calls', admitted :: admissions' =>
      ((previous <=? now) && sequentialCalls admitted calls' admissions')%bool
  | _, _ => true
  end.

(** The number of admissions in the window of 60 s that starts at [from]. *)
Definition admittedWithin (from : Z) (admissions : list Z) : nat :=
  List.length
    (filter (fun t => ((from <=? t) && (t <? from + RATE_LIMIT_WINDOW))%bool)
            admissions).

Definition isCreate (r : Request) : bool :=
  match r with CREATE_READ_MUTATION _ _ _ _ _ => true | _ => false end.

Definition isUpdate (r : Request) : bool :=
  match r with UPDATE_PROGRESS_MUTATION _ _ _ _ _ => true | _ => false end.

(** The requests other than the one that keeps the best read. *)
Definition otherReads (keptId : Z) (reads : list UserBookRead) : list UserBookRead :=
  filter (fun read => negb (read_id read =? keptId)) reads.

(** The breaker is closed and the service answers every request still to
    come with a data payload. *)
Definition healthy (w : World) : Prop :=
  state (breaker w) = CLOSED
  /\ forall n, (List.length (sent w) <= n)%nat ->
       exists delay data,
         remote w n = mkExchange delay (Response 200 (JsonData data)).

(** Requests made one after the other: what each of them returned or
    threw, and the world afterwards. *)
Fixpoint requestAll (config : HardcoverSettings) (requests : list Request)
  (w : World) : list (Completion (option Data)) * World :=
  match requests with
  | [] => ([], w)
  | request :: rest =>
      let '(outcome, w1) := graphqlRequest config request w in
      let '(outcomes, w2) := requestAll config rest w1 in
      (outcome :: outcomes, w2)
  end.

(** ** Concrete runs used below *)

(** Three requests, each admitted and each failing 200 ms later with a
    network error. *)
Definition threeNetworkFailures : list GateEvent :=
  [Checked 1000; Failed 1200 "HARDCOVER_NETWORK_ERROR";
   Checked 2000; Failed 2200 "HARDCOVER_NETWORK_ERROR";
   Checked 3000; Failed 3200 "HARDCOVER_NETWORK_ERROR"].

Definition openedBreaker : CircuitBreakerState :=
  runGate threeNetworkFailures initialBreaker.

(** Two requests that fail with an authentication failure, and a third
    one that fails with a network error. *)
Definition twoAuthFailuresAndOne : list GateEvent :=
  [Checked 1000; Failed 1200 "HARDCOVER_AUTH_FAILED";
   Checked 2000; Failed 2200 "HARDCOVER_AUTH_FAILED";
   Checked 3000; Failed 3200 "HARDCOVER_NETWORK_ERROR"].

(** The service rejects the token in the body of a reply with status 200. *)
Definition unauthorizedReply : Reply :=
  Response 200 (JsonErrors (Some "Unauthorized"%string)).

(** The same fifty-one calls and sixty more with a budget of 60, the
    limit of the service. *)
Definition limitSettings : HardcoverSettings :=
  mkSettings true "token" Strategy.prompt true true Frequency.page true 60 false.

Definition limitCalls : list Z := (repeat 0 61 ++ repeat 60100 60)%list.

Definition exampleSettings : HardcoverSettings :=
  mkSettings true "token" Strategy.prompt true true Frequency.page true 50 false.

(** A service that answers every request with the same reply, 200 ms
    after it was sent. *)
Definition replying (r : Reply) : nat -> Exchange := fun _ => mkExchange 200 r.

Definition freshWorld (remote : nat -> Exchange) : World :=
  mkWorld 0 initialBreaker [] [] remote.

(** Fifty-one calls in the same millisecond, then fifty calls at the time
    the fifty-first one was let through. *)
Definition burstCalls : list Z := (repeat 0 51 ++ repeat 60100 50)%list.

(** The service answers the create mutation with the error it gives for
    a user book that no longer exists. *)
Definition invalidLinkReply : Reply :=
  Response 200
    (JsonData
       (Some (mkData None
                (Some (mkReadMutation
                         (Some "Couldn't find UserBook with id 42"%string) None))
                None None))).

Definition invalidLinkWorld : World := freshWorld (replying invalidLinkReply).

Definition exampleDate : Z -> string := fun _ => "2026-01-01"%string.

(** A book linked to user book 42, with no read session yet, open at
    the fourteenth of 300 pages. *)
Definition linkedHook : Hook :=
  mkHook (mkConfig (Some "42"%string) None None None None None None)
         SyncState.synced false None false [] [].

Definition exampleReader : Reader :=
  mkReader None (Some (mkPageInfo 13 300)) false 0.

Definition noMatch : Hook -> M (option string * Hook) := fun h => ret (None, h).

(** The three read sessions of the clean-up example. *)
Definition threeReads : list UserBookRead :=
  [mkRead 1 (Some 40) None None None;
   mkRead 2 (Some 120) None None None;
   mkRead 3 (Some 80) None None None].

(** The service lists the three sessions and then accepts every
    deletion. *)
Definition cleanupService : nat -> Exchange :=
  fun n =>
    match n with
    | O => mkExchange 200
             (Response 200
                (JsonData
                   (Some (mkData None None
                            (Some [mkUserBookRow 42 None None None
                                                 (Some threeReads)])
                            None))))
    | _ => mkExchange 200 (Response 200 (JsonData (Some emptyData)))
    end.

(** The local book and the search hit of the matcher example. *)
Definition duneBook : Book := mkBook "Dune" "Frank Herbert" None.

Definition duneDocument : SearchDocument :=
  mkDocument (Some 312460) (Some "Dune"%string) None
             (Some [Some (Some "Frank Herbert"%string)]) None None.

Definition duneService : nat -> Exchange :=
  replying (Response 200
              (JsonData (Some (mkData None None None (Some [duneDocument]))))).



(** A local book and two candidates whose exact scores are both 230/3:
    the first has the title similarity 2/3 and the author of the book,
    the second the title of the book and the author similarity 2/9. *)
Definition tieBook : Book := mkBook "abc" "abcdefghi" None.

Definition tieEarlier : HardcoverBook :=
  mkHardcoverBook "1" "abz" EmptyString ["abcdefghi"%string] EmptyString
                  EmptyString EmptyString.

Definition tieLater : HardcoverBook :=
  mkHardcoverBook "2" "abc" EmptyString ["abzzzzzzz"%string] EmptyString
                  EmptyString EmptyString.

(** Settings with the strategy [send], and a comparison in which the
    remote progress is at 50% and the local one at 4.67%. *)
Definition sendSettings : HardcoverSettings :=
  mkSettings true "token" Strategy.send true true Frequency.page true 50 false.

Definition exampleRemote : RemoteProgress :=
  mkRemoteProgress (Some 150) (Some "2026-01-01"%string) None
                   (Some "2026-01-01"%string).

Definition exampleComparison : Comparison :=
  mkComparison 14 300 (Double.div 14 300) 150 (Double.div 150 300) true.

Definition noTime : option string -> option Z := fun _ => None.

Definition receiveSettings : HardcoverSettings :=
  mkSettings true "token" Strategy.receive true true Frequency.page true 50 false.

Definition promptSettings : HardcoverSettings :=
  mkSettings true "token" Strategy.prompt true true Frequency.page true 50 false.

(** The local progress at page 150 of 300. *)
Definition midBookReader : Reader :=
  mkReader None (Some (mkPageInfo 149 300)) false 0.

(** A service whose user book 42 has one active read, at page 0. *)
Definition pageZeroService : nat -> Exchange :=
  replying
    (Response 200
       (JsonData
          (Some (mkData None None
                   (Some [mkUserBookRow 42 None (Some 300) None
                            (Some [mkRead 7 (Some 0) (Some "2026-01-01"%string)
                                          None None])])
                   None)))).

(** The local progress at page 15 of 20, and a user book whose active
    read is at page 16 of an edition with no known number of pages. *)
Definition fifteenOfTwenty : Reader :=
  mkReader None (Some (mkPageInfo 14 20)) false 0.

Definition sixteenOfTwentyProgress : RemoteProgress :=
  mkRemoteProgress (Some 16) (Some "2026-01-01"%string) None
                   (Some "2026-01-01"%string).

Definition sixteenOfTwenty : HardcoverUserBook :=
  mkUserBook 42 (Some sixteenOfTwentyProgress) (Some 7) None None.

(** The query of [testConnection]. *)
Definition typenameQuery : Request := OTHER_QUERY "{ __typename }".

(** The service answers every request with status 500. *)
Definition serverErrorReply : Reply := Response 500 (JsonData None).

(** The breaker opened by three network failures, 67 s after the last of
    them, with a service that answers every request with status 500. *)
Definition probeWorld : World :=
  mkWorld 70000 openedBreaker [] [] (replying serverErrorReply).

(** The transport fails for every request. *)
Definition networkErrorReply : Reply := FetchRejects (JsError "Failed to fetch").

(** ** Further concrete runs *)

(** A breaker that is open since the failure recorded at 3200, and a
    world whose clock shows 30 s later. *)
Definition openWorld : World :=
  mkWorld 33200 openedBreaker [] [] (replying networkErrorReply).

(** The service answers with a GraphQL error that is neither an
    authentication nor a rate-limit error. *)
Definition fieldErrorReply : Reply :=
  Response 200 (JsonErrors (Some "field 'foo' not found"%string)).

(** Settings without a token. *)
Definition tokenlessSettings : HardcoverSettings :=
  mkSettings true EmptyString Strategy.prompt true true Frequency.page true 50
             false.

(** Three network failures recorded by other requests. *)
Definition overlappingFailures : list BreakerCall :=
  [CallRecordFailure 100 "HARDCOVER_NETWORK_ERROR";
   CallRecordFailure 110 "HARDCOVER_NETWORK_ERROR";
   CallRecordFailure 120 "HARDCOVER_NETWORK_ERROR"].


(** ** Connection test (HardcoverClient.ts, lines 371-382) *)

Record ConnectionResult : Set := mkConnection {
  connection_success : bool;
  connection_message : string
}.

(** [(error as Error).message] of a thrown value that is not an object
    is [undefined], and calling [includes] on it throws. *)
Definition testConnection (config : HardcoverSettings) : M ConnectionResult :=
  tryCatch
    (graphqlRequest config (OTHER_QUERY "{ __typename }") ;;;
     ret (mkConnection true "Connection successful"))%js
    (fun error =>
       match error with
       | JsError message =>
           if Js.includes message "HARDCOVER_AUTH_FAILED"
           then ret (mkConnection false "Invalid API token")
           else ret (mkConnection false
                       (if Js.truthy message then message
                        else "Connection failed"%string))
       | JsValue => throw (JsError "Cannot read properties of undefined")
       end).

Definition isDelete (r : Request) : bool :=
  match r with DELETE_READ_MUTATION _ => true | _ => false end.

(** A service that accepts the update of read 7, and one that answers
    the first request with an error and accepts the creation that
    follows. *)
Definition acceptedRead : UserBookRead :=
  mkRead 7 (Some 120) (Some "2026-01-01"%string) None (Some 5).

Definition acceptedUpdate : Data :=
  mkData (Some (mkReadMutation None (Some acceptedRead))) None None None.

Definition refusedUpdate : Data :=
  mkData (Some (mkReadMutation (Some "Read not found"%string) None)) None None None.

Definition acceptedCreation : Data :=
  mkData None (Some (mkReadMutation None (Some acceptedRead))) None None.

Definition acceptingService : nat -> Exchange :=
  replying (Response 200 (JsonData (Some acceptedUpdate))).

Definition refusingService : nat -> Exchange :=
  fun n =>
    match n with
    | O => mkExchange 200 (Response 200 (JsonData (Some refusedUpdate)))
    | _ => mkExchange 200 (Response 200 (JsonData (Some acceptedCreation)))
    end.

(** Three search hits, two of them editions of the same title, and a
    local book that carries an ISBN. *)
Definition duneReprint : SearchDocument :=
  mkDocument (Some 500001) (Some "Dune"%string) None
             (Some [Some (Some "Frank Herbert"%string)])
             (Some ["0441172717"; "9780441172719"]%string) None.

Definition duneMessiah : SearchDocument :=
  mkDocument (Some 312461) (Some "Dune Messiah"%string) None
             (Some [Some (Some "Frank Herbert"%string)]) None None.

Definition duneHits : list SearchDocument :=
  [duneMessiah; duneDocument; duneReprint].

Definition duneWithIsbn : Book :=
  mkBook "Dune" "Frank Herbert" (Some "9780441172719"%string).

Definition duneEditions : nat -> Exchange :=
  replying (Response 200 (JsonData (Some (mkData None None None (Some duneHits))))).

Definition bookWithUnknownIsbn : Book :=
  mkBook "Dune" "Frank Herbert" (Some "1234567890"%string).

(** ** Reading status (hardcoverTypes.ts, lines 43 and 66-72;
       HardcoverClient.ts, lines 507-515) *)

(** [HardcoverReadingStatus]; [null] is [None]. *)
Inductive HardcoverReadingStatus : Set :=
| WANT_TO_READ
| CURRENTLY_READING
| READ
| DNF.

Definition HARDCOVER_STATUS_MAP (status : option HardcoverReadingStatus) : Z :=
  match status with
  | Some WANT_TO_READ => 1
  | Some CURRENTLY_READING => 2
  | Some READ => 3
  | Some DNF => 4
  | None => 0
  end.

Definition statusKey (status : HardcoverReadingStatus) : string :=
  match status with
  | WANT_TO_READ => "WANT_TO_READ"
  | CURRENTLY_READING => "CURRENTLY_READING"
  | READ => "READ"
  | DNF => "DNF"
  end.

(** [statusMap[statusId] || 'UNKNOWN'] *)
Definition getStatusName (statusId : Z) : string :=
  if statusId =? 1 then "WANT_TO_READ"
  else if statusId =? 2 then "CURRENTLY_READING"
  else if statusId =? 3 then "READ"
  else if statusId =? 4 then "DNF"
  else "UNKNOWN".

(** ** Resolution of a conflict and the effects of the hook
       (useHardcoverSync.ts, lines 860-914, 937-957 and 967-979) *)

(** [resolveWithRemote]; [isPulling] is cleared by a timer 500 ms
    later. *)
Definition resolveWithRemote (h : Hook) : Hook :=
  match conflictDetails h with
  | None => h
  | Some details =>
      setConflictDetails None
        (setSyncState SyncState.synced
           (applyRemoteProgress (conflictRemotePage details) h))
  end.

(** [pageInfo.total > 0 ? (pageInfo.current + 1) / pageInfo.total : 0] *)
Definition pagePercentage (pageInfo : PageInfo) : Q :=
  if 0 <? total pageInfo
  then (inject_Z (current pageInfo + 1) / inject_Z (total pageInfo))%Q
  else 0%Q.

(** One run of the effect that reports a finished book (lines 937-957):
    whether [syncStatus('READ')] is called, and [lastPercentage.current]
    afterwards.  [pageInfo] is [None] when the progress, the client, the
    link, the format or the page information is missing. *)
Definition readStatusEffect (lastPercentage : Q) (pageInfo : option PageInfo)
  : bool * Q :=
  match pageInfo with
  | None => (false, lastPercentage)
  | Some info =>
      let percentage := pagePercentage info in
      ((Qle_bool 1 percentage && negb (Qle_bool 1 lastPercentage))%bool,
       percentage)
  end.

(** The number of calls of [syncStatus('READ')] in successive runs of
    the effect. *)
Fixpoint readStatusRuns (lastPercentage : Q) (runs : list (option PageInfo))
  : nat :=
  match runs with
  | [] => 0%nat
  | pageInfo :: rest =>
      let '(called, percentage) := readStatusEffect lastPercentage pageInfo in
      ((if called then 1 else 0) + readStatusRuns percentage rest)%nat
  end.

(** The runs in which the book is not at its end. *)
Definition unfinishedRuns (runs : list (option PageInfo)) : nat :=
  List.length
    (filter (fun pageInfo =>
               match pageInfo with
               | Some info => negb (Qle_bool 1 (pagePercentage info))
               | None => false
               end) runs).

(** [currentSection === lastSyncedSection.current] *)
Definition sameSection (currentSection : string)
  (lastSyncedSection : option string) : bool :=
  match lastSyncedSection with
  | Some s => String.eqb currentSection s
  | None => false
  end.

(** One run of the auto-push effect (lines 860-914): whether the
    debounced [pushProgress] is called, and [lastSyncedSection.current]
    afterwards.  [progress] is the [sectionHref] of the progress, [None]
    when the progress or the client is missing. *)
Definition autoPushEffect (settings : HardcoverSettings) (h : Hook)
  (progress : option string) (lastSyncedSection : option string)
  : bool * option string :=
  if isPulling h then (false, lastSyncedSection)
  else if (isConflict (syncState h)
           || match conflictDetails h with Some _ => true | None => false end)%bool
  then (false, lastSyncedSection)
  else
    match progress with
    | None => (false, lastSyncedSection)
    | Some currentSection =>
        let wanted :=
          (negb (isStrategy (strategy settings) Strategy.receive)
           && enabled settings && syncProgress settings)%bool in
        match syncFrequency settings with
        | Frequency.session => (false, lastSyncedSection)
        | Frequency.chapter =>
            if sameSection currentSection lastSyncedSection
            then (false, lastSyncedSection)
            else (wanted, Some currentSection)
        | Frequency.page => (wanted, lastSyncedSection)
        end
    end.

(** The sections for which successive runs of the effect call
    [pushProgress]. *)
Fixpoint autoPushRuns (settings : HardcoverSettings)
  (lastSyncedSection : option string) (runs : list (Hook * option string))
  : list string :=
  match runs with
  | [] => []
  | (h, progress) :: rest =>
      let '(called, last) := autoPushEffect settings h progress lastSyncedSection in
      match called, progress with
      | true, Some currentSection => currentSection :: autoPushRuns settings last rest
      | _, _ => autoPushRuns settings last rest
      end
  end.

(** No two neighbours of the list are equal. *)
Fixpoint noRepeat (sections : list string) : Prop :=
  match sections with
  | a :: (b :: _) as rest => a <> b /\ noRepeat rest
  | _ => True
  end.

Definition chapterSettings : HardcoverSettings :=
  mkSettings true "token" Strategy.silent true true Frequency.chapter true 50 false.

(** * Verified properties *)

(** ** Rounding to a double *)

Section DoubleFacts.

Import Double.

Lemma pow2_pos e : (0 < pow2 e)%Q.
Proof. apply Qpower_0_lt. reflexivity. Qed.

Lemma pow2_le a b : a <= b -> (pow2 a <= pow2 b)%Q.
Proof. intros H. apply Qpower_le_compat_l; [exact H|discriminate]. Qed.

Lemma pow2_plus a b : (pow2 (a + b) == pow2 a * pow2 b)%Q.
Proof. apply Qpower_plus. discriminate. Qed.

Lemma pow2_inject n : 0 <= n -> (pow2 n == inject_Z (2 ^ n))%Q.
Proof. intros H. unfold pow2. rewrite Zpower_Qpower by exact H. reflexivity. Qed.

Lemma pow2_opp e : (pow2 (- e) == / pow2 e)%Q.
Proof. apply Qpower_opp. Qed.

(** [floorLog2 q] is the integer part of the binary logarithm of [q]. *)
Lemma floorLog2_spec q :
  (0 < q)%Q -> (pow2 (floorLog2 q) <= q)%Q /\ (q < pow2 (floorLog2 q + 1))%Q.
Proof.
  intros Hq. unfold floorLog2. destruct (Qle_bool 1 q) eqn:Hone.
  - apply Qle_bool_iff in Hone.
    assert (Ha : 1 <= Qfloor q).
    { change 1 with (Qfloor 1). apply Qfloor_resp_le. exact Hone. }
    destruct (Z.log2_spec (Qfloor q)) as [Hlow Hhigh]; [lia|].
    pose proof (Z.log2_nonneg (Qfloor q)) as Hk.
    split.
    + rewrite pow2_inject by exact Hk.
      apply Qle_trans with (inject_Z (Qfloor q)); [|apply Qfloor_le].
      rewrite <- Zle_Qle. exact Hlow.
    + rewrite pow2_inject by lia.
      apply Qlt_le_trans with (inject_Z (Qfloor q + 1)); [apply Qlt_floor|].
      rewrite <- Zle_Qle. unfold Z.succ in Hhigh. lia.
  - assert (Hlt : (q < 1)%Q).
    { apply Qnot_le_lt. intros H. apply Qle_bool_iff in H. congruence. }
    assert (Hr : (1 < / q)%Q).
    { apply Qlt_shift_inv_l; [exact Hq|]. rewrite Qmult_1_l. exact Hlt. }
    assert (Hrpos : (0 < / q)%Q) by (apply Qinv_lt_0_compat; exact Hq).
    assert (Hc : 1 < Qceiling (/ q)).
    { apply Z.lt_le_trans with (Qceiling 1 + 1); [reflexivity|].
      assert (H : (inject_Z 1 < inject_Z (Qceiling (/ q)))%Q).
      { apply Qlt_le_trans with (/ q); [exact Hr|apply Qle_ceiling]. }
      rewrite <- Zlt_Qlt in H. change (Qceiling 1) with 1. lia. }
    destruct (Z.log2_up_spec (Qceiling (/ q)) Hc) as [Hlow Hhigh].
    set (k := Z.log2_up (Qceiling (/ q))) in *.
    assert (Hk : 1 <= k).
    { pose proof (Z.log2_up_pos (Qceiling (/ q)) Hc). subst k. lia. }
    split.
    + rewrite pow2_opp.
      assert (Hup : (/ q <= pow2 k)%Q).
      { rewrite pow2_inject by lia.
        apply Qle_trans with (inject_Z (Qceiling (/ q))); [apply Qle_ceiling|].
        rewrite <- Zle_Qle. exact Hhigh. }
      apply Qle_shift_inv_r; [apply pow2_pos|].
      apply Qmult_le_l with (z := (/ q)%Q); [exact Hrpos|].
      rewrite Qmult_assoc, (Qmult_comm (/ q) q), Qmult_inv_r, Qmult_1_l, Qmult_1_r.
      * exact Hup.
      * intros H. rewrite H in Hq. discriminate.
    + replace (- k + 1) with (- (k - 1)) by ring. rewrite pow2_opp.
      assert (Hdown : (pow2 (k - 1) < / q)%Q).
      { rewrite pow2_inject by lia.
        apply Qle_lt_trans with (inject_Z (Qceiling (/ q) - 1));
          [|apply Qceiling_lt].
        rewrite <- Zle_Qle. change (k - 1) with (Z.pred k). lia. }
      apply Qlt_shift_inv_l; [apply pow2_pos|].
      apply Qmult_lt_l with (z := (/ q)%Q); [exact Hrpos|].
      rewrite Qmult_assoc, (Qmult_comm (/ q) q), Qmult_inv_r, Qmult_1_l, Qmult_1_r.
      * exact Hdown.
      * intros H. rewrite H in Hq. discriminate.
Qed.

Lemma floorLog2_le p q : (0 < p)%Q -> (p <= q)%Q -> floorLog2 p <= floorLog2 q.
Proof.
  intros Hp Hpq.
  assert (Hq : (0 < q)%Q) by (eapply Qlt_le_trans; eassumption).
  destruct (floorLog2_spec p Hp) as [Hp1 _].
  destruct (floorLog2_spec q Hq) as [_ Hq2].
  destruct (Z.le_gt_cases (floorLog2 p) (floorLog2 q)) as [H|H]; [exact H|].
  exfalso.
  assert (Hpow : (pow2 (floorLog2 q + 1) <= pow2 (floorLog2 p))%Q)
    by (apply pow2_le; lia).
  apply (Qlt_irrefl q).
  eapply Qlt_le_trans; [exact Hq2|].
  eapply Qle_trans; [exact Hpow|].
  eapply Qle_trans; eassumption.
Qed.

Lemma nearestEven_floor q :
  nearestEven q = Qfloor q \/ nearestEven q = Qfloor q + 1.
Proof.
  unfold nearestEven.
  destruct (q - inject_Z (Qfloor q) ?= 1 # 2)%Q; auto.
  destruct (Z.even (Qfloor q)); auto.
Qed.

Lemma nearestEven_le p q : (p <= q)%Q -> nearestEven p <= nearestEven q.
Proof.
  intros Hpq. pose proof (Qfloor_resp_le _ _ Hpq) as Hfloor.
  destruct (Z.eq_dec (Qfloor p) (Qfloor q)) as [Heq | Hne].
  - unfold nearestEven. rewrite Heq.
    destruct (Qcompare_spec (p - inject_Z (Qfloor q)) (1 # 2)) as [Hp|Hp|Hp];
      destruct (Qcompare_spec (q - inject_Z (Qfloor q)) (1 # 2)) as [Hq|Hq|Hq];
      try destruct (Z.even (Qfloor q)); try lia; exfalso; lra.
  - destruct (nearestEven_floor p) as [-> | ->];
      destruct (nearestEven_floor q) as [-> | ->]; lia.
Qed.

Lemma nearestEven_lower z q : (inject_Z z <= q)%Q -> z <= nearestEven q.
Proof.
  intros H. apply Qfloor_resp_le in H. rewrite Qfloor_Z in H.
  destruct (nearestEven_floor q) as [-> | ->]; lia.
Qed.

Lemma nearestEven_upper z q : (q <= inject_Z z)%Q -> nearestEven q <= z.
Proof.
  intros H. destruct (Qle_lt_or_eq _ _ H) as [Hlt | Heq].
  - assert (Qfloor q < z).
    { rewrite Zlt_Qlt. eapply Qle_lt_trans; [apply Qfloor_le|exact Hlt]. }
    destruct (nearestEven_floor q) as [-> | ->]; lia.
  - unfold nearestEven. rewrite (Qfloor_comp _ _ Heq), Qfloor_Z.
    assert (Hzero : (q - inject_Z z ?= 1 # 2)%Q = Lt).
    { destruct (Qcompare_spec (q - inject_Z z) (1 # 2)); auto; exfalso; lra. }
    rewrite Hzero. lia.
Qed.

Lemma lastPlace_le p q : (0 < p)%Q -> (p <= q)%Q -> lastPlace p <= lastPlace q.
Proof.
  intros Hp Hpq. unfold lastPlace.
  pose proof (floorLog2_le p q Hp Hpq). lia.
Qed.

Lemma div_pow2 q e : (q / pow2 e == q * pow2 (- e))%Q.
Proof. unfold Qdiv. rewrite pow2_opp. reflexivity. Qed.

Lemma roundPositive_nonneg q : (0 < q)%Q -> (0 <= roundPositive q)%Q.
Proof.
  intros Hq. unfold roundPositive.
  apply Qmult_le_0_compat; [|apply Qlt_le_weak, pow2_pos].
  change 0%Q with (inject_Z 0). rewrite <- Zle_Qle.
  apply nearestEven_lower. change (inject_Z 0) with 0%Q.
  apply Qle_shift_div_l; [apply pow2_pos|]. rewrite Qmult_0_l.
  apply Qlt_le_weak. exact Hq.
Qed.

Lemma roundPositive_le p q :
  (0 < p)%Q -> (p <= q)%Q -> (roundPositive p <= roundPositive q)%Q.
Proof.
  intros Hp Hpq.
  assert (Hq : (0 < q)%Q) by (eapply Qlt_le_trans; eassumption).
  pose proof (lastPlace_le p q Hp Hpq) as He.
  unfold roundPositive.
  destruct (Z.eq_dec (lastPlace p) (lastPlace q)) as [Heq | Hne].
  - rewrite Heq. apply Qmult_le_compat_r; [|apply Qlt_le_weak, pow2_pos].
    rewrite <- Zle_Qle. apply nearestEven_le.
    apply Qmult_le_compat_r; [exact Hpq|].
    apply Qlt_le_weak, Qinv_lt_0_compat, pow2_pos.
  - assert (Hlt : lastPlace p < lastPlace q) by lia.
    assert (Hq52 : lastPlace q = floorLog2 q - 52) by (unfold lastPlace in *; lia).
    assert (Hp52 : floorLog2 p - 52 <= lastPlace p) by (unfold lastPlace; lia).
    destruct (floorLog2_spec p Hp) as [_ Hp2].
    destruct (floorLog2_spec q Hq) as [Hq1 _].
    apply Qle_trans with (pow2 (lastPlace p + 53)).
    + rewrite pow2_plus, (Qmult_comm (pow2 (lastPlace p)) (pow2 53)).
      apply Qmult_le_compat_r; [|apply Qlt_le_weak, pow2_pos].
      rewrite (pow2_inject 53) by lia. rewrite <- Zle_Qle.
      apply nearestEven_upper. rewrite <- (pow2_inject 53) by lia.
      apply Qle_shift_div_r; [apply pow2_pos|].
      rewrite <- pow2_plus. apply Qlt_le_weak.
      eapply Qlt_le_trans; [exact Hp2|]. apply pow2_le. lia.
    + apply Qle_trans with (pow2 (lastPlace q + 52)); [apply pow2_le; lia|].
      rewrite pow2_plus, (Qmult_comm (pow2 (lastPlace q)) (pow2 52)).
      apply Qmult_le_compat_r; [|apply Qlt_le_weak, pow2_pos].
      rewrite (pow2_inject 52) by lia. rewrite <- Zle_Qle.
      apply nearestEven_lower. rewrite <- (pow2_inject 52) by lia.
      apply Qle_shift_div_l; [apply pow2_pos|].
      rewrite <- pow2_plus. eapply Qle_trans; [|exact Hq1].
      apply pow2_le. lia.
Qed.


Lemma floorLog2_comp p q : (p == q)%Q -> floorLog2 p = floorLog2 q.
Proof.
  intros H. unfold floorLog2.
  assert (Hb : Qle_bool 1 p = Qle_bool 1 q).
  { destruct (Qle_bool 1 q) eqn:Hq.
    - apply Qle_bool_iff. apply Qle_bool_iff in Hq. rewrite H. exact Hq.
    - destruct (Qle_bool 1 p) eqn:Hp; [|reflexivity].
      apply Qle_bool_iff in Hp. rewrite H in Hp. apply Qle_bool_iff in Hp.
      congruence. }
  rewrite Hb, (Qfloor_comp _ _ H).
  assert (Hinv : (/ p == / q)%Q) by (rewrite H; reflexivity).
  rewrite (Qceiling_comp _ _ Hinv). reflexivity.
Qed.

Lemma nearestEven_comp p q : (p == q)%Q -> nearestEven p = nearestEven q.
Proof.
  intros H. unfold nearestEven. rewrite (Qfloor_comp _ _ H).
  assert (Hc : (p - inject_Z (Qfloor q) ?= 1 # 2)%Q
               = (q - inject_Z (Qfloor q) ?= 1 # 2)%Q).
  { apply Qcompare_comp; [rewrite H|]; reflexivity. }
  rewrite Hc. reflexivity.
Qed.

Lemma roundPositive_comp p q : (p == q)%Q -> (roundPositive p == roundPositive q)%Q.
Proof.
  intros H. unfold roundPositive, lastPlace.
  rewrite (floorLog2_comp _ _ H).
  assert (Hd : (p / pow2 (Z.max (floorLog2 q - 52) (-1074))
                == q / pow2 (Z.max (floorLog2 q - 52) (-1074)))%Q)
    by (rewrite H; reflexivity).
  rewrite (nearestEven_comp _ _ Hd). reflexivity.
Qed.

(** Rounding does not depend on how the fraction is written. *)
Lemma round_comp p q : (p == q)%Q -> round p = round q.
Proof.
  intros H. unfold round. apply Qred_complete.
  assert (Hc : (0 ?= p)%Q = (0 ?= q)%Q)
    by (apply Qcompare_comp; [reflexivity|exact H]).
  rewrite Hc. destruct (0 ?= q)%Q.
  - reflexivity.
  - apply roundPositive_comp. exact H.
  - assert (Hn : (- p == - q)%Q) by (rewrite H; reflexivity).
    rewrite (roundPositive_comp _ _ Hn). reflexivity.
Qed.

(** Rounding keeps the order. *)
Lemma round_le p q : (p <= q)%Q -> (round p <= round q)%Q.
Proof.
  intros Hpq. unfold round. apply Qred_le.
  destruct (Qcompare_spec 0 p) as [Hp|Hp|Hp];
    destruct (Qcompare_spec 0 q) as [Hq|Hq|Hq]; try (exfalso; lra).
  - apply Qle_refl.
  - apply roundPositive_nonneg. exact Hq.
  - apply roundPositive_le; assumption.
  - assert (H := roundPositive_nonneg (- p)). lra.
  - assert (H := roundPositive_nonneg (- p)).
    assert (H' := roundPositive_nonneg q). lra.
  - assert (H := roundPositive_le (- q) (- p)). lra.
Qed.

Lemma round_nonneg q : (0 <= q)%Q -> (0 <= round q)%Q.
Proof. intros H. change 0%Q with (round 0) at 1. apply round_le. exact H. Qed.


Lemma nearestEven_error q :
  (q - (1 # 2) <= inject_Z (nearestEven q) <= q + (1 # 2))%Q.
Proof.
  pose proof (Qfloor_le q) as Hlow. pose proof (Qlt_floor q) as Hhigh.
  rewrite inject_Z_plus in Hhigh. change (inject_Z 1) with 1%Q in Hhigh.
  unfold nearestEven.
  destruct (Qcompare_spec (q - inject_Z (Qfloor q)) (1 # 2)) as [H|H|H];
    try destruct (Z.even (Qfloor q));
    rewrite ?inject_Z_plus; change (inject_Z 1) with 1%Q; lra.
Qed.

Lemma roundPositive_error q :
  (0 < q)%Q ->
  (q - (q * pow2 (-53) + pow2 (-1075)) <= roundPositive q
   <= q + (q * pow2 (-53) + pow2 (-1075)))%Q.
Proof.
  intros Hq. unfold roundPositive.
  set (e := lastPlace q).
  pose proof (pow2_pos e) as He.
  pose proof (nearestEven_error (q / pow2 e)) as [Hlow Hhigh].
  set (m := inject_Z (nearestEven (q / pow2 e))) in *.
  assert (Hq' : (q == q / pow2 e * pow2 e)%Q).
  { field. intros H. rewrite H in He. discriminate. }
  assert (Hhalf : ((1 # 2) * pow2 e <= q * pow2 (-53) + pow2 (-1075))%Q).
  { destruct (floorLog2_spec q Hq) as [Hfl _].
    pose proof (pow2_pos (-1075)). pose proof (pow2_pos (-53)).
    unfold e, lastPlace.
    destruct (Z.max_spec (floorLog2 q - 52) (-1074)) as [[_ ->] | [_ ->]].
    - change ((1 # 2) * pow2 (-1074))%Q with ((1 # 2) * pow2 (-1075 + 1))%Q.
      rewrite pow2_plus. change (pow2 1) with 2%Q.
      assert (0 <= q * pow2 (-53))%Q by (apply Qmult_le_0_compat; lra). lra.
    - replace (floorLog2 q - 52) with (floorLog2 q + (-53 + 1)) by ring.
      rewrite pow2_plus, (pow2_plus (-53) 1). change (pow2 1) with 2%Q.
      assert (pow2 (floorLog2 q) * pow2 (-53) <= q * pow2 (-53))%Q
        by (apply Qmult_le_compat_r; lra).
      assert (0 <= pow2 (floorLog2 q) * pow2 (-53))%Q
        by (apply Qmult_le_0_compat; [apply Qlt_le_weak, pow2_pos|lra]).
      lra. }
  assert (Hup : (m * pow2 e <= (q / pow2 e + (1 # 2)) * pow2 e)%Q)
    by (apply Qmult_le_compat_r; lra).
  assert (Hdown : ((q / pow2 e - (1 # 2)) * pow2 e <= m * pow2 e)%Q)
    by (apply Qmult_le_compat_r; lra).
  lra.
Qed.

(** The rounding error: at most half a unit in the last place. *)
Lemma round_error q bound :
  (Qabs q <= bound)%Q ->
  (q - (bound * pow2 (-53) + pow2 (-1075)) <= round q
   <= q + (bound * pow2 (-53) + pow2 (-1075)))%Q.
Proof.
  intros Hbound. pose proof (pow2_pos (-53)). pose proof (pow2_pos (-1075)).
  apply Qabs_Qle_condition in Hbound. destruct Hbound as [Hlow Hhigh].
  unfold round. rewrite Qred_correct.
  destruct (Qcompare_spec 0 q) as [Hq|Hq|Hq].
  - assert (0 <= bound * pow2 (-53))%Q
      by (apply Qmult_le_0_compat; lra). lra.
  - pose proof (roundPositive_error q Hq) as [H1 H2].
    assert (q * pow2 (-53) <= bound * pow2 (-53))%Q
      by (apply Qmult_le_compat_r; lra). lra.
  - assert (Hn : (0 < - q)%Q) by lra.
    pose proof (roundPositive_error (- q) Hn) as [H1 H2].
    assert (- q * pow2 (-53) <= bound * pow2 (-53))%Q
      by (apply Qmult_le_compat_r; lra). lra.
Qed.

(** Rounding is symmetric about 0. *)
Lemma round_opp q : (round (- q) == - round q)%Q.
Proof.
  unfold round. rewrite !Qred_correct.
  destruct (Qcompare_spec 0 q) as [Hq|Hq|Hq];
    destruct (Qcompare_spec 0 (- q)) as [Hn|Hn|Hn]; try (exfalso; lra).
  - reflexivity.
  - assert (Hq' : (- - q == q)%Q) by ring.
    rewrite (roundPositive_comp _ _ Hq'). reflexivity.
  - ring.
Qed.

Lemma round_abs q : (Qabs (round q) == round (Qabs q))%Q.
Proof.
  destruct (Qlt_le_dec q 0) as [Hneg | Hpos].
  - assert (Hr : (round q <= 0)%Q)
      by (apply Qle_trans with (round 0);
          [apply round_le; lra|vm_compute; discriminate]).
    assert (Hq : (q <= 0)%Q) by lra.
    rewrite (round_comp _ _ (Qabs_neg q Hq)), (Qabs_neg (round q) Hr).
    rewrite round_opp. reflexivity.
  - rewrite (round_comp _ _ (Qabs_pos q Hpos)).
    apply Qabs_pos. apply round_nonneg. exact Hpos.
Qed.

End DoubleFacts.

(** The rounding above gives the doubles that the kernel's binary64
    arithmetic gives, on the quotients, products, sums and differences
    met below. *)
Section Binary64.

Import PrimFloat.
Local Open Scope float_scope.

Lemma Double_agrees_with_binary64 :
  Double.ofBinary64 (5 / 100) = Some (Double.round (5 # 100))
  /\ Double.ofBinary64 (1 / 3) = Some (Double.div 1 3)
  /\ Double.ofBinary64 (3 / 7 * 70) = Some (Double.mul (Double.div 3 7) 70)
  /\ Double.ofBinary64 (0 + 18 / 23 * 70 + 4 / 23 * 30)
     = Some (Double.add (Double.add 0 (Double.mul (Double.div 18 23) 70))
                        (Double.mul (Double.div 4 23) 30))
  /\ Double.ofBinary64 (abs (16 / 20 - 15 / 20))
     = Some (Qabs (Double.sub (Double.div 16 20) (Double.div 15 20)))
  /\ Double.ofBinary64 (abs (14 / 300 - 150 / 300))
     = Some (Qabs (Double.sub (Double.div 14 300) (Double.div 150 300)))
  /\ Double.ofBinary64 (29 / 100 * 50) = Some (Double.mul (Double.div 29 100) 50)
  /\ Double.ofBinary64 (1 / 0x1p+1023 / 0x1p+51)
     = Some (Double.div (Double.div 1 (Double.pow2 1023)) (Double.pow2 51))
  /\ Double.ofBinary64 (3 * (1 / 0x1p+1023 / 0x1p+51) / 2)
     = Some (Double.div
               (Double.mul 3 (Double.div (Double.div 1 (Double.pow2 1023))
                                         (Double.pow2 51))) 2)
  /\ Double.ofBinary64 (5 * (1 / 0x1p+1023 / 0x1p+51) / 2)
     = Some (Double.div
               (Double.mul 5 (Double.div (Double.div 1 (Double.pow2 1023))
                                         (Double.pow2 51))) 2).
Proof. vm_compute. repeat split. Qed.

End Binary64.

(** ** The circuit breaker *)

Lemma includes_prefix s sub : String.prefix sub s = true -> Js.includes s sub = true.
Proof. destruct s; simpl; intros ->; reflexivity. Qed.

(** The failure counter never becomes negative. *)
Lemma recordFailure_count_nonneg now error cb :
  0 <= failureCount cb -> 0 <= failureCount (recordFailure now error cb).
Proof.
  intros H. unfold recordFailure.
  destruct (isAuthFailure error); [simpl; lia|].
  destruct (state cb); simpl;
    try (destruct (CIRCUIT_BREAKER_THRESHOLD <=? failureCount cb + 1); simpl; lia).
  unfold CIRCUIT_BREAKER_THRESHOLD; lia.
Qed.

Lemma recordSuccess_count cb : failureCount (recordSuccess cb) = 0.
Proof. unfold recordSuccess. destruct (state cb); reflexivity. Qed.

Lemma canMakeRequest_count now cb :
  failureCount (snd (canMakeRequest now cb)) = failureCount cb.
Proof.
  unfold canMakeRequest. destruct (state cb); simpl; auto.
  - destruct (CIRCUIT_BREAKER_TIMEOUT <=? now - lastFailureTime cb); reflexivity.
  - destruct (halfOpenAttempts cb <? CIRCUIT_BREAKER_HALF_OPEN_REQUESTS); reflexivity.
Qed.

(** One failure that is not an authentication failure: the breaker is
    open afterwards as soon as the count has reached the threshold, or
    the breaker was not closed. *)
Lemma recordFailure_state now error cb :
  isAuthFailure error = false ->
  state (recordFailure now error cb) =
    match state cb with
    | CLOSED =>
        if CIRCUIT_BREAKER_THRESHOLD <=? failureCount cb + 1 then OPEN else CLOSED
    | _ => OPEN
    end.
Proof.
  intros Hna. unfold recordFailure. rewrite Hna.
  destruct (state cb); simpl; auto;
    destruct (CIRCUIT_BREAKER_THRESHOLD <=? failureCount cb + 1); reflexivity.
Qed.

Lemma recordFailure_count_closed now error cb :
  isAuthFailure error = false -> state cb <> HALF_OPEN ->
  failureCount (recordFailure now error cb) = failureCount cb + 1.
Proof.
  intros Hna Hs. unfold recordFailure. rewrite Hna.
  destruct (state cb); simpl; try congruence;
    destruct (CIRCUIT_BREAKER_THRESHOLD <=? failureCount cb + 1); reflexivity.
Qed.

(** In every state the singleton can reach, the failure counter is not
    negative. *)
Lemma failureCount_nonneg calls :
  0 <= failureCount (fold_left call calls initialBreaker).
Proof.
  assert (H : forall cb, 0 <= failureCount cb ->
                         0 <= failureCount (fold_left call calls cb)).
  { induction calls as [|c calls IH]; intros cb Hcb; cbn [fold_left]; auto.
    apply IH. destruct c; cbn [call].
    - rewrite canMakeRequest_count. exact Hcb.
    - rewrite recordSuccess_count. lia.
    - apply recordFailure_count_nonneg. exact Hcb.
    - unfold checkAndClearRecoveryFlag.
      destruct (lastFailureTime cb =? -1); exact Hcb.
    - exact Hcb.
    - cbn. lia. }
  apply H. cbn. lia.
Qed.

Lemma canMakeRequest_closed now cb :
  state cb = CLOSED -> canMakeRequest now cb = (Allowed, cb).
Proof. intros H. unfold canMakeRequest. rewrite H. reflexivity. Qed.

Lemma canMakeRequest_not_closed now cb :
  state cb <> CLOSED -> state (snd (canMakeRequest now cb)) <> CLOSED.
Proof.
  intros H. unfold canMakeRequest. destruct (state cb) eqn:Hs; [congruence| |].
  - destruct (CIRCUIT_BREAKER_TIMEOUT <=? now - lastFailureTime cb); cbn;
      congruence.
  - destruct (halfOpenAttempts cb <? CIRCUIT_BREAKER_HALF_OPEN_REQUESTS); cbn;
      congruence.
Qed.

Lemma runGate_app events later cb :
  runGate (events ++ later) cb = runGate later (runGate events cb).
Proof.
  revert cb. induction events as [|[now|now error] events IH]; intros cb;
    cbn; auto.
Qed.

(** Without a success, a breaker that is not closed does not close. *)
Lemma runGate_not_closed events : forall cb,
  Forall nonAuth events ->
  state cb <> CLOSED -> state (runGate events cb) <> CLOSED.
Proof.
  induction events as [|[now|now error] events IH]; intros cb Hall Hs;
    cbn [runGate]; auto; inversion Hall as [|? ? Hna Hrest]; subst.
  - apply IH; auto. apply canMakeRequest_not_closed. exact Hs.
  - apply IH; auto. cbn in Hna. rewrite recordFailure_state by assumption.
    destruct (state cb); congruence.
Qed.

(** While the breaker stays closed, its counter has counted every
    failure. *)
Lemma runGate_closed events : forall cb,
  Forall nonAuth events ->
  state cb = CLOSED ->
  state (runGate events cb) <> CLOSED
  \/ (state (runGate events cb) = CLOSED
      /\ failureCount (runGate events cb)
         = failureCount cb + Z.of_nat (failures events)).
Proof.
  induction events as [|[now|now error] events IH]; intros cb Hall Hclosed;
    cbn [runGate failures]; try inversion Hall as [|? ? Hna Hrest]; subst.
  - right. split; [assumption | cbn; lia].
  - rewrite canMakeRequest_closed by assumption. cbn [snd]. apply IH; assumption.
  - cbn in Hna.
    pose proof (recordFailure_state now error cb Hna) as Hst.
    rewrite Hclosed in Hst.
    destruct (CIRCUIT_BREAKER_THRESHOLD <=? failureCount cb + 1).
    + left. apply runGate_not_closed; [assumption | congruence].
    + destruct (IH (recordFailure now error cb) Hrest Hst) as [Hopen | [Hc Hn]].
      * left. exact Hopen.
      * right. split; [exact Hc|].
        rewrite Hn, recordFailure_count_closed by (auto; congruence).
        rewrite Nat2Z.inj_succ. lia.
Qed.

(** A request made while the breaker is open and the time-out has not
    elapsed is refused at once: the wrapper throws the circuit-open error
    and leaves the breaker, the rate limiter, the clock and the list of
    requests sent as they were. *)
Lemma graphqlRequest_while_open config request w :
  state (breaker w) = OPEN ->
  clock w - lastFailureTime (breaker w) < CIRCUIT_BREAKER_TIMEOUT ->
  graphqlRequest config request w =
    (Threw (circuitOpenError
              (openReason
                 (Js.ceilDiv (CIRCUIT_BREAKER_TIMEOUT
                              - (clock w - lastFailureTime (breaker w))) 1000))),
     w).
Proof.
  intros Hopen Hearly. unfold graphqlRequest, canMakeRequest. rewrite Hopen.
  apply Z.ltb_lt in Hearly. rewrite Z.ltb_antisym in Hearly.
  apply negb_true_iff in Hearly. rewrite Hearly.
  destruct w as [c b ts s r]; destruct b; reflexivity.
Qed.

(** Start from the closed state and let admission checks and failures
    follow one another, with no success and no authentication failure
    among them.  When the third failure, or any later one, has been
    recorded, the breaker is open. *)
Lemma three_recorded_failures_open :
  forall (cb : CircuitBreakerState) (events : list GateEvent) (now : Z)
         (error : string),
    state cb = CLOSED ->
    0 <= failureCount cb ->
    Forall nonAuth events ->
    isAuthFailure error = false ->
    (2 <= failures events)%nat ->
    state (runGate (events ++ [Failed now error]) cb) = OPEN.
Proof.
  intros cb events now error Hclosed Hcount Hall Hna Hlen.
  rewrite runGate_app. cbn [runGate].
  rewrite recordFailure_state by assumption.
  destruct (runGate_closed events cb Hall Hclosed) as [Hopen | [Hc Hn]].
  - destruct (state (runGate events cb)); congruence.
  - rewrite Hc, Hn.
    replace (CIRCUIT_BREAKER_THRESHOLD
             <=? failureCount cb + Z.of_nat (failures events) + 1) with true;
      [reflexivity|].
    symmetry. apply Z.leb_le. unfold CIRCUIT_BREAKER_THRESHOLD. lia.
Qed.

(** Every request made while the breaker is open, less than 60 s after
    the last failure, is refused with the [HARDCOVER_CIRCUIT_OPEN] error,
    without a network call and without any change of the breaker. *)
Lemma open_breaker_rejects config request w :
  state (breaker w) = OPEN ->
  clock w - lastFailureTime (breaker w) < 60000 ->
  exists reason,
    graphqlRequest config request w =
      (Threw (JsError ("HARDCOVER_CIRCUIT_OPEN: " ++ reason)), w).
Proof.
  intros Hopen Hearly. eexists. apply graphqlRequest_while_open; assumption.
Qed.

(** C1 fails on the code for the failures that the service reports by
    an HTTP status.  Three requests in a row that fail at the transport
    open the breaker, and a fourth one is refused with the circuit-open
    error without reaching the service.  Three requests in a row that
    are answered with status 500 each throw [HARDCOVER_SERVER_ERROR], yet
    none is reported to the breaker: it is still closed, with a failure
    count of 0, and the fourth request reaches the service as well. *)
Theorem C1_server_errors_do_not_open :
  (let '(outcomes, w') :=
     requestAll exampleSettings
                [typenameQuery; typenameQuery; typenameQuery; typenameQuery]
                (freshWorld (replying networkErrorReply)) in
   firstn 3 outcomes = repeat (Threw (JsError "HARDCOVER_NETWORK_ERROR")) 3
   /\ Js.startsWith (thrownMessage
                       match nth 3 outcomes (Returned None) with
                       | Threw e => e
                       | Returned _ => JsValue
                       end) "HARDCOVER_CIRCUIT_OPEN" = true
   /\ state (breaker w') = OPEN
   /\ List.length (sent w') = 3%nat) /\
  (let '(outcomes, w') :=
     requestAll exampleSettings
                [typenameQuery; typenameQuery; typenameQuery; typenameQuery]
                (freshWorld (replying serverErrorReply)) in
   outcomes = repeat (Threw (JsError "HARDCOVER_SERVER_ERROR")) 4
   /\ state (breaker w') = CLOSED
   /\ failureCount (breaker w') = 0
   /\ List.length (sent w') = 4%nat).
Proof. vm_compute. repeat split. Qed.

(** While half-open with the probe already used, every admission check
    is refused and the breaker stays as it is. *)
Lemma checkRequests_probe_used times : forall cb,
  state cb = HALF_OPEN ->
  CIRCUIT_BREAKER_HALF_OPEN_REQUESTS <= halfOpenAttempts cb ->
  checkRequests times cb = (map (fun _ => false) times, cb).
Proof.
  induction times as [|now times IH]; intros cb Hs Hused; simpl; auto.
  unfold canMakeRequest. rewrite Hs.
  apply Z.ltb_ge in Hused. rewrite Hused.
  rewrite IH; auto. apply Z.ltb_ge. assumption.
Qed.

(** An authentication failure never changes the state of the breaker. *)
Lemma recordFailure_auth_state now error cb :
  isAuthFailure error = true -> state (recordFailure now error cb) = state cb.
Proof. intros H. unfold recordFailure. rewrite H. reflexivity. Qed.

(** It is counted all the same. *)
Lemma recordFailure_auth_count now error cb :
  isAuthFailure error = true ->
  failureCount (recordFailure now error cb) = failureCount cb + 1.
Proof. intros H. unfold recordFailure. rewrite H. reflexivity. Qed.

(** After three network failures the breaker is open; 67 s later three
    admission checks in a row admit two requests (the one that finds the
    time-out elapsed, and one more); and a probe that fails with an
    authentication failure leaves the breaker half-open, with a failure
    count of 4. *)
Lemma auth_failed_probe_stays_half_open :
  let opened := runGate threeNetworkFailures initialBreaker in
  let probing := snd (canMakeRequest 70000 opened) in
  state opened = OPEN /\
  fst (checkRequests [70000; 70001; 70002] opened) = [true; true; false] /\
  state probing = HALF_OPEN /\
  state (recordFailure 70500 "HARDCOVER_AUTH_FAILED" probing) = HALF_OPEN /\
  failureCount (recordFailure 70500 "HARDCOVER_AUTH_FAILED" probing) = 4.
Proof. repeat split. Qed.

(** What the breaker does with the outcomes that reach it.  A request
    that finds the breaker open with at least 60 s elapsed since the last
    failure is admitted and moves the breaker to half-open; of the
    admission checks that follow with no outcome recorded in between, one
    more is admitted; a success recorded in the half-open state closes
    the breaker and resets the failure count to 0; a failure other than an
    authentication failure recorded in the half-open state reopens the
    breaker with the failure count set to the threshold 3. *)
Lemma half_open_probe_recorded :
  forall (cb : CircuitBreakerState) (now : Z),
    state cb = OPEN ->
    60000 <= now - lastFailureTime cb ->
    let probing := snd (canMakeRequest now cb) in
    fst (canMakeRequest now cb) = Allowed /\
    state probing = HALF_OPEN /\
    (forall t ts,
        fst (checkRequests (t :: ts) probing) = true :: map (fun _ => false) ts /\
        state (snd (checkRequests (t :: ts) probing)) = HALF_OPEN) /\
    (forall p,
        state p = HALF_OPEN ->
        state (recordSuccess p) = CLOSED /\ failureCount (recordSuccess p) = 0) /\
    (forall p t error,
        state p = HALF_OPEN ->
        isAuthFailure error = false ->
        state (recordFailure t error p) = OPEN /\
        failureCount (recordFailure t error p) = 3).
Proof.
  intros cb now Hopen Helapsed probing.
  assert (Hstep : canMakeRequest now cb =
                  (Allowed, mkBreaker HALF_OPEN (failureCount cb)
                                      (lastFailureTime cb) 0
                                      (hasNotifiedDisconnect cb))).
  { unfold canMakeRequest. rewrite Hopen.
    replace (CIRCUIT_BREAKER_TIMEOUT <=? now - lastFailureTime cb) with true;
      [reflexivity|].
    symmetry. apply Z.leb_le. unfold CIRCUIT_BREAKER_TIMEOUT. lia. }
  subst probing. rewrite Hstep. cbn [fst snd].
  repeat split.
  - cbn [checkRequests]. unfold canMakeRequest at 1. cbn.
    rewrite checkRequests_probe_used; [reflexivity| reflexivity |].
    cbn. unfold CIRCUIT_BREAKER_HALF_OPEN_REQUESTS. lia.
  - cbn [checkRequests]. unfold canMakeRequest at 1. cbn.
    rewrite checkRequests_probe_used; [reflexivity| reflexivity |].
    cbn. unfold CIRCUIT_BREAKER_HALF_OPEN_REQUESTS. lia.
  - unfold recordSuccess. rewrite H. reflexivity.
  - unfold recordSuccess. rewrite H. reflexivity.
  - rewrite recordFailure_state by assumption. rewrite H. reflexivity.
  - unfold recordFailure. rewrite H0, H. reflexivity.
Qed.

(** A half-open breaker that has counted its probe admits nothing, at
    whatever time the request is made: only a recorded outcome or a
    reset can move it. *)
Lemma half_open_breaker_is_stuck config request w :
  state (breaker w) = HALF_OPEN ->
  CIRCUIT_BREAKER_HALF_OPEN_REQUESTS <= halfOpenAttempts (breaker w) ->
  graphqlRequest config request w = (Threw (circuitOpenError probingReason), w).
Proof.
  intros Hstate Hused. unfold graphqlRequest, canMakeRequest. rewrite Hstate.
  apply Z.ltb_ge in Hused. rewrite Hused. destruct w; reflexivity.
Qed.

(** C2 fails on the code.  The breaker has been opened by three network
    failures, 67 s have passed, and the service answers every request
    with status 500.  The request that finds the time-out elapsed is
    admitted and sent; its failure is thrown from inside the [try] block
    and rethrown by the [catch] block without [recordFailure] (the defect
    of C1), so the breaker does not go back to open: it stays half-open
    with no probe counted.  A second request is therefore admitted and
    sent as well, and fails in the same way.  From then on the breaker is
    half-open with its probe used: every later request is rejected, at
    any time, and since no request is admitted no outcome can ever be
    recorded again. *)
Theorem C2_failed_probe_is_not_recorded :
  (let '(outcomes, w') :=
     requestAll exampleSettings
                [typenameQuery; typenameQuery; typenameQuery; typenameQuery]
                probeWorld in
   state (breaker probeWorld) = OPEN
   /\ CIRCUIT_BREAKER_TIMEOUT <= clock probeWorld - lastFailureTime (breaker probeWorld)
   /\ outcomes = [Threw (JsError "HARDCOVER_SERVER_ERROR");
                  Threw (JsError "HARDCOVER_SERVER_ERROR");
                  Threw (circuitOpenError probingReason);
                  Threw (circuitOpenError probingReason)]
   /\ sent w' = [typenameQuery; typenameQuery]
   /\ state (breaker w') = HALF_OPEN
   /\ halfOpenAttempts (breaker w') = 1
   /\ failureCount (breaker w') = 3
   /\ lastFailureTime (breaker w') = lastFailureTime (breaker probeWorld))
  /\ (forall config request later,
        let w' := snd (requestAll exampleSettings [typenameQuery; typenameQuery]
                                  probeWorld) in
        graphqlRequest config request (advance later w')
        = (Threw (circuitOpenError probingReason), advance later w')).
Proof.
  split; [vm_compute; repeat split; discriminate|].
  intros config request later w'.
  apply half_open_breaker_is_stuck; subst w'; vm_compute;
    [reflexivity|discriminate].
Qed.

(** C3 fails on the code: [recordFailure] increments the counter before
    it looks at the kind of failure.  One authentication failure takes
    the count of a fresh breaker from 0 to 1, also when it comes from a
    request whose reply carries the error [Unauthorized]; and two
    authentication failures followed by a single network failure open
    the breaker. *)
Theorem C3_auth_failure_is_counted :
  isAuthFailure "HARDCOVER_AUTH_FAILED" = true /\
  failureCount initialBreaker = 0 /\
  failureCount (recordFailure 1000 "HARDCOVER_AUTH_FAILED" initialBreaker) = 1 /\
  (let '(outcome, w') :=
     graphqlRequest exampleSettings typenameQuery
                    (freshWorld (replying unauthorizedReply)) in
   outcome = Threw (JsError "HARDCOVER_AUTH_FAILED")
   /\ failureCount (breaker w') = 1) /\
  state (runGate twoAuthFailuresAndOne initialBreaker) = OPEN.
Proof. vm_compute. repeat split. Qed.

(** An HTTP error status is thrown from inside the [try] block with a
    message that starts with [HARDCOVER_]; the [catch] block rethrows it
    without reporting it to the breaker, whatever the status and the
    state of the world. *)
Lemma status_error_not_reported status json w :
  ((200 <=? status) && (status <=? 299))%bool = false ->
  tryCatch (interpretReply (Response status json)) rethrow w
  = (Threw (JsError (statusError status)), w).
Proof.
  intros Hstatus. unfold tryCatch. cbn [interpretReply]. rewrite Hstatus.
  cbn [throw rethrow].
  assert (Hprefix : Js.startsWith (statusError status) "HARDCOVER_" = true).
  { unfold statusError.
    destruct (status =? 401); [reflexivity|].
    destruct (status =? 429); [reflexivity|].
    destruct (500 <=? status); reflexivity. }
  rewrite Hprefix. reflexivity.
Qed.

(** ** The rate limiter *)

(** A call never fails: it records its own time stamp behind those of
    the last 60 s. *)
Lemma checkRateLimit_records config now stamps :
  snd (checkRateLimit config now stamps) =
    (filter (fun ts => now - ts <? RATE_LIMIT_WINDOW) stamps ++ [now])%list.
Proof. reflexivity. Qed.

(** When the window holds as many time stamps as the budget allows, the
    caller waits until 100 ms after the oldest of them has left it. *)
Lemma checkRateLimit_delay config now stamps oldest rest :
  filter (fun ts => now - ts <? RATE_LIMIT_WINDOW) stamps = oldest :: rest ->
  budget config <= Z.of_nat (List.length (oldest :: rest)) ->
  now + fst (checkRateLimit config now stamps) = oldest + RATE_LIMIT_WINDOW + 100 /\
  0 < fst (checkRateLimit config now stamps).
Proof.
  intros Hkept Hfull. unfold checkRateLimit, rateLimitWait. cbn [fst].
  rewrite Hkept. apply Z.leb_le in Hfull. rewrite Hfull.
  assert (Hin : In oldest (filter (fun ts => now - ts <? RATE_LIMIT_WINDOW) stamps))
    by (rewrite Hkept; left; reflexivity).
  apply filter_In in Hin. destruct Hin as [_ Hrecent].
  apply Z.ltb_lt in Hrecent.
  assert (Hpos : 0 < RATE_LIMIT_WINDOW - (now - oldest) + 100) by lia.
  apply Z.ltb_lt in Hpos. rewrite Hpos. apply Z.ltb_lt in Hpos. lia.
Qed.

(** When it holds fewer, the caller is not delayed. *)
Lemma checkRateLimit_no_delay config now stamps :
  Z.of_nat (List.length (filter (fun ts => now - ts <? RATE_LIMIT_WINDOW) stamps))
    < budget config ->
  fst (checkRateLimit config now stamps) = 0.
Proof.
  intros Hroom. unfold checkRateLimit, rateLimitWait. cbn [fst].
  apply Z.leb_gt in Hroom. rewrite Hroom. reflexivity.
Qed.

(** C4 fails on the code: the time stamp recorded for a delayed call is
    the time of the call, not the time at which it is let through.  With
    the default budget of 50, fifty-one calls made at time 0 are let
    through at 0 (fifty of them) and at 60100 (the last one); at 60100
    every recorded time stamp is older than 60 s, so the next fifty
    calls pass without delay, and fifty-one requests are let through
    within the same window of 60 s.  With a budget of 60 the same run
    lets sixty-one requests through within one window. *)
Theorem C4_budget_exceeded_after_delay :
  (let admissions := admissionTimes exampleSettings burstCalls [] in
   budget exampleSettings = 50 /\
   sequentialCalls 0 burstCalls admissions = true /\
   admissions = (repeat 0 50 ++ repeat 60100 51)%list /\
   admittedWithin 60100 admissions = 51%nat) /\
  (let admissions := admissionTimes limitSettings limitCalls [] in
   budget limitSettings = MAX_REQUESTS_PER_WINDOW /\
   sequentialCalls 0 limitCalls admissions = true /\
   admittedWithin 60100 admissions = 61%nat).
Proof. vm_compute. repeat split. Qed.

(** ** Page mapping *)

(** [Math.round] of the quotient of two integers, in integer terms. *)
Lemma round_quotient (n d : Z) :
  0 < d ->
  2 * d * JsNum.round (inject_Z n / inject_Z d) <= 2 * n + d
  /\ 2 * n + d < 2 * d * JsNum.round (inject_Z n / inject_Z d) + 2 * d.
Proof.
  intros Hd. unfold JsNum.round.
  assert (Heq : (inject_Z n / inject_Z d + (1 # 2) == inject_Z (2 * n + d) / inject_Z (2 * d))%Q).
  { rewrite !inject_Z_plus, !inject_Z_mult. field.
    intros H. change 0%Q with (inject_Z 0) in H.
    apply (proj1 (inject_Z_injective d 0)) in H. lia. }
  rewrite (Qfloor_comp _ _ Heq).
  rewrite <- Zdiv_Qdiv.
  pose proof (Z.mul_div_le (2 * n + d) (2 * d)) as Hle.
  pose proof (Z.mul_succ_div_gt (2 * n + d) (2 * d)) as Hgt.
  lia.
Qed.

(** The same for [a / b * c], the form used by both mappings. *)
Lemma round_scaled (a b c : Z) :
  0 < b ->
  2 * b * JsNum.round (inject_Z a / inject_Z b * inject_Z c) <= 2 * (a * c) + b
  /\ 2 * (a * c) + b
     < 2 * b * JsNum.round (inject_Z a / inject_Z b * inject_Z c) + 2 * b.
Proof.
  intros Hb.
  assert (Heq : JsNum.round (inject_Z a / inject_Z b * inject_Z c)
                = JsNum.round (inject_Z (a * c) / inject_Z b)).
  { unfold JsNum.round. apply Qfloor_comp.
    rewrite inject_Z_mult. field.
    intros H. apply (proj1 (inject_Z_injective b 0)) in H. lia. }
  rewrite Heq. apply round_quotient. assumption.
Qed.

(** The distance between a local page and its image under the two
    mappings, in terms of the two totals. *)
Lemma round_trip_distance (p l r : Z) :
  0 < l -> 0 < r ->
  2 * r * Z.abs (toLocalPage (toRemotePage p l r) r l - p) <= l + r.
Proof.
  intros Hl Hr. unfold toLocalPage, toRemotePage.
  set (remotePage := JsNum.round (inject_Z p / inject_Z l * inject_Z r)).
  pose proof (round_scaled p l r Hl) as [Hlow Hhigh].
  fold remotePage in Hlow, Hhigh.
  pose proof (round_scaled remotePage r l Hr) as [Hlow' Hhigh'].
  set (back := JsNum.round (inject_Z remotePage / inject_Z r * inject_Z l)) in *.
  destruct (Z.abs_spec (back - p)) as [[_ ->]|[_ ->]]; nia.
Qed.

(** C5, as stated, fails on the code: with 1000 local pages and 100
    remote pages, local page 14 is sent as remote page 1, which maps back
    to local page 10. *)
Lemma C5_round_trip_four_pages_off :
  pageToSend false 14 1000 (Some 100) = 1 /\
  fst (mapRemotePage false 1 1000 (Some 100)) = 10 /\
  ~ (Z.abs (10 - 14) <= 1).
Proof. repeat split. vm_compute. intros H. apply H. reflexivity. Qed.

(** C5, amended.  For a local page [p] with [1 <= p <= localTotalPages]
    and a known [remoteTotalPages >= 1], mapping [p] to the remote scale
    and the result back to the local scale gives a page whose distance
    to [p] is at most [localTotalPages / (2 * remoteTotalPages) + 1/2];
    it is within one page of [p] whenever
    [localTotalPages < 3 * remoteTotalPages]. *)
Theorem C5_round_trip_bound :
  forall p localTotalPages remoteTotalPages : Z,
    1 <= p <= localTotalPages ->
    1 <= remoteTotalPages ->
    let remotePage := pageToSend false p localTotalPages (Some remoteTotalPages) in
    let back :=
      fst (mapRemotePage false remotePage localTotalPages (Some remoteTotalPages)) in
    2 * remoteTotalPages * Z.abs (back - p) <= localTotalPages + remoteTotalPages
    /\ (localTotalPages < 3 * remoteTotalPages -> Z.abs (back - p) <= 1).
Proof.
  intros p l r Hp Hr remotePage back.
  assert (Hdist : 2 * r * Z.abs (back - p) <= l + r).
  { subst back remotePage. unfold pageToSend, mapRemotePage, JsNum.keepTruthy, JsNum.truthy.
    cbn [negb].
    destruct (r =? 0) eqn:Hz; [apply Z.eqb_eq in Hz; lia|]. cbn [negb].
    destruct (r =? l) eqn:Hsame; cbn [fst].
    - rewrite Z.sub_diag. simpl. lia.
    - apply round_trip_distance; lia. }
  split; [exact Hdist|].
  intros Hclose. nia.
Qed.

(** Page 120 of 300 local pages, against 250 remote pages. *)
Lemma C5_round_trip_bound_witness :
  let remotePage := pageToSend false 120 300 (Some 250) in
  let back := fst (mapRemotePage false remotePage 300 (Some 250)) in
  2 * 250 * Z.abs (back - 120) <= 300 + 250
  /\ (300 < 3 * 250 -> Z.abs (back - 120) <= 1).
Proof.
  apply (C5_round_trip_bound 120 300 250); lia.
Defined.

(** ** Conflict dispatch *)

Lemma Qgt_bool_iff (a b : Q) : Qgt_bool a b = true <-> (b < a)%Q.
Proof.
  unfold Qgt_bool. rewrite negb_true_iff. split.
  - intros H. apply Qnot_le_lt. intros Hle.
    apply Qle_bool_iff in Hle. congruence.
  - intros H. destruct (Qle_bool a b) eqn:E; auto.
    apply Qle_bool_iff in E. exfalso. exact (Qlt_not_le _ _ H E).
Qed.

Lemma newer_iff (remoteTimestamp : option Z) (localTimestamp : Z) :
  newer remoteTimestamp localTimestamp = true
  <-> exists t, remoteTimestamp = Some t /\ localTimestamp < t.
Proof.
  unfold newer. destruct remoteTimestamp as [t|].
  - rewrite Z.ltb_lt. split.
    + intros H. exists t. auto.
    + intros [t' [Ht Hlt]]. inversion Ht. subst. assumption.
  - split; [discriminate|]. intros [t [Ht _]]. discriminate.
Qed.

(** Applying the remote page is the only branch that extends the list
    of applied pages. *)
Lemma act_applied strategy c remote fixedLayout page h :
  applied (act strategy c remote fixedLayout page h)
  = (applied h ++ [cmp_remotePage c])%list
  <-> resolve strategy (cmp_remoteIsNewer c) (percentageDiff c) = ApplyRemote.
Proof.
  unfold act.
  destruct (resolve strategy (cmp_remoteIsNewer c) (percentageDiff c)); simpl;
    split; intros H; try reflexivity; try discriminate;
    exfalso; symmetry in H; revert H; generalize (applied h); intros l H;
    apply (f_equal (@List.length Z)) in H; rewrite length_app in H; simpl in H; lia.
Qed.

(** Raising a conflict is the only branch that ends in the conflict
    state. *)
Lemma act_conflict strategy c remote fixedLayout page h :
  syncState (act strategy c remote fixedLayout page h) = SyncState.conflict
  <-> resolve strategy (cmp_remoteIsNewer c) (percentageDiff c) = RaiseConflict.
Proof.
  unfold act.
  destruct (resolve strategy (cmp_remoteIsNewer c) (percentageDiff c)); simpl;
    split; intros H; try reflexivity; discriminate.
Qed.

Lemma resolve_prompt newer diff :
  resolve Strategy.prompt newer diff
  = if Qgt_bool diff conflictThreshold then RaiseConflict else NoAction.
Proof. reflexivity. Qed.

Lemma resolve_silent newer diff :
  resolve Strategy.silent newer diff = if newer then ApplyRemote else NoAction.
Proof. destruct newer; reflexivity. Qed.

Lemma resolve_receive newer diff : resolve Strategy.receive newer diff = ApplyRemote.
Proof. reflexivity. Qed.

Lemma resolve_send newer diff : resolve Strategy.send newer diff = NoAction.
Proof. reflexivity. Qed.

Lemma compare_remoteIsNewer getTime reader config userBook remote page :
  cmp_remoteIsNewer (compare getTime reader config userBook remote page)
  = newer (getTime (rp_updated_at remote))
          match JsNum.keepTruthy (updatedAt config) with
          | Some t => t
          | None => bookUpdatedAt reader
          end.
Proof. unfold compare. destruct (mapRemotePage _ _ _ _). reflexivity. Qed.

(** When the book is linked, the strategy is not [send] and the service
    returns a user book whose active read has a non-zero page,
    [pullProgress] ends with the comparison of the two snapshots. *)
Lemma pullProgress_compares settings getTime matchBookHook reader h w id
  userBook remote page w' :
  enabled settings = true ->
  syncProgress settings = true ->
  isStrategy (strategy settings) Strategy.send = false ->
  keepTruthyString (hardcoverId (bookConfig h)) = Some id ->
  getUserBook settings id w = (Returned (Some userBook), w') ->
  ub_progress userBook = Some remote ->
  JsNum.keepTruthy (rp_page remote) = Some page ->
  pullProgress settings getTime matchBookHook (Some reader) h w
  = (Returned
       (compareProgress settings getTime reader (bookConfig h) userBook remote
          page
          (setConfig (pulledConfig (bookConfig h) userBook)
             (setSyncState SyncState.checking (setPulling true h)))),
     w').
Proof.
  intros He Hp Hs Hid Hub Hprogress Hpage.
  unfold pullProgress. rewrite He, Hp, Hs. cbn [negb orb].
  unfold tryCatch, bind, ensureMatched. cbn [bookConfig setPulling].
  rewrite Hid. cbn [ret]. cbn [setSyncState setPulling bookConfig].
  rewrite Hub, Hprogress, Hpage. reflexivity.
Qed.

(** What [pullProgress] does when the service returns no user book, no
    active read, or an active read at page 0: the comparison is skipped
    and the state is [synced]. *)
Lemma pullProgress_without_remote_page settings getTime matchBookHook reader h w
  id userBook w' :
  enabled settings = true ->
  syncProgress settings = true ->
  isStrategy (strategy settings) Strategy.send = false ->
  keepTruthyString (hardcoverId (bookConfig h)) = Some id ->
  getUserBook settings id w = (Returned userBook, w') ->
  match userBook with
  | Some ub =>
      match ub_progress ub with
      | Some remote => JsNum.keepTruthy (rp_page remote) = None
      | None => True
      end
  | None => True
  end ->
  pullProgress settings getTime matchBookHook (Some reader) h w
  = (Returned
       (setPulling false
          (setSyncState SyncState.synced
             match userBook with
             | Some ub =>
                 setConfig (pulledConfig (bookConfig h) ub)
                   (setSyncState SyncState.checking (setPulling true h))
             | None => setSyncState SyncState.checking (setPulling true h)
             end)),
     w').
Proof.
  intros He Hp Hs Hid Hub Hpage.
  unfold pullProgress. rewrite He, Hp, Hs. cbn [negb orb].
  unfold tryCatch, bind, ensureMatched. cbn [bookConfig setPulling].
  rewrite Hid. cbn [ret]. cbn [setSyncState setPulling bookConfig].
  rewrite Hub. destruct userBook as [ub|]; [|reflexivity].
  destruct (ub_progress ub) as [remote|]; [|reflexivity].
  rewrite Hpage. reflexivity.
Qed.

(** C6, as stated, fails on the code: a remote snapshot at page 0 counts
    as no remote progress.  With the local progress at page 150 of 300
    and the active read of the service at page 0, the pull applies
    nothing under [receive], and under [prompt] the two snapshots, 50%
    apart, raise no conflict. *)
Lemma C6_remote_page_zero_is_not_compared :
  (let '(outcome, w') :=
     pullProgress receiveSettings noTime noMatch (Some midBookReader) linkedHook
                  (freshWorld pageZeroService) in
   exists h',
     outcome = Returned h'
     /\ sent w' = [GET_USER_BOOK_QUERY (Some 42)]
     /\ applied h' = []
     /\ toasts h' = []
     /\ syncState h' = SyncState.synced)
  /\ (let '(outcome, w') :=
        pullProgress promptSettings noTime noMatch (Some midBookReader) linkedHook
                     (freshWorld pageZeroService) in
      exists h',
        outcome = Returned h'
        /\ syncState h' = SyncState.synced
        /\ conflictDetails h' = None)
  /\ (5 # 100 < Qabs ((0 # 300) - (150 # 300)))%Q.
Proof. vm_compute. repeat split; eexists; repeat split. Qed.

(** C6, amended.  [act] is what [pullProgress] does with the two
    snapshots once the service has returned an active read whose page is
    not 0; with no such read the comparison is skipped.  [diff] is the
    absolute value of the difference of the two percentages, each of them
    and their difference a double.  Under [prompt] the conflict record is
    stored and the state is [conflict] exactly when [diff > 0.05], and
    nothing else is changed then; this is so whenever the exact gap
    between the two percentages is at least the double that follows
    [0.05], and not so whenever it is at most 5/100.  Under [silent] the
    remote page is applied exactly when the remote time stamp is strictly
    greater than the local one; under [receive] it is always applied;
    under [send] [pullProgress] returns without any request and without
    touching the reader; under [send] and [receive] no conflict is
    raised.  Local page 15 of 20 against remote page 16 of 20 raises a
    conflict: the doubles 0.75 and 0.8 are more than 0.05 apart. *)
Theorem C6_conflict_dispatch :
  (forall c remote fixedLayout page h,
      let diff :=
        Qabs (Double.sub (cmp_remotePercentage c) (cmp_localPercentage c)) in
      let record :=
        mkConflict (cmp_localPercentage c) (cmp_localPage c)
                   (cmp_remotePercentage c) (cmp_remotePage c)
                   (rp_updated_at remote) fixedLayout (cmp_localTotalPages c)
                   page in
      let result := act Strategy.prompt c remote fixedLayout page h in
      percentageDiff c = diff
      /\ ((Double.round (5 # 100) < diff)%Q ->
          result = setSyncState SyncState.conflict
                     (setConflictDetails (Some record) h))
      /\ (~ (Double.round (5 # 100) < diff)%Q ->
          result = setPulling false (setSyncState SyncState.synced h))
      /\ (syncState result = SyncState.conflict
          <-> (Double.round (5 # 100) < diff)%Q)
      /\ applied result = applied h) /\
  (forall c,
      let gap := Qabs (cmp_remotePercentage c - cmp_localPercentage c) in
      ((gap <= 5 # 100)%Q ->
       ~ (Double.round (5 # 100) < percentageDiff c)%Q)
      /\ ((Double.round (5 # 100) + Double.pow2 (-56) <= gap)%Q ->
          (Double.round (5 # 100) < percentageDiff c)%Q)) /\
  (forall getTime reader config userBook remote page h,
      let c := compare getTime reader config userBook remote page in
      let localTimestamp :=
        match JsNum.keepTruthy (updatedAt config) with
        | Some t => t
        | None => bookUpdatedAt reader
        end in
      let remoteIsNewer :=
        exists t, getTime (rp_updated_at remote) = Some t /\ localTimestamp < t in
      let result := act Strategy.silent c remote (isFixedLayout reader) page h in
      (remoteIsNewer ->
       result = setSyncState SyncState.synced
                  (applyRemoteProgress (cmp_remotePage c) h))
      /\ (~ remoteIsNewer ->
          result = setPulling false (setSyncState SyncState.synced h))
      /\ (applied result = (applied h ++ [cmp_remotePage c])%list
          <-> remoteIsNewer)
      /\ conflictDetails result = conflictDetails h) /\
  (forall c remote fixedLayout page h,
      act Strategy.receive c remote fixedLayout page h
      = setSyncState SyncState.synced (applyRemoteProgress (cmp_remotePage c) h)
      /\ applied (act Strategy.receive c remote fixedLayout page h)
         = (applied h ++ [cmp_remotePage c])%list) /\
  (forall settings getTime matchBookHook reader h w,
      strategy settings = Strategy.send ->
      exists h',
        pullProgress settings getTime matchBookHook reader h w = (Returned h', w)
        /\ applied h' = applied h
        /\ conflictDetails h' = conflictDetails h
        /\ bookConfig h' = bookConfig h) /\
  (forall s c remote fixedLayout page h,
      s = Strategy.send \/ s = Strategy.receive ->
      syncState (act s c remote fixedLayout page h) <> SyncState.conflict
      /\ conflictDetails (act s c remote fixedLayout page h) = conflictDetails h) /\
  (forall settings getTime matchBookHook reader h w id userBook remote page w',
      enabled settings = true ->
      syncProgress settings = true ->
      isStrategy (strategy settings) Strategy.send = false ->
      keepTruthyString (hardcoverId (bookConfig h)) = Some id ->
      getUserBook settings id w = (Returned (Some userBook), w') ->
      ub_progress userBook = Some remote ->
      JsNum.keepTruthy (rp_page remote) = Some page ->
      pullProgress settings getTime matchBookHook (Some reader) h w
      = (Returned
           (act (strategy settings)
                (compare getTime reader (bookConfig h) userBook remote page)
                remote (isFixedLayout reader) page
                (setConfig (pulledConfig (bookConfig h) userBook)
                   (setSyncState SyncState.checking (setPulling true h)))),
         w')) /\
  (forall settings getTime matchBookHook reader h w id userBook w',
      enabled settings = true ->
      syncProgress settings = true ->
      isStrategy (strategy settings) Strategy.send = false ->
      keepTruthyString (hardcoverId (bookConfig h)) = Some id ->
      getUserBook settings id w = (Returned userBook, w') ->
      match userBook with
      | Some ub =>
          match ub_progress ub with
          | Some remote => JsNum.keepTruthy (rp_page remote) = None
          | None => True
          end
      | None => True
      end ->
      exists h',
        pullProgress settings getTime matchBookHook (Some reader) h w
        = (Returned h', w')
        /\ syncState h' = SyncState.synced
        /\ isPulling h' = false
        /\ applied h' = applied h
        /\ conflictDetails h' = conflictDetails h) /\
  (let c := compare noTime fifteenOfTwenty (bookConfig linkedHook)
                    sixteenOfTwenty sixteenOfTwentyProgress 16 in
   cmp_localPercentage c = (3 # 4)%Q
   /\ cmp_remotePercentage c = Double.div 16 20
   /\ (inject_Z 16 / inject_Z 20 - inject_Z 15 / inject_Z 20 == 5 # 100)%Q
   /\ (Double.round (5 # 100) < percentageDiff c)%Q
   /\ syncState (act Strategy.prompt c sixteenOfTwentyProgress false 16 linkedHook)
      = SyncState.conflict).
Proof.
  split; [|split; [|split; [|split; [|split; [|split; [|split; [|split]]]]]]].
  - intros c remote fixedLayout page h diff record result.
    subst result. unfold act. rewrite resolve_prompt.
    change (percentageDiff c) with diff.
    change conflictThreshold with (Double.round (5 # 100)).
    split; [reflexivity|].
    destruct (Qgt_bool diff (Double.round (5 # 100))) eqn:E.
    + apply Qgt_bool_iff in E. repeat split; auto.
      intros Hn. contradiction.
    + assert (Hn : ~ (Double.round (5 # 100) < diff)%Q).
      { intros H. apply Qgt_bool_iff in H. congruence. }
      repeat split; auto.
      * intros H. contradiction.
      * intros H. discriminate.
      * intros H. contradiction.
  - intros c gap. unfold percentageDiff, Double.sub.
    pose proof (round_abs (cmp_remotePercentage c - cmp_localPercentage c)) as Habs.
    fold gap in Habs. split.
    + intros Hgap Hlt. rewrite Habs in Hlt.
      assert (Hle : (Double.round gap <= Double.round (5 # 100))%Q)
        by (apply round_le; exact Hgap).
      exact (Qlt_not_le _ _ Hlt Hle).
    + intros Hgap. rewrite Habs.
      eapply Qlt_le_trans; [|apply round_le; exact Hgap].
      vm_compute. reflexivity.
  - intros getTime reader config userBook remote page h c localTimestamp
           remoteIsNewer result.
    subst result. unfold act. rewrite resolve_silent. subst c.
    rewrite compare_remoteIsNewer. fold localTimestamp.
    pose proof (newer_iff (getTime (rp_updated_at remote)) localTimestamp) as Hiff.
    fold remoteIsNewer in Hiff.
    destruct (newer (getTime (rp_updated_at remote)) localTimestamp).
    + assert (Hnewer : remoteIsNewer) by (apply Hiff; reflexivity).
      repeat split; auto. intros Hn. contradiction.
    + assert (Hn : ~ remoteIsNewer) by (intros H; apply Hiff in H; discriminate).
      repeat split; auto.
      * intros H. contradiction.
      * cbn. intros H. exfalso.
        apply (f_equal (@List.length Z)) in H. rewrite length_app in H.
        cbn in H. lia.
      * intros H. contradiction.
  - intros c remote fixedLayout page h. unfold act. rewrite resolve_receive.
    split; reflexivity.
  - intros settings getTime matchBookHook reader h w Hsend.
    unfold pullProgress. destruct reader as [reader|]; [|eexists; repeat split].
    destruct (negb (enabled settings) || negb (syncProgress settings))%bool;
      [eexists; repeat split|].
    rewrite Hsend. cbn. eexists. repeat split.
  - intros s c remote fixedLayout page h Hs. split.
    + intros Hc. apply act_conflict in Hc.
      destruct Hs as [-> | ->];
        [rewrite resolve_send in Hc | rewrite resolve_receive in Hc]; discriminate.
    + unfold act.
      destruct Hs as [-> | ->];
        [rewrite resolve_send | rewrite resolve_receive]; reflexivity.
  - exact pullProgress_compares.
  - intros settings getTime matchBookHook reader h w id userBook w'
           He Hp Hs Hid Hub Hpage.
    rewrite (pullProgress_without_remote_page settings getTime matchBookHook
               reader h w id userBook w' He Hp Hs Hid Hub Hpage).
    eexists. split; [reflexivity|].
    destruct userBook as [ub|]; repeat split.
  - vm_compute. repeat split; discriminate.
Qed.

(** A pull under [send], and the dispatch under [receive]. *)
Lemma C6_conflict_dispatch_witness :
  (exists h',
      pullProgress sendSettings noTime noMatch (Some exampleReader) linkedHook
                   invalidLinkWorld = (Returned h', invalidLinkWorld)
      /\ applied h' = applied linkedHook
      /\ conflictDetails h' = conflictDetails linkedHook
      /\ bookConfig h' = bookConfig linkedHook)
  /\ (syncState (act Strategy.receive exampleComparison exampleRemote false 150
                     linkedHook) <> SyncState.conflict
      /\ conflictDetails (act Strategy.receive exampleComparison exampleRemote
                              false 150 linkedHook)
         = conflictDetails linkedHook).
Proof.
  destruct C6_conflict_dispatch as (_ & _ & _ & _ & Hsend & Hnone & _).
  split.
  - apply Hsend. reflexivity.
  - apply Hnone. right. reflexivity.
Defined.

(** ** The request wrapper and the progress update *)

Ltac case_split :=
  repeat match goal with
    | |- context [match ?x with _ => _ end] => destruct x eqn:?
    | |- context [if ?x then _ else _] => destruct x eqn:?
    end.

Lemma interpretReply_sent r w : sent (snd (interpretReply r w)) = sent w.
Proof.
  destruct r as [e|status json]; cbn; [reflexivity|].
  destruct ((200 <=? status) && (status <=? 299))%bool; [|reflexivity].
  destruct json as [e|firstMessage|data]; reflexivity.
Qed.

Lemma rethrow_sent e w : sent (snd (rethrow e w)) = sent w.
Proof.
  destruct e as [message|]; cbn; [|reflexivity].
  destruct (Js.startsWith message "HARDCOVER_"); [reflexivity|].
  destruct (Js.includes message "fetch" || Js.includes message "network")%bool;
    reflexivity.
Qed.

(** A request adds at most itself to the requests that reached the
    service. *)
Lemma graphqlRequest_sent config request w :
  sent (snd (graphqlRequest config request w)) = sent w
  \/ sent (snd (graphqlRequest config request w)) = (sent w ++ [request])%list.
Proof.
  unfold graphqlRequest.
  destruct (canMakeRequest (clock w) (breaker w)) as [admission cb].
  destruct admission; [|left; reflexivity].
  destruct (Js.isBlank (apiToken config)); [left; reflexivity|].
  right.
  unfold bind at 1. unfold awaitRateLimit, modify.
  destruct (checkRateLimit config _ _) as [wait stamps].
  unfold tryCatch, bind, fetchFn.
  match goal with
  | |- context [interpretReply ?r ?w0] =>
      pose proof (interpretReply_sent r w0) as Hi;
      destruct (interpretReply r w0) as [[data|e] w1]
  end; cbn in Hi |- *.
  - exact Hi.
  - rewrite rethrow_sent. exact Hi.
Qed.

Lemma updateExistingRead_world config page readId editionId startedAt keepalive w :
  snd (updateExistingRead config page readId editionId startedAt keepalive w)
  = snd (graphqlRequest config
           (updateVariables page readId editionId startedAt keepalive) w).
Proof.
  unfold updateExistingRead, bind.
  destruct (graphqlRequest config _ w) as [[result|e] w1]; [|reflexivity].
  destruct result as [d|]; cbn; [|reflexivity].
  case_split; reflexivity.
Qed.

Lemma createNewRead_world config isoDate userBookId page editionId startedAt
  keepalive w :
  snd (createNewRead config isoDate userBookId page editionId startedAt keepalive w)
  = snd (graphqlRequest config
           (createVariables userBookId page editionId startedAt keepalive
              (isoDate (clock w))) w).
Proof.
  unfold createNewRead, bind.
  destruct (graphqlRequest config _ w) as [[result|e] w1]; [|reflexivity].
  destruct result as [d|]; cbn; [|reflexivity].
  case_split; reflexivity.
Qed.

(** What the update branch hands back when it does not throw. *)
Lemma updateExistingRead_returns config page readId editionId startedAt keepalive
  w step w' :
  updateExistingRead config page readId editionId startedAt keepalive w
  = (Returned step, w') ->
  step = CreateInstead \/ step = Done failed
  \/ exists read, step = Done (succeeded read).
Proof.
  unfold updateExistingRead, bind.
  destruct (graphqlRequest config _ w) as [[result|e] w1]; [|discriminate].
  destruct result as [d|]; cbn; [|discriminate].
  case_split; intros H; inversion H; subst; eauto.
Qed.

(** What the create branch returns when it does not throw. *)
Lemma createNewRead_returns config isoDate userBookId page editionId startedAt
  keepalive w result w' :
  createNewRead config isoDate userBookId page editionId startedAt keepalive w
  = (Returned result, w') ->
  result = failed \/ exists read, result = succeeded read.
Proof.
  unfold createNewRead, bind.
  destruct (graphqlRequest config _ w) as [[data|e] w1]; [|discriminate].
  destruct data as [d|]; cbn; [|discriminate].
  case_split; intros H; inversion H; subst; eauto.
Qed.

(** The create branch under the [catch] block of [updateProgress]: it
    always returns, with a failure when the branch throws, and sends at
    most the create mutation. *)
Lemma create_branch_returns config isoDate userBookId page editionId startedAt
  keepalive w :
  exists result w',
    tryCatch
      (createNewRead config isoDate userBookId page editionId startedAt keepalive)
      (fun _ => ret failed) w = (Returned result, w')
    /\ (result = failed \/ exists read, result = succeeded read)
    /\ (sent w' = sent w
        \/ sent w' = (sent w ++ [createVariables userBookId page editionId
                                   startedAt keepalive (isoDate (clock w))])%list)
    /\ (forall e w1,
           createNewRead config isoDate userBookId page editionId startedAt
                         keepalive w = (Threw e, w1) ->
           result = failed /\ w' = w1).
Proof.
  pose proof (createNewRead_world config isoDate userBookId page editionId
                startedAt keepalive w) as Hw.
  pose proof (graphqlRequest_sent config
                (createVariables userBookId page editionId startedAt keepalive
                   (isoDate (clock w))) w) as Hs.
  rewrite <- Hw in Hs. unfold tryCatch.
  destruct (createNewRead config isoDate userBookId page editionId startedAt
              keepalive w) as [[result|e] w1] eqn:E; cbn [snd] in Hs.
  - exists result, w1. repeat split; auto.
    + eapply createNewRead_returns; eassumption.
    + discriminate.
    + discriminate.
  - exists failed, w1. repeat split; auto.
    inversion H; reflexivity.
Qed.

(** [updateProgress] always returns a result object, built from a read
    row of the service or [{ success: false }], after at most two
    requests. *)
Lemma updateProgress_result :
  forall config isoDate userBookId page percentage readId editionId startedAt
         keepalive w,
  exists result w' issued,
    updateProgress config isoDate userBookId page percentage readId editionId
                   startedAt keepalive w = (Returned result, w')
    /\ (result = failed \/ exists read, result = succeeded read)
    /\ sent w' = (sent w ++ issued)%list
    /\ (List.length issued <= 2)%nat
    /\ (List.length (filter isCreate issued) <= 1)%nat
    /\ (JsNum.truthy readId = false ->
        (List.length issued <= 1)%nat /\ filter isUpdate issued = []
        /\ forall e w1,
             createNewRead config isoDate userBookId page editionId startedAt
                           keepalive w = (Threw e, w1) ->
             result = failed /\ w' = w1).
Proof.
  intros config isoDate userBookId page percentage readId editionId startedAt
         keepalive w.
  assert (Hcreate : forall w0,
    exists result w' issued,
      tryCatch
        (createNewRead config isoDate userBookId page editionId startedAt keepalive)
        (fun _ => ret failed) w0 = (Returned result, w')
      /\ (result = failed \/ exists read, result = succeeded read)
      /\ sent w' = (sent w0 ++ issued)%list
      /\ (List.length issued <= 1)%nat
      /\ (List.length (filter isCreate issued) <= 1)%nat
      /\ filter isUpdate issued = []
      /\ forall e w1,
           createNewRead config isoDate userBookId page editionId startedAt
                         keepalive w0 = (Threw e, w1) ->
           result = failed /\ w' = w1).
  { intros w0.
    destruct (create_branch_returns config isoDate userBookId page editionId
                startedAt keepalive w0) as (result & w' & Hrun & Hres & Hsent & Hthrow).
    destruct Hsent as [Hsent|Hsent].
    - exists result, w', []. rewrite app_nil_r. cbn. repeat split; auto.
      all: apply (Hthrow _ _ H).
    - exists result, w', [createVariables userBookId page editionId startedAt
                            keepalive (isoDate (clock w0))].
      cbn. repeat split; auto. all: apply (Hthrow _ _ H). }
  destruct readId as [id|]; simp updateProgress.
  - destruct (id =? 0) eqn:Hid.
    + destruct (Hcreate w) as (result & w' & issued & Hrun & Hres & Hsent & Hlen
                              & Hc & Hu & Hthrow).
      exists result, w', issued. repeat split; auto. all: apply (Hthrow _ _ H0).
    + unfold bind, tryCatch.
      pose proof (updateExistingRead_world config page id editionId startedAt
                    keepalive w) as Hw.
      pose proof (graphqlRequest_sent config
                    (updateVariables page id editionId startedAt keepalive) w) as Hs.
      rewrite <- Hw in Hs.
      destruct (updateExistingRead config page id editionId startedAt keepalive w)
        as [[step|e] w1] eqn:E; cbn [snd] in Hs.
      * destruct (updateExistingRead_returns _ _ _ _ _ _ _ _ _ E)
          as [-> | [-> | [read ->]]].
        -- destruct (Hcreate w1) as (result & w' & issued & Hrun & Hres & Hsent
                                    & Hlen & Hc & Hu & Hthrow).
           destruct Hs as [Hs|Hs].
           ++ exists result, w', issued. rewrite Hsent, Hs.
              repeat split; auto; try lia; cbn in H; rewrite Hid in H; discriminate.
           ++ exists result, w',
                (updateVariables page id editionId startedAt keepalive :: issued).
              rewrite Hsent, Hs, <- app_assoc. cbn.
              repeat split; auto; try lia;
                cbn in H; rewrite Hid in H; discriminate.
        -- destruct Hs as [Hs|Hs].
           ++ exists failed, w1, []. rewrite app_nil_r. cbn.
              repeat split; auto; cbn in H; rewrite Hid in H; discriminate.
           ++ exists failed, w1,
                [updateVariables page id editionId startedAt keepalive].
              cbn. repeat split; auto; cbn in H; rewrite Hid in H; discriminate.
        -- destruct Hs as [Hs|Hs].
           ++ exists (succeeded read), w1, []. rewrite app_nil_r. cbn.
              repeat split; eauto; cbn in H; rewrite Hid in H; discriminate.
           ++ exists (succeeded read), w1,
                [updateVariables page id editionId startedAt keepalive].
              cbn. repeat split; eauto; cbn in H; rewrite Hid in H; discriminate.
      * destruct Hs as [Hs|Hs].
        -- exists failed, w1, []. rewrite app_nil_r. cbn.
           repeat split; auto; cbn in H; rewrite Hid in H; discriminate.
        -- exists failed, w1,
             [updateVariables page id editionId startedAt keepalive].
           cbn. repeat split; auto; cbn in H; rewrite Hid in H; discriminate.
  - destruct (Hcreate w) as (result & w' & issued & Hrun & Hres & Hsent & Hlen
                            & Hc & Hu & Hthrow).
    exists result, w', issued. repeat split; auto. all: apply (Hthrow _ _ H0).
Qed.

(** Without a read id (or with the falsy id 0), [updateProgress] is the
    create branch under the [catch] block. *)
Lemma updateProgress_without_read config isoDate userBookId page percentage
  readId editionId startedAt keepalive w :
  JsNum.truthy readId = false ->
  updateProgress config isoDate userBookId page percentage readId editionId
                 startedAt keepalive w
  = tryCatch
      (createNewRead config isoDate userBookId page editionId startedAt keepalive)
      (fun _ => ret failed) w.
Proof.
  intros Hfalsy. destruct readId as [id|]; simp updateProgress; try reflexivity.
  cbn in Hfalsy. destruct (id =? 0); [reflexivity|discriminate].
Qed.

(** The result of the create branch, by the outcome of its request. *)
Lemma create_branch_outcome config isoDate userBookId page percentage readId
  editionId startedAt keepalive w :
  JsNum.truthy readId = false ->
  match graphqlRequest config
          (createVariables userBookId page editionId startedAt keepalive
             (isoDate (clock w))) w with
  | (Threw _, w1) =>
      updateProgress config isoDate userBookId page percentage readId editionId
                     startedAt keepalive w = (Returned failed, w1)
  | (Returned None, w1) =>
      updateProgress config isoDate userBookId page percentage readId editionId
                     startedAt keepalive w = (Returned failed, w1)
  | (Returned (Some data), w1) =>
      updateProgress config isoDate userBookId page percentage readId editionId
                     startedAt keepalive w
      = (Returned
           match insert_user_book_read data with
           | None => failed
           | Some mutation =>
               if truthyString (mutation_error mutation) then failed
               else match user_book_read mutation with
                    | Some read => succeeded read
                    | None => failed
                    end
           end, w1)
  end.
Proof.
  intros Hfalsy.
  rewrite (updateProgress_without_read _ _ _ _ _ _ _ _ _ _ Hfalsy).
  unfold tryCatch, createNewRead, bind.
  destruct (graphqlRequest config _ w) as [[[data|]|e] w1]; cbn;
    try reflexivity.
  destruct (insert_user_book_read data) as [mutation|]; cbn; [|reflexivity].
  unfold keepTruthyString.
  destruct (truthyString (mutation_error mutation)) eqn:Herror.
  - destruct (mutation_error mutation) as [error|]; [|discriminate].
    destruct (Js.includes error "Couldn't find UserBook"); reflexivity.
  - destruct (user_book_read mutation); reflexivity.
Qed.

(** What the update branch hands back, by the outcome of its request. *)
Lemma updateExistingRead_outcome config page id editionId startedAt keepalive w :
  match graphqlRequest config
          (updateVariables page id editionId startedAt keepalive) w with
  | (Threw e, w1) =>
      updateExistingRead config page id editionId startedAt keepalive w
      = (Threw e, w1)
  | (Returned None, w1) =>
      updateExistingRead config page id editionId startedAt keepalive w
      = (Threw (JsError "Cannot read properties of undefined"), w1)
  | (Returned (Some data), w1) =>
      updateExistingRead config page id editionId startedAt keepalive w
      = (Returned
           match update_user_book_read data with
           | None => Done failed
           | Some mutation =>
               if truthyString (mutation_error mutation) then CreateInstead
               else match user_book_read mutation with
                    | None => Done failed
                    | Some read =>
                        match progress_pages read with
                        | None => CreateInstead
                        | Some _ => Done (succeeded read)
                        end
                    end
           end, w1)
  end.
Proof.
  unfold updateExistingRead, bind.
  destruct (graphqlRequest config _ w) as [[[data|]|e] w1]; cbn;
    try reflexivity.
  destruct (update_user_book_read data) as [mutation|]; cbn; [|reflexivity].
  destruct (truthyString (mutation_error mutation)); cbn; [reflexivity|].
  destruct (user_book_read mutation) as [read|]; cbn; [|reflexivity].
  destruct (progress_pages read); reflexivity.
Qed.

(** The result of the update branch, by the outcome of its request. *)
Lemma update_branch_outcome config isoDate userBookId page percentage id
  editionId startedAt keepalive w :
  id <> 0 ->
  let fallback w1 :=
    updateProgress config isoDate userBookId page percentage None editionId
                   startedAt keepalive w1 in
  match graphqlRequest config
          (updateVariables page id editionId startedAt keepalive) w with
  | (Threw _, w1) =>
      updateProgress config isoDate userBookId page percentage (Some id)
                     editionId startedAt keepalive w = (Returned failed, w1)
  | (Returned None, w1) =>
      updateProgress config isoDate userBookId page percentage (Some id)
                     editionId startedAt keepalive w = (Returned failed, w1)
  | (Returned (Some data), w1) =>
      updateProgress config isoDate userBookId page percentage (Some id)
                     editionId startedAt keepalive w
      = match update_user_book_read data with
        | None => (Returned failed, w1)
        | Some mutation =>
            if truthyString (mutation_error mutation) then fallback w1
            else match user_book_read mutation with
                 | None => (Returned failed, w1)
                 | Some read =>
                     match progress_pages read with
                     | None => fallback w1
                     | Some _ => (Returned (succeeded read), w1)
                     end
                 end
        end
  end.
Proof.
  intros Hid fallback. apply Z.eqb_neq in Hid.
  set (create := tryCatch
                   (createNewRead config isoDate userBookId page editionId
                      startedAt keepalive) (fun _ => ret failed)).
  assert (Hfallback : forall w1, fallback w1 = create w1)
    by (intros w1; subst fallback; simp updateProgress; reflexivity).
  assert (Hrun :
    updateProgress config isoDate userBookId page percentage (Some id)
                   editionId startedAt keepalive w
    = bind (tryCatch
              (updateExistingRead config page id editionId startedAt keepalive)
              (fun _ => ret (Done failed)))
           (fun step => match step with
                        | Done result => ret result
                        | CreateInstead => create
                        end) w)
    by (simp updateProgress; rewrite Hid; reflexivity).
  clearbody fallback create.
  pose proof (updateExistingRead_outcome config page id editionId startedAt
                keepalive w) as Hupdate.
  destruct (graphqlRequest config _ w) as [[[data|]|e] w1];
    rewrite Hrun; unfold bind, tryCatch; rewrite Hupdate; cbn [ret];
    try reflexivity.
  destruct (update_user_book_read data) as [mutation|]; [|reflexivity].
  destruct (truthyString (mutation_error mutation));
    [symmetry; apply Hfallback|].
  destruct (user_book_read mutation) as [read|]; [|reflexivity].
  destruct (progress_pages read); [reflexivity|].
  symmetry. apply Hfallback.
Qed.

(** C10.  [updateProgress] always returns a result object and never
    throws, whatever the arguments and whatever the requests do; the
    object is [{ success: false }] unless it is built from a read row
    returned by the service; it sends at most two requests, of which at
    most one creates a read, and when called without a read id it sends
    at most one request and no update.  Path by path: without a read id
    the result is [{ success: false }] when the create request throws
    (rejected by the breaker included), when its reply has no data, no
    mutation object or no read row, and when the mutation reports an
    error (the invalid-user-book error included), and it is built from
    the read row otherwise; with a read id the result is
    [{ success: false }] when the update request throws, when its reply
    has no data, no mutation object or no read row, it is built from the
    read row when that row has a progress, and it is the result of one
    call without read id when the mutation reports an error or the row
    has a null progress. *)
Theorem C10_updateProgress_never_throws :
  (forall config isoDate userBookId page percentage readId editionId startedAt
          keepalive w,
   exists result w' issued,
     updateProgress config isoDate userBookId page percentage readId editionId
                    startedAt keepalive w = (Returned result, w')
     /\ (result = failed \/ exists read, result = succeeded read)
     /\ sent w' = (sent w ++ issued)%list
     /\ (List.length issued <= 2)%nat
     /\ (List.length (filter isCreate issued) <= 1)%nat
     /\ (JsNum.truthy readId = false ->
         (List.length issued <= 1)%nat /\ filter isUpdate issued = []
         /\ forall e w1,
              createNewRead config isoDate userBookId page editionId startedAt
                            keepalive w = (Threw e, w1) ->
              result = failed /\ w' = w1))
  /\ (forall config isoDate userBookId page percentage readId editionId
             startedAt keepalive w,
      JsNum.truthy readId = false ->
      match graphqlRequest config
              (createVariables userBookId page editionId startedAt keepalive
                 (isoDate (clock w))) w with
      | (Threw _, w1) =>
          updateProgress config isoDate userBookId page percentage readId
                         editionId startedAt keepalive w = (Returned failed, w1)
      | (Returned None, w1) =>
          updateProgress config isoDate userBookId page percentage readId
                         editionId startedAt keepalive w = (Returned failed, w1)
      | (Returned (Some data), w1) =>
          updateProgress config isoDate userBookId page percentage readId
                         editionId startedAt keepalive w
          = (Returned
               match insert_user_book_read data with
               | None => failed
               | Some mutation =>
                   if truthyString (mutation_error mutation) then failed
                   else match user_book_read mutation with
                        | Some read => succeeded read
                        | None => failed
                        end
               end, w1)
      end)
  /\ (forall config isoDate userBookId page percentage id editionId startedAt
             keepalive w,
      id <> 0 ->
      let fallback w1 :=
        updateProgress config isoDate userBookId page percentage None editionId
                       startedAt keepalive w1 in
      match graphqlRequest config
              (updateVariables page id editionId startedAt keepalive) w with
      | (Threw _, w1) =>
          updateProgress config isoDate userBookId page percentage (Some id)
                         editionId startedAt keepalive w = (Returned failed, w1)
      | (Returned None, w1) =>
          updateProgress config isoDate userBookId page percentage (Some id)
                         editionId startedAt keepalive w = (Returned failed, w1)
      | (Returned (Some data), w1) =>
          updateProgress config isoDate userBookId page percentage (Some id)
                         editionId startedAt keepalive w
          = match update_user_book_read data with
            | None => (Returned failed, w1)
            | Some mutation =>
                if truthyString (mutation_error mutation) then fallback w1
                else match user_book_read mutation with
                     | None => (Returned failed, w1)
                     | Some read =>
                         match progress_pages read with
                         | None => fallback w1
                         | Some _ => (Returned (succeeded read), w1)
                         end
                     end
            end
      end)
  /\ success failed = false
  /\ (forall read, success (succeeded read) = true).
Proof.
  split; [exact updateProgress_result|].
  split; [exact create_branch_outcome|].
  split; [exact update_branch_outcome|].
  split; reflexivity.
Qed.

(** A push without read id, answered with the invalid-link error. *)
Lemma C10_updateProgress_never_throws_witness :
  exists result w' issued,
    updateProgress exampleSettings exampleDate "42" 14 (14 # 300) None None None
                   false invalidLinkWorld = (Returned result, w')
    /\ (result = failed \/ exists read, result = succeeded read)
    /\ sent w' = (sent invalidLinkWorld ++ issued)%list
    /\ (List.length issued <= 2)%nat
    /\ (List.length (filter isCreate issued) <= 1)%nat
    /\ (JsNum.truthy None = false ->
        (List.length issued <= 1)%nat /\ filter isUpdate issued = []
        /\ forall e w1,
             createNewRead exampleSettings exampleDate "42" 14 None None false
                           invalidLinkWorld = (Threw e, w1) ->
             result = failed /\ w' = w1).
Proof.
  exact (proj1 C10_updateProgress_never_throws exampleSettings exampleDate
           "42"%string 14%Q (14 # 300)%Q None None None false invalidLinkWorld).
Defined.

(** ** The push and the invalid link *)

Lemma tryCatch_returns {A} (m : M A) (a : A) w :
  exists r w', tryCatch m (fun _ => ret a) w = (Returned r, w').
Proof.
  unfold tryCatch, ret. destruct (m w) as [[r|e] w']; eexists; eexists; reflexivity.
Qed.

Lemma updateProgress_returns config isoDate userBookId page percentage readId
  editionId startedAt keepalive w :
  exists result w',
    updateProgress config isoDate userBookId page percentage readId editionId
                   startedAt keepalive w = (Returned result, w').
Proof.
  destruct readId as [id|]; simp updateProgress; [|apply tryCatch_returns].
  destruct (id =? 0); [apply tryCatch_returns|].
  unfold bind.
  destruct (tryCatch_returns
              (updateExistingRead config page id editionId startedAt keepalive)
              (Done failed) w) as (step & w1 & Hstep).
  rewrite Hstep. destruct step as [result|].
  - unfold ret. eexists; eexists; reflexivity.
  - simp updateProgress. apply tryCatch_returns.
Qed.

(** Whatever the service does, the [try]/[catch] statement of the push
    ends without clearing the link and without asking for a new match:
    [updateProgress] never throws, so the handler of
    [HARDCOVER_INVALID_USER_BOOK] does not run. *)
Lemma sendProgress_keeps_link settings isoDate linkId page percentage
  currentConfig h w :
  exists h' w',
    sendProgress settings isoDate linkId page percentage currentConfig h w
    = (Returned h', w')
    /\ needsMatching h' = needsMatching h
    /\ (hardcoverId (bookConfig h') = hardcoverId (bookConfig h)
        \/ hardcoverId (bookConfig h') = hardcoverId currentConfig).
Proof.
  unfold sendProgress, tryCatch, bind.
  destruct (updateProgress_returns settings isoDate linkId (inject_Z page)
              percentage (hardcoverReadId currentConfig)
              (hardcoverEditionId currentConfig) (hardcoverStartedAt currentConfig)
              (isSession (syncFrequency settings)) w) as (result & w1 & Hrun).
  rewrite Hrun. unfold onPushResult, notifyFailure.
  destruct (success result).
  - destruct (checkAndClearRecoveryFlag (breaker w1)) as [[|] cb];
      eexists; eexists; (split; [reflexivity|]); cbn; auto.
  - destruct (failureCount (breaker w1) =? 1);
      [eexists; eexists; (split; [reflexivity|]); cbn; auto|].
    destruct ((failureCount (breaker w1) =? 3) && isOpen (state (breaker w1))
              && negb (hasNotifiedDisconnect (breaker w1)))%bool;
      eexists; eexists; (split; [reflexivity|]); cbn; auto.
Qed.

(** C9 fails on the code.  The book is linked to user book 42 and has no
    read session; the push sends the create mutation, and the service
    answers that it could not find the user book.  [updateProgress]
    throws [HARDCOVER_INVALID_USER_BOOK] inside its own [try] block and
    its [catch] block returns [{ success: false }]; the hook takes the
    failure branch: the link is kept, no re-matching is requested and,
    the request having been recorded as a success, no toast is shown. *)
Theorem C9_invalid_link_is_kept :
  createNewRead exampleSettings exampleDate "42" 14 None None false
                invalidLinkWorld
  = (Threw (JsError "HARDCOVER_INVALID_USER_BOOK"),
     snd (createNewRead exampleSettings exampleDate "42" 14 None None false
                        invalidLinkWorld))
  /\ fst (updateProgress exampleSettings exampleDate "42" 14 (14 # 300) None None
                         None false invalidLinkWorld) = Returned failed
  /\ let '(outcome, w') :=
       pushProgressInternal exampleSettings exampleDate noMatch
                            (Some exampleReader) linkedHook invalidLinkWorld in
     outcome = Returned (setSyncState SyncState.error linkedHook)
     /\ sent w' = [CREATE_READ_MUTATION (Some 42) 14 "2026-01-01" None false]
     /\ failureCount (breaker w') = 0.
Proof. vm_compute. repeat split. Qed.

(** ** Duplicate-read clean-up *)

(** In a healthy world a request reaches the service, returns its data
    and leaves the world healthy. *)
Lemma graphqlRequest_healthy config request w delay data :
  Js.isBlank (apiToken config) = false ->
  healthy w ->
  remote w (List.length (sent w)) = mkExchange delay (Response 200 (JsonData data)) ->
  exists w',
    graphqlRequest config request w = (Returned data, w')
    /\ sent w' = (sent w ++ [request])%list
    /\ remote w' = remote w
    /\ healthy w'.
Proof.
  intros Htoken [Hclosed Hserved] Hreply.
  unfold graphqlRequest, canMakeRequest. rewrite Hclosed, Htoken.
  unfold bind at 1. unfold awaitRateLimit, modify. cbn.
  destruct (checkRateLimit config (clock w) (requestTimestamps w)) as [wait stamps].
  unfold tryCatch, bind, fetchFn. cbn. rewrite Hreply. cbn.
  eexists. split; [reflexivity|]. unfold healthy, withBreaker. cbn.
  repeat split.
  - unfold recordSuccess. rewrite Hclosed. reflexivity.
  - intros n Hn. apply Hserved. rewrite length_app in Hn. cbn in Hn. lia.
Qed.

Lemma deleteRead_healthy config readId w :
  Js.isBlank (apiToken config) = false ->
  healthy w ->
  exists w',
    deleteRead config readId w = (Returned true, w')
    /\ sent w' = (sent w ++ [DELETE_READ_MUTATION readId])%list
    /\ remote w' = remote w
    /\ healthy w'.
Proof.
  intros Htoken Hw.
  destruct (proj2 Hw (List.length (sent w)) (Nat.le_refl _)) as (delay & data & Hr).
  destruct (graphqlRequest_healthy config (DELETE_READ_MUTATION readId) w delay
              data Htoken Hw Hr) as (w' & Hrun & Hsent & Hremote & Hw').
  exists w'. unfold deleteRead, tryCatch, bind. rewrite Hrun. cbn. auto.
Qed.

(** With every deletion accepted, the loop deletes exactly the reads
    whose id differs from the kept one, in order, and counts them. *)
Lemma deleteOthers_healthy config keptId reads : forall count w,
  Js.isBlank (apiToken config) = false ->
  healthy w ->
  exists w',
    deleteOthers config keptId reads count w
    = (Returned (count + Z.of_nat (List.length (otherReads keptId reads))), w')
    /\ sent w' = (sent w ++ map (fun read => DELETE_READ_MUTATION (read_id read))
                              (otherReads keptId reads))%list
    /\ healthy w'.
Proof.
  induction reads as [|read rest IH]; intros count w Htoken Hw.
  - exists w. cbn. rewrite Z.add_0_r, app_nil_r. auto.
  - cbn [deleteOthers otherReads filter].
    destruct (read_id read =? keptId) eqn:Hkept; cbn [negb].
    + apply IH; assumption.
    + destruct (deleteRead_healthy config (read_id read) w Htoken Hw)
        as (w1 & Hrun & Hsent & _ & Hw1).
      unfold bind. rewrite Hrun.
      destruct (IH (count + 1) w1 Htoken Hw1) as (w' & Hrest & Hsent' & Hw').
      exists w'. fold (otherReads keptId rest). split; [|split].
      * rewrite Hrest. f_equal. f_equal.
        change (List.length (read :: otherReads keptId rest))
          with (S (List.length (otherReads keptId rest))).
        rewrite Nat2Z.inj_succ. lia.
      * rewrite Hsent', Hsent, <- app_assoc. reflexivity.
      * exact Hw'.
Qed.

(** The read found by the first loop is one of the reads and no read
    has a higher progress. *)
Lemma bestReadFrom_highest reads : forall first,
  (bestReadFrom first reads = first \/ In (bestReadFrom first reads) reads)
  /\ progressOf first <= progressOf (bestReadFrom first reads)
  /\ forall read, In read reads ->
       progressOf read <= progressOf (bestReadFrom first reads).
Proof.
  unfold bestReadFrom.
  induction reads as [|read rest IH]; intros first; cbn [fold_left].
  - repeat split; auto; try lia. intros read [].
  - destruct (progressOf first <? progressOf read) eqn:Hlt.
    + apply Z.ltb_lt in Hlt.
      destruct (IH read) as (Hin & Hfirst & Hmax).
      repeat split.
      * right. destruct Hin as [-> | Hin]; [left; reflexivity | right; exact Hin].
      * lia.
      * intros r [<- | Hr]; auto.
    + apply Z.ltb_ge in Hlt.
      destruct (IH first) as (Hin & Hfirst & Hmax).
      repeat split.
      * destruct Hin as [-> | Hin]; [left; reflexivity | right; right; exact Hin].
      * exact Hfirst.
      * intros r [<- | Hr]; [lia | auto].
Qed.

(** When the ids are pairwise distinct, the reads other than a given
    one are all but one. *)
Lemma otherReads_length reads : forall bestRead,
  NoDup (map read_id reads) ->
  In bestRead reads ->
  List.length (otherReads (read_id bestRead) reads) = (List.length reads - 1)%nat.
Proof.
  induction reads as [|read rest IH]; intros bestRead Hnodup Hin; [destruct Hin|].
  cbn [map] in Hnodup. inversion Hnodup as [|? ? Hfresh Hrest]; subst.
  cbn [otherReads filter]. fold (otherReads (read_id bestRead) rest).
  destruct (read_id read =? read_id bestRead) eqn:Hsame; cbn [negb].
  - apply Z.eqb_eq in Hsame.
    assert (Hall : otherReads (read_id bestRead) rest = rest).
    { unfold otherReads. apply forallb_filter_id. apply forallb_forall.
      intros r Hr. apply negb_true_iff. apply Z.eqb_neq. intros Heq.
      apply Hfresh. rewrite Hsame, <- Heq. apply in_map. exact Hr. }
    rewrite Hall. cbn. lia.
  - destruct Hin as [-> | Hin]; [rewrite Z.eqb_refl in Hsame; discriminate|].
    cbn [List.length]. rewrite (IH bestRead Hrest Hin).
    destruct rest; [destruct Hin | cbn; lia].
Qed.

(** C8.  With at least two read sessions listed and every request
    accepted by the service, the clean-up keeps a session of highest
    progress and sends a deletion for every session with another id, in
    order; it reports the number of deletions and the id kept; with
    pairwise distinct ids every session but the kept one is deleted.  On
    the sessions 1 (40 pages), 2 (120 pages) and 3 (80 pages) it keeps
    session 2, deletes sessions 1 and 3 and returns [deleted = 2],
    [kept = 2]. *)
Theorem C8_cleanup_keeps_highest :
  (forall config userBookId w delay data row rows reads,
      Js.isBlank (apiToken config) = false ->
      healthy w ->
      remote w (List.length (sent w))
      = mkExchange delay (Response 200 (JsonData (Some data))) ->
      user_books data = Some (row :: rows) ->
      user_book_reads row = Some reads ->
      (2 <= List.length reads)%nat ->
      exists bestRead w',
        In bestRead reads
        /\ (forall read, In read reads -> progressOf read <= progressOf bestRead)
        /\ cleanupDuplicateReads config userBookId w
           = (Returned
                (mkCleanup
                   (Z.of_nat (List.length (otherReads (read_id bestRead) reads)))
                   (Some (read_id bestRead))),
              w')
        /\ sent w'
           = (sent w
              ++ GET_ALL_READS_QUERY (JsNum.parseInt userBookId)
                 :: map (fun read => DELETE_READ_MUTATION (read_id read))
                        (otherReads (read_id bestRead) reads))%list
        /\ (NoDup (map read_id reads) ->
            List.length (otherReads (read_id bestRead) reads)
            = (List.length reads - 1)%nat))
  /\ (let '(outcome, w') :=
        cleanupDuplicateReads exampleSettings "42" (freshWorld cleanupService) in
      outcome = Returned (mkCleanup 2 (Some 2))
      /\ sent w' = [GET_ALL_READS_QUERY (Some 42);
                    DELETE_READ_MUTATION 1; DELETE_READ_MUTATION 3]).
Proof.
  split; [|vm_compute; repeat split].
  intros config userBookId w delay data row rows reads Htoken Hw Hreply Hrows
         Hreads Hlen.
  destruct (graphqlRequest_healthy config
              (GET_ALL_READS_QUERY (JsNum.parseInt userBookId)) w delay (Some data)
              Htoken Hw Hreply) as (w1 & Hrun & Hsent & _ & Hw1).
  destruct reads as [|first [|second rest]]; cbn in Hlen; try lia.
  set (reads := first :: second :: rest) in *.
  set (bestRead := bestReadFrom first reads).
  destruct (deleteOthers_healthy config (read_id bestRead) reads 0 w1 Htoken Hw1)
    as (w' & Hdelete & Hsent' & _).
  destruct (bestReadFrom_highest reads first) as (Hin & _ & Hmax).
  fold bestRead in Hin, Hmax.
  assert (Hbest : In bestRead reads).
  { destruct Hin as [-> | Hin]; [left; reflexivity | exact Hin]. }
  exists bestRead, w'. repeat split; auto.
  - unfold cleanupDuplicateReads, tryCatch, bind, getAllReads, tryCatch, bind.
    rewrite Hrun. cbn [property ret]. rewrite Hrows, Hreads. subst reads.
    unfold ret. cbv beta iota. fold bestRead.
    rewrite Hdelete. reflexivity.
  - rewrite Hsent', Hsent, <- app_assoc. reflexivity.
  - intros Hnodup. apply otherReads_length; assumption.
Qed.

Lemma cleanupService_healthy : healthy (freshWorld cleanupService).
Proof.
  split; [reflexivity|].
  intros n _. destruct n; eexists; eexists; reflexivity.
Defined.

(** The three sessions of the example, listed and deleted by a service that
    accepts every request. *)
Lemma C8_cleanup_keeps_highest_witness :
  exists bestRead w',
    In bestRead threeReads
    /\ (forall read, In read threeReads -> progressOf read <= progressOf bestRead)
    /\ cleanupDuplicateReads exampleSettings "42" (freshWorld cleanupService)
       = (Returned
            (mkCleanup
               (Z.of_nat (List.length (otherReads (read_id bestRead) threeReads)))
               (Some (read_id bestRead))),
          w')
    /\ sent w'
       = (sent (freshWorld cleanupService)
          ++ GET_ALL_READS_QUERY (JsNum.parseInt "42")
             :: map (fun read => DELETE_READ_MUTATION (read_id read))
                    (otherReads (read_id bestRead) threeReads))%list
    /\ (NoDup (map read_id threeReads) ->
        List.length (otherReads (read_id bestRead) threeReads)
        = (List.length threeReads - 1)%nat).
Proof.
  apply (proj1 C8_cleanup_keeps_highest exampleSettings "42"%string
           (freshWorld cleanupService) 200
           (mkData None None
                   (Some [mkUserBookRow 42 None None None (Some threeReads)]) None)
           (mkUserBookRow 42 None None None (Some threeReads)) [] threeReads).
  - reflexivity.
  - exact cleanupService_healthy.
  - reflexivity.
  - reflexivity.
  - reflexivity.
  - simpl. lia.
Defined.

(** ** The edit distance computed by [levenshteinDistance] *)

Lemma get_set_same {A} (hole : A) arr : forall i v,
  JsArray.get hole (JsArray.set hole arr i v) i = v.
Proof.
  unfold JsArray.get.
  induction arr as [|x rest IH]; intros i v.
  - induction i as [|i IHi]; cbn; auto.
  - destruct i as [|i]; cbn; auto.
Qed.

Lemma get_set_other {A} (hole : A) arr : forall i j v,
  i <> j ->
  JsArray.get hole (JsArray.set hole arr i v) j = JsArray.get hole arr j.
Proof.
  unfold JsArray.get.
  induction arr as [|x rest IH]; intros i j v Hij.
  - revert j Hij. induction i as [|i IHi]; intros j Hij.
    + destruct j as [|j]; [congruence|]. cbn. destruct j; reflexivity.
    + destruct j as [|j]; cbn; [reflexivity|].
      rewrite IHi by congruence. destruct j; reflexivity.
  - destruct i as [|i], j as [|j]; cbn; try reflexivity; try congruence.
    apply IH. congruence.
Qed.

Lemma cell_setCell_same matrix i j v : cell (setCell matrix i j v) i j = v.
Proof. unfold cell, setCell. rewrite !get_set_same. reflexivity. Qed.

Lemma cell_setCell_other matrix i j v k c :
  (k, c) <> (i, j) -> cell (setCell matrix i j v) k c = cell matrix k c.
Proof.
  intros Hne. unfold cell, setCell.
  destruct (Nat.eq_dec i k) as [->|Hik].
  - rewrite get_set_same. apply get_set_other. congruence.
  - rewrite get_set_other by assumption. reflexivity.
Qed.

(** A loop over [start, start + 1, ..., start + len - 1] keeps an
    invariant indexed by the loop counter. *)
Lemma fold_left_seq_invariant {A} (P : nat -> A -> Prop) (f : A -> nat -> A) len :
  forall start a,
    P start a ->
    (forall k b, (start <= k < start + len)%nat -> P k b -> P (S k) (f b k)) ->
    P (start + len)%nat (fold_left f (seq start len) a).
Proof.
  induction len as [|len IH]; intros start a Hinit Hstep; cbn [seq fold_left].
  - rewrite Nat.add_0_r. exact Hinit.
  - rewrite <- Nat.add_succ_comm. apply IH.
    + apply Hstep; [lia | exact Hinit].
    + intros k b Hk. apply Hstep. lia.
Qed.

Lemma prefixDistance_row0 a b j : prefixDistance a b 0 j = Z.of_nat j.
Proof. destruct j; reflexivity. Qed.

Lemma prefixDistance_col0 a b i : prefixDistance a b i 0 = Z.of_nat i.
Proof. destruct i; reflexivity. Qed.

Lemma prefixDistance_step a b i j :
  prefixDistance a b (S i) (S j)
  = if sameChar a i b j then prefixDistance a b i j
    else 1 + Z.min (Z.min (prefixDistance a b i j) (prefixDistance a b (S i) j))
                   (prefixDistance a b i (S j)).
Proof. reflexivity. Qed.

Section LevenshteinMatrix.

Variables str1 str2 : string.

Let n1 := String.length str1.
Let n2 := String.length str2.
Let d (k c : nat) : Z := prefixDistance str2 str1 k c.

(** The cells that hold their final value when the inner loop is about
    to fill cell [(i, j)]: column 0, the rows above [i], and row [i] up
    to column [j - 1]. *)
Let Known (i j : nat) (matrix : Matrix) : Prop :=
  forall k c, (k <= n2)%nat -> (c <= n1)%nat ->
    (c = 0%nat \/ (k < i)%nat \/ (k = i /\ (c < j)%nat)) ->
    cell matrix k c = d k c.

Lemma rows_loop :
  forall k, (k <= n2)%nat ->
    cell (fold_left (fun matrix i => JsArray.set [] matrix i [Z.of_nat i])
                    (seq 0 (S n2)) []) k 0 = Z.of_nat k.
Proof.
  pose proof (fold_left_seq_invariant
    (fun i matrix => forall k, (k < i)%nat -> cell matrix k 0 = Z.of_nat k)
    (fun matrix i => JsArray.set [] matrix i [Z.of_nat i]) (S n2) 0 []) as H.
  cbn [Nat.add] in H. intros k Hk. apply H; [| |lia].
  - intros k0 Hk0. lia.
  - intros i matrix _ Hinv k0 Hk0. unfold cell.
    destruct (Nat.eq_dec i k0) as [->|Hne].
    + rewrite get_set_same. reflexivity.
    + rewrite get_set_other by assumption. apply Hinv. lia.
Qed.

Lemma border_loop matrix :
  (forall k, (k <= n2)%nat -> cell matrix k 0 = Z.of_nat k) ->
  Known 1 1 (fold_left (fun matrix j => setCell matrix 0 j (Z.of_nat j))
                       (seq 0 (S n1)) matrix).
Proof.
  intros Hcol.
  pose proof (fold_left_seq_invariant
    (fun j m => (forall k, (k <= n2)%nat -> cell m k 0 = Z.of_nat k)
                /\ forall c, (c < j)%nat -> cell m 0 c = Z.of_nat c)
    (fun m j => setCell m 0 j (Z.of_nat j)) (S n1) 0 matrix) as H.
  cbn [Nat.add] in H.
  destruct H as [Hcol' Hrow'].
  - split; [exact Hcol | intros c Hc; lia].
  - intros j m _ [Hc Hr]. split.
    + intros k Hk. destruct (Nat.eq_dec k 0) as [->|Hk0].
      * destruct (Nat.eq_dec j 0) as [->|Hj0].
        -- apply cell_setCell_same.
        -- rewrite cell_setCell_other by congruence. apply Hc. lia.
      * rewrite cell_setCell_other by congruence. apply Hc. exact Hk.
    + intros c Hlt. destruct (Nat.eq_dec c j) as [->|Hcj].
      * apply cell_setCell_same.
      * rewrite cell_setCell_other by congruence. apply Hr. lia.
  - intros k c Hk Hc Hcase. unfold d.
    destruct Hcase as [-> | [Hlt | [-> Hlt]]].
    + rewrite prefixDistance_col0. apply Hcol'. exact Hk.
    + assert (k = 0%nat) as -> by lia.
      rewrite prefixDistance_row0. apply Hrow'. lia.
    + assert (c = 0%nat) as -> by lia.
      rewrite prefixDistance_col0. apply Hcol'. exact Hk.
Qed.

Lemma fillCell_step matrix i j :
  (1 <= i <= n2)%nat -> (1 <= j <= n1)%nat ->
  Known i j matrix -> Known i (S j) (fillCell str1 str2 matrix i j).
Proof.
  intros Hi Hj Hknown k c Hk Hc Hcase.
  destruct (Nat.eq_dec k i) as [->|Hki];
    [destruct (Nat.eq_dec c j) as [->|Hcj]|].
  - destruct i as [|i']; [lia|]. destruct j as [|j']; [lia|].
    assert (Hdiag : cell matrix i' j' = d i' j') by (apply Hknown; lia).
    assert (Hleft : cell matrix (S i') j' = d (S i') j') by (apply Hknown; lia).
    assert (Hup : cell matrix i' (S j') = d i' (S j')) by (apply Hknown; lia).
    unfold fillCell, d. rewrite prefixDistance_step.
    replace (S i' - 1)%nat with i' by lia. replace (S j' - 1)%nat with j' by lia.
    destruct (sameChar str2 i' str1 j'); rewrite cell_setCell_same.
    + exact Hdiag.
    + rewrite Hdiag, Hleft, Hup. unfold d. lia.
  - unfold fillCell.
    destruct (sameChar _ _ _ _); rewrite cell_setCell_other by congruence;
      apply Hknown; auto; lia.
  - unfold fillCell.
    destruct (sameChar _ _ _ _); rewrite cell_setCell_other by congruence;
      apply Hknown; auto; lia.
Qed.

Lemma row_loop matrix i :
  (1 <= i <= n2)%nat ->
  Known i 1 matrix ->
  Known (S i) 1
        (fold_left (fun matrix j => fillCell str1 str2 matrix i j) (seq 1 n1) matrix).
Proof.
  intros Hi Hknown.
  pose proof (fold_left_seq_invariant (fun j m => Known i j m)
    (fun m j => fillCell str1 str2 m i j) n1 1 matrix Hknown) as H.
  intros k c Hk Hc Hcase. apply H; auto.
  - intros j m Hj Hm. apply fillCell_step; auto. lia.
  - lia.
Qed.

(** The matrix filled by [levenshteinDistance] holds, in its last cell,
    the value given by the recurrence. *)
Lemma levenshteinDistance_refines :
  levenshteinDistance str1 str2 = editDistance str2 str1.
Proof.
  unfold levenshteinDistance, editDistance. fold n1 n2.
  set (rows := fold_left (fun matrix i => JsArray.set [] matrix i [Z.of_nat i])
                         (seq 0 (S n2)) []).
  set (bordered := fold_left (fun matrix j => setCell matrix 0 j (Z.of_nat j))
                             (seq 0 (S n1)) rows).
  assert (Hbordered : Known 1 1 bordered) by (apply border_loop, rows_loop).
  pose proof (fold_left_seq_invariant (fun i m => Known i 1 m)
    (fun m i => fold_left (fun m j => fillCell str1 str2 m i j) (seq 1 n1) m)
    n2 1 bordered Hbordered) as H.
  apply H; auto; try lia.
  intros i m Hi Hm. apply row_loop; auto. lia.
Qed.

End LevenshteinMatrix.

Example levenshteinDistance_kitten_sitting :
  levenshteinDistance "kitten" "sitting" = 3.
Proof. reflexivity. Qed.

Lemma sameChar_sym a i b j : sameChar a i b j = sameChar b j a i.
Proof.
  unfold sameChar.
  destruct (String.get i a), (String.get j b); auto using Ascii.eqb_sym.
Qed.

Lemma sameChar_refl a i : sameChar a i a i = true.
Proof.
  unfold sameChar. destruct (String.get i a); auto using Ascii.eqb_refl.
Qed.

(** The recurrence is symmetric in the two strings. *)
Lemma prefixDistance_sym a b i : forall j,
  prefixDistance a b i j = prefixDistance b a j i.
Proof.
  induction i as [|i IHi]; intros j.
  - rewrite prefixDistance_row0, prefixDistance_col0. reflexivity.
  - induction j as [|j IHj].
    + rewrite prefixDistance_row0, prefixDistance_col0. reflexivity.
    + rewrite !prefixDistance_step, sameChar_sym, IHj, !IHi.
      destruct (sameChar b j a i); lia.
Qed.

Lemma editDistance_sym a b : editDistance a b = editDistance b a.
Proof. unfold editDistance. apply prefixDistance_sym. Qed.

(** The distance between a string and itself is 0. *)
Lemma prefixDistance_same a i : prefixDistance a a i i = 0.
Proof.
  induction i as [|i IH]; [reflexivity|].
  rewrite prefixDistance_step, sameChar_refl. exact IH.
Qed.

(** The distance is never negative. *)
Lemma prefixDistance_nonneg a b i : forall j, 0 <= prefixDistance a b i j.
Proof.
  induction i as [|i IHi]; intros j.
  - rewrite prefixDistance_row0. lia.
  - induction j as [|j IHj].
    + rewrite prefixDistance_col0. lia.
    + rewrite prefixDistance_step.
      pose proof (IHi j). pose proof (IHi (S j)).
      destruct (sameChar a i b j); lia.
Qed.

(** The longer of the two strings, as chosen by [stringSimilarity]: the
    first one when it is strictly longer, the second one otherwise. *)
Lemma stringSimilarity_formula str1 str2 :
  let longer :=
    if (String.length str2 <? String.length str1)%nat then str1 else str2 in
  let shorter :=
    if (String.length str2 <? String.length str1)%nat then str2 else str1 in
  (String.length shorter <= String.length longer)%nat
  /\ (String.length longer = 0%nat -> stringSimilarity str1 str2 = 1%Q)
  /\ (String.length longer <> 0%nat ->
      (stringSimilarity str1 str2
       == 1 - inject_Z (editDistance longer shorter)
              / inject_Z (Z.of_nat (String.length longer)))%Q).
Proof.
  intros longer shorter. unfold stringSimilarity. fold longer shorter.
  split; [|split].
  - subst longer shorter.
    destruct (String.length str2 <? String.length str1)%nat eqn:E.
    + apply Nat.ltb_lt in E. lia.
    + apply Nat.ltb_ge in E. lia.
  - intros H. rewrite H. reflexivity.
  - intros H. destruct (String.length longer =? 0)%nat eqn:E;
      [apply Nat.eqb_eq in E; contradiction|].
    rewrite levenshteinDistance_refines, editDistance_sym.
    unfold Z.sub. rewrite inject_Z_plus, inject_Z_opp. field.
    intros Hz. apply (proj1 (inject_Z_injective _ 0)) in Hz. lia.
Qed.

(** ** The book matcher *)

Lemma insertScored_nonempty x sorted : insertScored x sorted <> [].
Proof.
  destruct sorted as [|y rest]; cbn; [discriminate|].
  destruct (Qle_bool (score y) (score x)); discriminate.
Qed.

Lemma sortByScore_empty scored : sortByScore scored = [] -> scored = [].
Proof.
  destruct scored as [|x rest]; [reflexivity|].
  cbn. intros H. exfalso. exact (insertScored_nonempty _ _ H).
Qed.

(** The first element after sorting is an element of highest score. *)
Lemma sortByScore_head scored : forall top rest,
  sortByScore scored = top :: rest ->
  In top scored /\ forall y, In y scored -> (score y <= score top)%Q.
Proof.
  induction scored as [|x l IH]; intros top rest Hsort; [discriminate|].
  cbn [sortByScore fold_right] in Hsort. fold (sortByScore l) in Hsort.
  destruct (sortByScore l) as [|y r] eqn:Hl.
  - apply sortByScore_empty in Hl. subst l. cbn in Hsort. inversion Hsort; subst.
    split; [left; reflexivity|]. intros z [<- | []]. apply Qle_refl.
  - destruct (IH y r eq_refl) as [Hin Hmax].
    cbn [insertScored] in Hsort.
    destruct (Qle_bool (score y) (score x)) eqn:Hle; inversion Hsort; subst.
    + apply Qle_bool_iff in Hle. split; [left; reflexivity|].
      intros z [<- | Hz]; [apply Qle_refl|].
      eapply Qle_trans; [apply Hmax; exact Hz | exact Hle].
    + split; [right; exact Hin|].
      intros z [<- | Hz]; [|apply Hmax; exact Hz].
      apply Qlt_le_weak. apply Qnot_le_lt. intros Hc.
      apply Qle_bool_iff in Hc. congruence.
Qed.


Lemma stringSimilarity_same s : (stringSimilarity s s == 1)%Q.
Proof.
  unfold stringSimilarity. rewrite Nat.ltb_irrefl.
  destruct (String.length s =? 0)%nat eqn:E; [reflexivity|].
  apply Nat.eqb_neq in E.
  rewrite levenshteinDistance_refines. unfold editDistance.
  rewrite prefixDistance_same, Z.sub_0_r. field.
  intros Hz. apply (proj1 (inject_Z_injective _ 0)) in Hz. lia.
Qed.

(** The score is the double that the code computes: the two
    similarities, the two products and the two sums are rounded one after
    the other. *)
Lemma scoreCandidate_formula book hb :
  score (scoreCandidate book hb)
  = Double.add
      (Double.add 0
         (Double.mul
            (Double.round
               (stringSimilarity (JsString.toLowerCase (title book))
                                 (JsString.toLowerCase (hb_title hb)))) 70))
      (Double.mul
         (Double.round
            (stringSimilarity
               (JsString.toLowerCase (author book))
               (JsString.toLowerCase (JsString.joinSpace (hb_authors hb))))) 30).
Proof. reflexivity. Qed.



(** * Further properties of the client and of the hook *)

(** ** The circuit breaker *)

(** X1.  In every state the singleton can reach, the failure counter is not
    negative and at most one probe has been counted. *)
Lemma breaker_counters_bounded calls :
  0 <= failureCount (fold_left call calls initialBreaker)
  /\ 0 <= halfOpenAttempts (fold_left call calls initialBreaker) <= 1.
Proof.
  split; [apply failureCount_nonneg|].
  assert (H : forall cb, 0 <= halfOpenAttempts cb <= 1 ->
                         0 <= halfOpenAttempts (fold_left call calls cb) <= 1).
  { induction calls as [|c calls IH]; intros cb Hcb; cbn [fold_left]; auto.
    apply IH. destruct c; cbn [call].
    - unfold canMakeRequest. destruct (state cb); cbn [snd]; auto.
      + destruct (CIRCUIT_BREAKER_TIMEOUT <=? now - lastFailureTime cb);
          cbn; lia.
      + destruct (halfOpenAttempts cb <? CIRCUIT_BREAKER_HALF_OPEN_REQUESTS)
          eqn:Hlt; cbn; [|lia].
        apply Z.ltb_lt in Hlt. unfold CIRCUIT_BREAKER_HALF_OPEN_REQUESTS in Hlt.
        lia.
    - unfold recordSuccess. destruct (state cb); exact Hcb.
    - unfold recordFailure. destruct (isAuthFailure error); [exact Hcb|].
      destruct (state cb); cbn;
        try destruct (CIRCUIT_BREAKER_THRESHOLD <=? failureCount cb + 1);
        exact Hcb.
    - unfold checkAndClearRecoveryFlag.
      destruct (lastFailureTime cb =? -1); exact Hcb.
    - exact Hcb.
    - cbn. lia. }
  apply H. cbn. lia.
Qed.

(** X2.  A success recorded in the half-open state raises the recovery flag;
    the flag is handed out once, together with the reset of the
    disconnect notice, and the next look finds it cleared.  The state and
    the failure count of the closed breaker are not touched. *)
Lemma recovery_flag_consumed_once cb :
  state cb = HALF_OPEN ->
  let recovered := recordSuccess cb in
  let first := checkAndClearRecoveryFlag recovered in
  let second := checkAndClearRecoveryFlag (snd first) in
  fst first = true
  /\ fst second = false
  /\ snd second = snd first
  /\ hasNotifiedDisconnect (snd first) = false
  /\ state (snd first) = CLOSED
  /\ failureCount (snd first) = 0.
Proof.
  intros Hs. unfold recordSuccess. rewrite Hs.
  unfold checkAndClearRecoveryFlag. cbn. repeat split.
Qed.

Lemma recovery_flag_consumed_once_witness :
  let recovered := recordSuccess (snd (canMakeRequest 70000 openedBreaker)) in
  let first := checkAndClearRecoveryFlag recovered in
  let second := checkAndClearRecoveryFlag (snd first) in
  fst first = true
  /\ fst second = false
  /\ snd second = snd first
  /\ hasNotifiedDisconnect (snd first) = false
  /\ state (snd first) = CLOSED
  /\ failureCount (snd first) = 0.
Proof.
  apply (recovery_flag_consumed_once (snd (canMakeRequest 70000 openedBreaker))).
  reflexivity.
Defined.

(** Outside the half-open state a success never raises the recovery
    flag: a flag that was down stays down. *)
Lemma recordSuccess_no_recovery cb :
  state cb <> HALF_OPEN ->
  lastFailureTime cb <> -1 ->
  fst (checkAndClearRecoveryFlag (recordSuccess cb)) = false.
Proof.
  intros Hs Hflag. unfold recordSuccess, checkAndClearRecoveryFlag.
  destruct (state cb); try congruence; cbn;
    destruct (lastFailureTime cb =? -1) eqn:E; auto;
    apply Z.eqb_eq in E; contradiction.
Qed.

(** ** The request wrapper *)

(** An admitted request finds the breaker closed or half-open. *)
Lemma canMakeRequest_allowed now cb cb' :
  canMakeRequest now cb = (Allowed, cb') -> state cb' <> OPEN.
Proof.
  unfold canMakeRequest. destruct (state cb) eqn:Hs.
  - intros H. inversion H; subst. congruence.
  - destruct (CIRCUIT_BREAKER_TIMEOUT <=? now - lastFailureTime cb);
      intros H; inversion H; subst; cbn; discriminate.
  - destruct (halfOpenAttempts cb <? CIRCUIT_BREAKER_HALF_OPEN_REQUESTS);
      intros H; inversion H; subst; cbn; discriminate.
Qed.

Lemma recordSuccess_closes cb :
  state cb <> OPEN ->
  state (recordSuccess cb) = CLOSED /\ failureCount (recordSuccess cb) = 0.
Proof.
  intros Hs. unfold recordSuccess. destruct (state cb); try congruence; auto.
Qed.

(** The world in which the [try] block of an admitted request starts:
    the breaker as left by the admission check, the time stamp of the
    call recorded, the clock advanced by the wait. *)
Lemma graphqlRequest_admitted config request w cb :
  canMakeRequest (clock w) (breaker w) = (Allowed, cb) ->
  Js.isBlank (apiToken config) = false ->
  graphqlRequest config request w
  = tryCatch (bind (fetchFn request) interpretReply) rethrow
      (mkWorld (clock w + fst (checkRateLimit config (clock w) (requestTimestamps w)))
               cb
               (snd (checkRateLimit config (clock w) (requestTimestamps w)))
               (sent w) (remote w)).
Proof.
  intros Hadm Htoken. unfold graphqlRequest. rewrite Hadm, Htoken.
  unfold bind at 1. unfold awaitRateLimit, modify. cbn.
  destruct (checkRateLimit config (clock w) (requestTimestamps w)); reflexivity.
Qed.

(** Whenever a request returns, it has reached the service, and the
    breaker is closed with a failure count of 0. *)
Lemma graphqlRequest_returns_closed config request w data w' :
  graphqlRequest config request w = (Returned data, w') ->
  state (breaker w') = CLOSED
  /\ failureCount (breaker w') = 0
  /\ sent w' = (sent w ++ [request])%list.
Proof.
  destruct (canMakeRequest (clock w) (breaker w)) as [admission cb] eqn:Hadm.
  destruct admission as [|reason];
    [|unfold graphqlRequest; rewrite Hadm; discriminate].
  destruct (Js.isBlank (apiToken config)) eqn:Htoken;
    [unfold graphqlRequest; rewrite Hadm, Htoken; discriminate|].
  rewrite (graphqlRequest_admitted _ _ _ _ Hadm Htoken).
  pose proof (canMakeRequest_allowed _ _ _ Hadm) as Hstate.
  unfold tryCatch, bind, fetchFn. cbn.
  destruct (reply (remote w (List.length (sent w)))) as [e|status json];
    cbn [interpretReply].
  - unfold throw. intros H.
    destruct e as [message|]; cbn in H;
      [destruct (Js.startsWith message "HARDCOVER_");
       [|destruct (Js.includes message "fetch" || Js.includes message "network")%bool]|];
      discriminate.
  - destruct ((200 <=? status) && (status <=? 299))%bool.
    + destruct json as [e|firstMessage|payload].
      * unfold throw. intros H.
        destruct e as [message|]; cbn in H;
          [destruct (Js.startsWith message "HARDCOVER_");
           [|destruct (Js.includes message "fetch"
                       || Js.includes message "network")%bool]|];
          discriminate.
      * cbn. intros H.
        destruct (Js.startsWith _ "HARDCOVER_");
          [|destruct (Js.includes _ "fetch" || Js.includes _ "network")%bool];
          discriminate.
      * cbn. intros H. inversion H; subst. cbn.
        destruct (recordSuccess_closes cb Hstate) as [Hc Hn]. auto.
    + unfold throw. cbn. intros H.
      destruct (Js.startsWith (statusError status) "HARDCOVER_");
        [|destruct (Js.includes _ "fetch" || Js.includes _ "network")%bool];
        discriminate.
Qed.

(** What a request throws is always an [Error]: a thrown value of
    another kind is replaced by [HARDCOVER_UNKNOWN_ERROR]. *)
Lemma graphqlRequest_throws_error config request w e w' :
  graphqlRequest config request w = (Threw e, w') ->
  exists message, e = JsError message.
Proof.
  destruct (canMakeRequest (clock w) (breaker w)) as [admission cb] eqn:Hadm.
  destruct admission as [|reason].
  2:{ unfold graphqlRequest. rewrite Hadm. unfold circuitOpenError.
      intros H. inversion H. eauto. }
  destruct (Js.isBlank (apiToken config)) eqn:Htoken.
  { unfold graphqlRequest. rewrite Hadm, Htoken. intros H. inversion H. eauto. }
  rewrite (graphqlRequest_admitted _ _ _ _ Hadm Htoken).
  unfold tryCatch, bind, fetchFn. cbn.
  assert (Hre : forall thrown w0 e0 w1,
             rethrow thrown w0 = (Threw e0, w1) -> exists message, e0 = JsError message).
  { intros thrown w0 e0 w1. destruct thrown as [message|]; cbn.
    - destruct (Js.startsWith message "HARDCOVER_");
        [|destruct (Js.includes message "fetch" || Js.includes message "network")%bool];
        intros H; inversion H; eauto.
    - intros H. inversion H. eauto. }
  destruct (reply (remote w (List.length (sent w)))) as [thrown|status json];
    cbn [interpretReply].
  - unfold throw. apply Hre.
  - destruct ((200 <=? status) && (status <=? 299))%bool.
    + destruct json as [thrown|firstMessage|payload].
      * unfold throw. apply Hre.
      * cbn -[rethrow]. apply Hre.
      * cbn. discriminate.
    + unfold throw. apply Hre.
Qed.

(** X3.  Without a token nothing is sent and nothing is counted: the request
    throws before the rate limiter and the network are reached, and the
    failure counter keeps its value. *)
Lemma graphqlRequest_without_token config request w :
  Js.isBlank (apiToken config) = true ->
  (exists e, fst (graphqlRequest config request w) = Threw e)
  /\ sent (snd (graphqlRequest config request w)) = sent w
  /\ requestTimestamps (snd (graphqlRequest config request w))
     = requestTimestamps w
  /\ failureCount (breaker (snd (graphqlRequest config request w)))
     = failureCount (breaker w)
  /\ (state (breaker w) = CLOSED ->
      graphqlRequest config request w = (Threw (JsError "HARDCOVER_AUTH_FAILED"), w)).
Proof.
  intros Htoken. unfold graphqlRequest.
  pose proof (canMakeRequest_count (clock w) (breaker w)) as Hcount.
  destruct (canMakeRequest (clock w) (breaker w)) as [admission cb] eqn:Hadm.
  cbn [snd] in Hcount. rewrite Htoken.
  destruct admission as [|reason]; cbn; repeat split; eauto.
  - intros Hclosed. rewrite canMakeRequest_closed in Hadm by assumption.
    inversion Hadm; subst. destruct w; reflexivity.
  - intros Hclosed. rewrite canMakeRequest_closed in Hadm by assumption.
    discriminate.
Qed.

Lemma graphqlRequest_without_token_witness :
  (exists e, fst (graphqlRequest tokenlessSettings typenameQuery
                    (freshWorld (replying networkErrorReply))) = Threw e)
  /\ sent (snd (graphqlRequest tokenlessSettings typenameQuery
                  (freshWorld (replying networkErrorReply))))
     = sent (freshWorld (replying networkErrorReply))
  /\ requestTimestamps (snd (graphqlRequest tokenlessSettings typenameQuery
                               (freshWorld (replying networkErrorReply))))
     = requestTimestamps (freshWorld (replying networkErrorReply))
  /\ failureCount (breaker (snd (graphqlRequest tokenlessSettings typenameQuery
                                   (freshWorld (replying networkErrorReply)))))
     = failureCount (breaker (freshWorld (replying networkErrorReply)))
  /\ (state (breaker (freshWorld (replying networkErrorReply))) = CLOSED ->
      graphqlRequest tokenlessSettings typenameQuery
                     (freshWorld (replying networkErrorReply))
      = (Threw (JsError "HARDCOVER_AUTH_FAILED"),
         freshWorld (replying networkErrorReply))).
Proof.
  apply (graphqlRequest_without_token tokenlessSettings typenameQuery
           (freshWorld (replying networkErrorReply))).
  reflexivity.
Defined.

(** The message thrown for an error listed in the body of a reply starts
    with [HARDCOVER_]. *)
Lemma graphqlError_prefixed errorMsg :
  Js.startsWith (graphqlError errorMsg) "HARDCOVER_" = true.
Proof.
  unfold graphqlError.
  destruct (Js.includes errorMsg "403" || Js.includes errorMsg "Forbidden")%bool;
    [reflexivity|].
  destruct (Js.includes errorMsg "401" || Js.includes errorMsg "Unauthorized")%bool;
    [reflexivity|].
  destruct (Js.includes errorMsg "429" || Js.includes errorMsg "rate limit")%bool;
    reflexivity.
Qed.

(** X4.  An error listed in the body of a reply is reported to the breaker
    inside the [try] block and passes through the [catch] block without
    being reported again: with the breaker closed, the failure counter
    goes up by exactly one and the time of the failure is the time at
    which the reply arrived. *)
Lemma graphqlRequest_error_recorded_once config request w delay firstMessage :
  state (breaker w) = CLOSED ->
  Js.isBlank (apiToken config) = false ->
  remote w (List.length (sent w))
  = mkExchange delay (Response 200 (JsonErrors firstMessage)) ->
  let errorMsg :=
    match firstMessage with
    | Some m => if Js.truthy m then m else "Unknown error"%string
    | None => "Unknown error"%string
    end in
  let arrival :=
    clock w + fst (checkRateLimit config (clock w) (requestTimestamps w)) + delay in
  fst (graphqlRequest config request w) = Threw (JsError (graphqlError errorMsg))
  /\ breaker (snd (graphqlRequest config request w))
     = recordFailure arrival (graphqlError errorMsg) (breaker w)
  /\ failureCount (breaker (snd (graphqlRequest config request w)))
     = failureCount (breaker w) + 1
  /\ lastFailureTime (breaker (snd (graphqlRequest config request w))) = arrival.
Proof.
  intros Hclosed Htoken Hreply errorMsg arrival.
  rewrite (graphqlRequest_admitted config request w (breaker w)
             (canMakeRequest_closed _ _ Hclosed) Htoken).
  unfold tryCatch, bind, fetchFn. cbn. rewrite Hreply. cbn.
  fold errorMsg. rewrite graphqlError_prefixed. cbn. fold arrival.
  repeat split.
  - unfold recordFailure. destruct (isAuthFailure (graphqlError errorMsg));
      [reflexivity|].
    rewrite Hclosed.
    destruct (CIRCUIT_BREAKER_THRESHOLD <=? failureCount (breaker w) + 1);
      reflexivity.
  - unfold recordFailure. destruct (isAuthFailure (graphqlError errorMsg));
      [reflexivity|].
    rewrite Hclosed.
    destruct (CIRCUIT_BREAKER_THRESHOLD <=? failureCount (breaker w) + 1);
      reflexivity.
Qed.

Lemma graphqlRequest_error_recorded_once_witness :
  let w := freshWorld (replying fieldErrorReply) in
  let errorMsg := "field 'foo' not found"%string in
  let arrival :=
    clock w + fst (checkRateLimit exampleSettings (clock w) (requestTimestamps w))
    + 200 in
  fst (graphqlRequest exampleSettings typenameQuery w)
  = Threw (JsError (graphqlError errorMsg))
  /\ breaker (snd (graphqlRequest exampleSettings typenameQuery w))
     = recordFailure arrival (graphqlError errorMsg) (breaker w)
  /\ failureCount (breaker (snd (graphqlRequest exampleSettings typenameQuery w)))
     = failureCount (breaker w) + 1
  /\ lastFailureTime (breaker (snd (graphqlRequest exampleSettings typenameQuery w)))
     = arrival.
Proof.
  apply (graphqlRequest_error_recorded_once exampleSettings typenameQuery
           (freshWorld (replying fieldErrorReply)) 200
           (Some "field 'foo' not found"%string)).
  - reflexivity.
  - reflexivity.
  - reflexivity.
Defined.

(** With the breaker closed, a request without a token throws and
    leaves the world as it was. *)
Lemma graphqlRequest_without_token_closed config request w :
  Js.isBlank (apiToken config) = true ->
  state (breaker w) = CLOSED ->
  graphqlRequest config request w = (Threw (JsError "HARDCOVER_AUTH_FAILED"), w).
Proof.
  intros Htoken Hclosed. unfold graphqlRequest.
  rewrite canMakeRequest_closed by assumption. rewrite Htoken.
  destruct w; reflexivity.
Qed.

Lemma statusError_prefixed status :
  Js.startsWith (statusError status) "HARDCOVER_" = true.
Proof.
  unfold statusError.
  destruct (status =? 401); [reflexivity|].
  destruct (status =? 429); [reflexivity|].
  destruct (500 <=? status); reflexivity.
Qed.

(** A reply with a status outside 200-299 makes the request throw the
    error named after the status; the breaker is not told: it is left as
    the admission check left it. *)
Lemma graphqlRequest_status_error config request w delay status json :
  state (breaker w) = CLOSED ->
  Js.isBlank (apiToken config) = false ->
  remote w (List.length (sent w)) = mkExchange delay (Response status json) ->
  ((200 <=? status) && (status <=? 299))%bool = false ->
  fst (graphqlRequest config request w) = Threw (JsError (statusError status))
  /\ breaker (snd (graphqlRequest config request w)) = breaker w
  /\ sent (snd (graphqlRequest config request w)) = (sent w ++ [request])%list.
Proof.
  intros Hclosed Htoken Hreply Hstatus.
  rewrite (graphqlRequest_admitted config request w (breaker w)
             (canMakeRequest_closed _ _ Hclosed) Htoken).
  unfold tryCatch, bind, fetchFn.
  cbn [remote sent clock breaker requestTimestamps]. rewrite Hreply.
  cbn [reply latency interpretReply]. rewrite Hstatus. cbn [throw rethrow].
  rewrite statusError_prefixed. repeat split.
Qed.

(** ** The rate limiter, continued *)

(** X5.  The wait is never negative, and a caller that is delayed at all is
    delayed by more than 100 ms; when no recorded time stamp lies in the
    future, the delay is at most 60 100 ms. *)
Lemma rateLimitWait_bounds config now stamps :
  Forall (fun ts => ts <= now) stamps ->
  let wait := fst (checkRateLimit config now stamps) in
  (wait = 0 \/ 100 < wait) /\ wait <= RATE_LIMIT_WINDOW + 100.
Proof.
  intros Hpast. unfold checkRateLimit, rateLimitWait. cbn [fst].
  destruct (budget config <=? _); [|unfold RATE_LIMIT_WINDOW; lia].
  destruct (filter _ stamps) as [|oldest rest] eqn:Hkept;
    [unfold RATE_LIMIT_WINDOW; lia|].
  assert (Hin : In oldest (filter (fun ts => now - ts <? RATE_LIMIT_WINDOW) stamps))
    by (rewrite Hkept; left; reflexivity).
  apply filter_In in Hin. destruct Hin as [Hmember Hrecent].
  apply Z.ltb_lt in Hrecent.
  rewrite Forall_forall in Hpast. specialize (Hpast _ Hmember).
  cbv zeta.
  destruct (0 <? RATE_LIMIT_WINDOW - (now - oldest) + 100) eqn:Hpos.
  - split; [right|]; lia.
  - apply Z.ltb_ge in Hpos. lia.
Qed.

Lemma rateLimitWait_bounds_witness :
  let wait := fst (checkRateLimit exampleSettings 30000 (repeat 0 50)) in
  (wait = 0 \/ 100 < wait) /\ wait <= RATE_LIMIT_WINDOW + 100.
Proof.
  apply (rateLimitWait_bounds exampleSettings 30000 (repeat 0 50)).
  repeat constructor; vm_compute; discriminate.
Defined.



(** ** Outcomes of a request *)

(** The catch block always throws an [Error], and sends nothing. *)
Lemma rethrow_outcome thrown w :
  exists message w',
    rethrow thrown w = (Threw (JsError message), w') /\ sent w' = sent w.
Proof.
  destruct thrown as [message|]; cbn.
  - destruct (Js.startsWith message "HARDCOVER_");
      [|destruct (Js.includes message "fetch" || Js.includes message "network")%bool];
      eexists; eexists; split; reflexivity.
  - eexists; eexists; split; reflexivity.
Qed.

(** The settlement of a reply, on any breaker: a reply with data records
    a success and returns; every other reply ends in a thrown [Error]. *)
Lemma settle_outcome r w :
  match settle r w with
  | (Returned data, w') =>
      (exists status,
          r = Response status (JsonData data) /\ 200 <= status <= 299)
      /\ breaker w' = recordSuccess (breaker w)
      /\ sent w' = sent w
  | (Threw e, w') => (exists message, e = JsError message) /\ sent w' = sent w
  end.
Proof.
  unfold settle, tryCatch.
  destruct r as [thrown|status json]; cbn [interpretReply].
  - unfold throw.
    destruct (rethrow_outcome thrown w) as (message & w' & -> & Hsent). eauto.
  - destruct ((200 <=? status) && (status <=? 299))%bool eqn:Hok.
    + destruct json as [thrown|firstMessage|payload].
      * unfold throw.
        destruct (rethrow_outcome thrown w) as (message & w' & -> & Hsent). eauto.
      * unfold bind, reportFailure, modify, throw.
        match goal with
        | |- context [rethrow ?t ?w0] =>
            destruct (rethrow_outcome t w0) as (message & w' & -> & Hsent)
        end.
        split; [eauto|exact Hsent].
      * cbn. split; [|split; reflexivity].
        exists status. split; [reflexivity|].
        apply andb_prop in Hok. destruct Hok as [Hlow Hhigh].
        apply Z.leb_le in Hlow. apply Z.leb_le in Hhigh. lia.
    + unfold throw.
      destruct (rethrow_outcome (JsError (statusError status)) w)
        as (message & w' & -> & Hsent). eauto.
Qed.

(** A recorded success resets the failure count, closes a half-open
    breaker and leaves an open one open. *)
Lemma recordSuccess_state cb :
  failureCount (recordSuccess cb) = 0
  /\ state (recordSuccess cb) <> HALF_OPEN
  /\ (state (recordSuccess cb) = OPEN <-> state cb = OPEN).
Proof.
  unfold recordSuccess. destruct (state cb) eqn:Hstate; cbn;
    repeat split; congruence.
Qed.

(** [graphqlRequest] is the sequence of its segments. *)
Lemma graphqlRequest_segments config request w :
  graphqlRequestAmid [] config request w = graphqlRequest config request w.
Proof.
  unfold graphqlRequestAmid, graphqlRequest, passGate, bind at 1.
  destruct (canMakeRequest (clock w) (breaker w)) as [admission cb].
  destruct admission as [|reason]; [|reflexivity].
  destruct (Js.isBlank (apiToken config)); [reflexivity|].
  unfold bind at 1. unfold bind at 3.
  destruct (awaitRateLimit config (withBreaker (fun _ => cb) w)) as [[[]|e] w1];
    [|reflexivity].
  unfold settle, tryCatch, bind, fetchFn, modify, withBreaker. cbn.
  destruct (breaker w1); reflexivity.
Qed.

(** X7.  The ways a request can end.  [graphqlRequest] runs in segments,
    between which other requests of the client can call the breaker.
    Whatever these calls are: if the request returns, the service has
    answered with data, the failure count is 0 and the breaker is not
    half-open; it is closed unless the other requests left it open, and
    then it stays open, as after three failures of other requests.  If
    the request throws, the thrown value is an [Error] (a value of
    another kind is replaced by [HARDCOVER_UNKNOWN_ERROR]).  When no
    other request runs in between, a request that returns has reached
    the service and leaves the breaker closed with a failure count of 0,
    and a request that throws has sent at most itself. *)
Lemma graphqlRequest_outcome :
  (forall config request w,
      graphqlRequestAmid [] config request w = graphqlRequest config request w)
  /\ (forall others config request w,
        match graphqlRequestAmid others config request w with
        | (Returned data, w') =>
            (exists status,
                reply (remote w (List.length (sent w)))
                = Response status (JsonData data)
                /\ 200 <= status <= 299)
            /\ failureCount (breaker w') = 0
            /\ state (breaker w') <> HALF_OPEN
            /\ (state (breaker w') = OPEN
                <-> state (fold_left call others
                             (snd (canMakeRequest (clock w) (breaker w)))) = OPEN)
        | (Threw e, _) => exists message, e = JsError message
        end)
  /\ (forall config request w,
        match graphqlRequest config request w with
        | (Returned _, w') =>
            state (breaker w') = CLOSED
            /\ failureCount (breaker w') = 0
            /\ sent w' = (sent w ++ [request])%list
        | (Threw e, w') =>
            (exists message, e = JsError message)
            /\ (sent w' = sent w \/ sent w' = (sent w ++ [request])%list)
        end)
  /\ (let '(outcome, w') :=
        graphqlRequestAmid overlappingFailures exampleSettings typenameQuery
                           (freshWorld duneService) in
      (exists data, outcome = Returned data)
      /\ state (breaker w') = OPEN
      /\ failureCount (breaker w') = 0).
Proof.
  split; [exact graphqlRequest_segments|].
  split.
  { intros others config request w.
    unfold graphqlRequestAmid, passGate, bind at 1.
    destruct (canMakeRequest (clock w) (breaker w)) as [admission cb]. cbn [snd].
    destruct admission as [|reason]; [|unfold circuitOpenError; eauto].
    destruct (Js.isBlank (apiToken config)); [eauto|].
    unfold bind, awaitRateLimit, fetchFn, modify.
    destruct (checkRateLimit config _ _) as [wait stamps].
    cbn [clock breaker requestTimestamps sent remote withBreaker].
    match goal with
    | |- context [settle ?r ?w0] =>
        pose proof (settle_outcome r w0) as Hsettle;
        destruct (settle r w0) as [[data|e] w']
    end.
    - destruct Hsettle as (Hreply & Hbreaker & _).
      cbn [breaker withBreaker] in Hbreaker. rewrite Hbreaker.
      split; [exact Hreply|]. apply recordSuccess_state.
    - apply Hsettle. }
  split.
  { intros config request w.
    pose proof (graphqlRequest_sent config request w) as Hsent.
    destruct (graphqlRequest config request w) as [[data|e] w'] eqn:Hrun.
    - exact (graphqlRequest_returns_closed _ _ _ _ _ Hrun).
    - split; [exact (graphqlRequest_throws_error _ _ _ _ _ Hrun)|exact Hsent]. }
  vm_compute. repeat split. eexists. reflexivity.
Qed.

(** ** The connection test *)

(** X8.  The connection test never throws; it succeeds exactly when the
    probe request returns, and a failure always carries a message. *)
Lemma testConnection_never_throws config w :
  exists result w',
    testConnection config w = (Returned result, w')
    /\ w' = snd (graphqlRequest config (OTHER_QUERY "{ __typename }") w)
    /\ (connection_success result = true <->
        exists data,
          fst (graphqlRequest config (OTHER_QUERY "{ __typename }") w)
          = Returned data)
    /\ connection_message result <> EmptyString.
Proof.
  unfold testConnection, tryCatch, bind.
  destruct (graphqlRequest config (OTHER_QUERY "{ __typename }") w)
    as [[data|e] w1] eqn:Hrun.
  - eexists; eexists. split; [reflexivity|]. cbn. repeat split; eauto.
    discriminate.
  - destruct (graphqlRequest_throws_error _ _ _ _ _ Hrun) as [message ->].
    destruct (Js.includes message "HARDCOVER_AUTH_FAILED").
    + eexists; eexists. split; [reflexivity|]. cbn.
      repeat split; try discriminate. intros [data H]. discriminate.
    + eexists; eexists. split; [reflexivity|]. cbn.
      repeat split; try discriminate.
      * intros [data H]. discriminate.
      * destruct message; cbn; discriminate.
Qed.

(** A token that is blank, or that the service rejects with status 401,
    is reported as an invalid token. *)
Lemma testConnection_invalid_token config w :
  state (breaker w) = CLOSED ->
  Js.isBlank (apiToken config) = true
  \/ (exists delay json,
        remote w (List.length (sent w)) = mkExchange delay (Response 401 json)) ->
  fst (testConnection config w) = Returned (mkConnection false "Invalid API token").
Proof.
  intros Hclosed Hcase. unfold testConnection, tryCatch, bind.
  destruct (Js.isBlank (apiToken config)) eqn:Htoken.
  - rewrite (graphqlRequest_without_token_closed config
               (OTHER_QUERY "{ __typename }") w Htoken Hclosed).
    reflexivity.
  - destruct Hcase as [Hblank | (delay & json & Hreply)]; [discriminate|].
    pose proof (proj1 (graphqlRequest_status_error config
                         (OTHER_QUERY "{ __typename }") w delay 401 json
                         Hclosed Htoken Hreply eq_refl)) as Hrun.
    destruct (graphqlRequest config (OTHER_QUERY "{ __typename }") w)
      as [outcome w1].
    cbn [fst] in Hrun. rewrite Hrun. reflexivity.
Qed.

(** ** The client while the circuit is open *)

(** X9.  While the circuit is open, the operations that catch their errors
    fail soft without a request being sent and without any change of the
    breaker: no user book, no reads, nothing cleaned up, no deletion, a
    progress update that reports failure.  The book search and the book
    matcher throw the error of the breaker instead. *)
Lemma open_circuit_fails_soft config isoDate userBookId page percentage readId
  editionId startedAt keepalive w :
  state (breaker w) = OPEN ->
  clock w - lastFailureTime (breaker w) < CIRCUIT_BREAKER_TIMEOUT ->
  getUserBook config userBookId w = (Returned None, w)
  /\ getAllReads config userBookId w = (Returned [], w)
  /\ cleanupDuplicateReads config userBookId w = (Returned (mkCleanup 0 None), w)
  /\ (forall id, deleteRead config id w = (Returned false, w))
  /\ updateProgress config isoDate userBookId page percentage readId editionId
                    startedAt keepalive w = (Returned failed, w)
  /\ (exists message,
        testConnection config w = (Returned (mkConnection false message), w))
  /\ (exists message,
        Js.startsWith message "HARDCOVER_CIRCUIT_OPEN" = true
        /\ (forall title author,
               searchBooks config title author w = (Threw (JsError message), w))
        /\ (forall book, matchBook config book w = (Threw (JsError message), w))).
Proof.
  intros Hopen Hrecent.
  pose proof (fun request =>
                graphqlRequest_while_open config request w Hopen Hrecent) as Hreq.
  set (reason := openReason _) in Hreq.
  assert (Hreads : getAllReads config userBookId w = (Returned [], w)).
  { unfold getAllReads, tryCatch, bind. rewrite Hreq. reflexivity. }
  assert (Hcreate :
            tryCatch (createNewRead config isoDate userBookId page editionId
                        startedAt keepalive) (fun _ => ret failed) w
            = (Returned failed, w)).
  { unfold tryCatch, createNewRead, bind. rewrite Hreq. reflexivity. }
  assert (Hsearch : forall title author,
             searchBooks config title author w
             = (Threw (circuitOpenError reason), w)).
  { intros title author. unfold searchBooks, bind. rewrite Hreq. reflexivity. }
  split; [|split; [|split; [|split; [|split; [|split]]]]].
  - unfold getUserBook, tryCatch, bind. rewrite Hreq. reflexivity.
  - exact Hreads.
  - unfold cleanupDuplicateReads, tryCatch, bind. rewrite Hreads. reflexivity.
  - intros id. unfold deleteRead, tryCatch, bind. rewrite Hreq. reflexivity.
  - destruct readId as [id|]; simp updateProgress; try exact Hcreate.
    destruct (id =? 0); [exact Hcreate|].
    unfold bind, tryCatch, updateExistingRead, bind. rewrite Hreq. reflexivity.
  - unfold testConnection, tryCatch, bind. rewrite Hreq.
    unfold circuitOpenError.
    destruct (Js.includes _ "HARDCOVER_AUTH_FAILED");
      eexists; reflexivity.
  - exists ("HARDCOVER_CIRCUIT_OPEN: " ++ reason)%string.
    split; [reflexivity|]. split.
    + exact Hsearch.
    + intros book. unfold matchBook.
      destruct (keepTruthyString (isbn book)); unfold bind;
        rewrite Hsearch; reflexivity.
Qed.

Lemma open_circuit_fails_soft_witness :
  getUserBook exampleSettings "42" openWorld = (Returned None, openWorld)
  /\ getAllReads exampleSettings "42" openWorld = (Returned [], openWorld)
  /\ cleanupDuplicateReads exampleSettings "42" openWorld
     = (Returned (mkCleanup 0 None), openWorld)
  /\ (forall id, deleteRead exampleSettings id openWorld = (Returned false, openWorld))
  /\ updateProgress exampleSettings exampleDate "42" 10 (1 # 10) (Some 7) None
                    None false openWorld = (Returned failed, openWorld)
  /\ (exists message,
        testConnection exampleSettings openWorld
        = (Returned (mkConnection false message), openWorld))
  /\ (exists message,
        Js.startsWith message "HARDCOVER_CIRCUIT_OPEN" = true
        /\ (forall title author,
               searchBooks exampleSettings title author openWorld
               = (Threw (JsError message), openWorld))
        /\ (forall book,
               matchBook exampleSettings book openWorld
               = (Threw (JsError message), openWorld))).
Proof.
  apply (open_circuit_fails_soft exampleSettings exampleDate "42" 10 (1 # 10)
           (Some 7) None None false openWorld).
  - reflexivity.
  - vm_compute. reflexivity.
Defined.

(** ** Progress update, request by request *)

(** X10.  In a healthy world, an update that the service accepts takes one
    request, and the result carries the read that the service returned. *)
Lemma updateProgress_update_accepted config isoDate userBookId page percentage
  id editionId startedAt keepalive w delay data mutation read pages :
  Js.isBlank (apiToken config) = false ->
  healthy w ->
  id <> 0 ->
  remote w (List.length (sent w))
  = mkExchange delay (Response 200 (JsonData (Some data))) ->
  update_user_book_read data = Some mutation ->
  truthyString (mutation_error mutation) = false ->
  user_book_read mutation = Some read ->
  progress_pages read = Some pages ->
  exists w',
    updateProgress config isoDate userBookId page percentage (Some id) editionId
                   startedAt keepalive w = (Returned (succeeded read), w')
    /\ sent w'
       = (sent w ++ [updateVariables page id editionId startedAt keepalive])%list.
Proof.
  intros Htoken Hw Hid Hreply Hmutation Herror Hread Hpages.
  destruct (graphqlRequest_healthy config
              (updateVariables page id editionId startedAt keepalive) w delay
              (Some data) Htoken Hw Hreply) as (w1 & Hrun & Hsent & _ & _).
  exists w1. split; [|exact Hsent].
  simp updateProgress. apply Z.eqb_neq in Hid. rewrite Hid.
  unfold bind, tryCatch, updateExistingRead, bind. rewrite Hrun.
  cbn [property ret]. rewrite Hmutation, Herror, Hread, Hpages. reflexivity.
Qed.

(** X11.  When the service answers the update with an error, or with a read
    that has no [progress_pages], a read is created instead: exactly two
    requests are sent, the update and then the creation for the same
    page, and the result is the one of the creation. *)
Lemma updateProgress_falls_back config isoDate userBookId page percentage id
  editionId startedAt keepalive w delay data mutation :
  Js.isBlank (apiToken config) = false ->
  healthy w ->
  id <> 0 ->
  remote w (List.length (sent w))
  = mkExchange delay (Response 200 (JsonData (Some data))) ->
  update_user_book_read data = Some mutation ->
  truthyString (mutation_error mutation) = true
  \/ (exists read, user_book_read mutation = Some read
                   /\ progress_pages read = None) ->
  exists w1 result w',
    graphqlRequest config (updateVariables page id editionId startedAt keepalive) w
    = (Returned (Some data), w1)
    /\ updateProgress config isoDate userBookId page percentage (Some id)
                      editionId startedAt keepalive w = (Returned result, w')
    /\ tryCatch (createNewRead config isoDate userBookId page editionId startedAt
                   keepalive) (fun _ => ret failed) w1 = (Returned result, w')
    /\ sent w'
       = (sent w ++ [updateVariables page id editionId startedAt keepalive;
                     createVariables userBookId page editionId startedAt keepalive
                       (isoDate (clock w1))])%list.
Proof.
  intros Htoken Hw Hid Hreply Hmutation Hcase.
  destruct (graphqlRequest_healthy config
              (updateVariables page id editionId startedAt keepalive) w delay
              (Some data) Htoken Hw Hreply) as (w1 & Hrun & Hsent & _ & Hw1).
  assert (Hstep : updateExistingRead config page id editionId startedAt keepalive w
                  = (Returned CreateInstead, w1)).
  { unfold updateExistingRead, bind. rewrite Hrun. cbn [property ret].
    rewrite Hmutation.
    destruct (truthyString (mutation_error mutation)); [reflexivity|].
    destruct Hcase as [Hcase | (read & Hread & Hpages)]; [discriminate|].
    rewrite Hread, Hpages. reflexivity. }
  destruct (create_branch_returns config isoDate userBookId page editionId
              startedAt keepalive w1) as (result & w' & Hcreate & _ & _ & _).
  exists w1, result, w'. split; [exact Hrun|]. split; [|split; [exact Hcreate|]].
  - simp updateProgress. apply Z.eqb_neq in Hid. rewrite Hid.
    unfold bind at 1. unfold tryCatch at 1. rewrite Hstep.
    simp updateProgress.
  - destruct Hw1 as [Hclosed Hserved].
    destruct (Hserved (List.length (sent w1)) (le_n _)) as (delay' & data' & Hreply').
    destruct (graphqlRequest_healthy config
                (createVariables userBookId page editionId startedAt keepalive
                   (isoDate (clock w1))) w1 delay' data' Htoken
                (conj Hclosed Hserved) Hreply') as (w2 & Hrun2 & Hsent2 & _ & _).
    pose proof (createNewRead_world config isoDate userBookId page editionId
                  startedAt keepalive w1) as Hworld.
    rewrite Hrun2 in Hworld. cbn [snd] in Hworld.
    assert (Hw' : w' = w2).
    { unfold tryCatch in Hcreate.
      destruct (createNewRead config isoDate userBookId page editionId startedAt
                  keepalive w1) as [[r|e] w3]; cbn [snd] in Hworld;
        inversion Hcreate; subst; reflexivity. }
    rewrite Hw', Hsent2, Hsent, <- app_assoc. reflexivity.
Qed.

Lemma replying_healthy data :
  healthy (freshWorld (replying (Response 200 (JsonData data)))).
Proof. split; [reflexivity|]. intros n _. exists 200, data. reflexivity. Qed.

Lemma refusingService_healthy : healthy (freshWorld refusingService).
Proof.
  split; [reflexivity|]. intros [|n] _; eexists; eexists; reflexivity.
Qed.

Lemma updateProgress_update_accepted_witness :
  exists w',
    updateProgress exampleSettings exampleDate "42" 120%Q (1 # 2)%Q (Some 7) None
                   None false (freshWorld acceptingService)
    = (Returned (succeeded acceptedRead), w')
    /\ sent w'
       = (sent (freshWorld acceptingService)
          ++ [updateVariables 120%Q 7 None None false])%list.
Proof.
  apply (updateProgress_update_accepted exampleSettings exampleDate "42" 120%Q
           (1 # 2)%Q 7 None None false (freshWorld acceptingService) 200
           acceptedUpdate (mkReadMutation None (Some acceptedRead))
           acceptedRead 120).
  - reflexivity.
  - apply replying_healthy.
  - discriminate.
  - reflexivity.
  - reflexivity.
  - reflexivity.
  - reflexivity.
  - reflexivity.
Defined.

Lemma updateProgress_falls_back_witness :
  exists w1 result w',
    graphqlRequest exampleSettings (updateVariables 120%Q 7 None None false)
                   (freshWorld refusingService)
    = (Returned (Some refusedUpdate), w1)
    /\ updateProgress exampleSettings exampleDate "42" 120%Q (1 # 2)%Q (Some 7)
                      None None false (freshWorld refusingService)
       = (Returned result, w')
    /\ tryCatch (createNewRead exampleSettings exampleDate "42" 120%Q None None
                   false) (fun _ => ret failed) w1 = (Returned result, w')
    /\ sent w'
       = (sent (freshWorld refusingService)
          ++ [updateVariables 120%Q 7 None None false;
              createVariables "42" 120%Q None None false
                (exampleDate (clock w1))])%list.
Proof.
  apply (updateProgress_falls_back exampleSettings exampleDate "42" 120%Q
           (1 # 2)%Q 7 None None false (freshWorld refusingService) 200
           refusedUpdate (mkReadMutation (Some "Read not found"%string) None)).
  - reflexivity.
  - apply refusingService_healthy.
  - discriminate.
  - reflexivity.
  - reflexivity.
  - left. reflexivity.
Defined.

(** ** Clean-up against any service *)

Lemma getAllReads_sent config userBookId w :
  exists reads w',
    getAllReads config userBookId w = (Returned reads, w')
    /\ (sent w' = sent w
        \/ sent w'
           = (sent w ++ [GET_ALL_READS_QUERY (JsNum.parseInt userBookId)])%list).
Proof.
  pose proof (graphqlRequest_sent config
                (GET_ALL_READS_QUERY (JsNum.parseInt userBookId)) w) as Hsent.
  unfold getAllReads, tryCatch, bind.
  destruct (graphqlRequest config _ w) as [[data|e] w1]; cbn [snd] in Hsent.
  - destruct data as [data|]; cbn [property ret throw].
    + destruct (user_books data) as [[|row rows]|];
        eexists; eexists; (split; [reflexivity|exact Hsent]).
    + eexists; eexists; (split; [reflexivity|exact Hsent]).
  - eexists; eexists; (split; [reflexivity|exact Hsent]).
Qed.

Lemma deleteRead_sent config readId w :
  exists ok w',
    deleteRead config readId w = (Returned ok, w')
    /\ (if ok then sent w' = (sent w ++ [DELETE_READ_MUTATION readId])%list
        else sent w' = sent w
             \/ sent w' = (sent w ++ [DELETE_READ_MUTATION readId])%list).
Proof.
  pose proof (graphqlRequest_sent config (DELETE_READ_MUTATION readId) w) as Hsent.
  unfold deleteRead, tryCatch, bind.
  destruct (graphqlRequest config _ w) as [[data|e] w1] eqn:Hrun; cbn [snd] in Hsent.
  - exists true, w1. split; [reflexivity|].
    apply (graphqlRequest_returns_closed _ _ _ _ _ Hrun).
  - exists false, w1. split; [reflexivity|exact Hsent].
Qed.

Lemma deleteOthers_sent config keptId reads : forall count w,
  exists n w' newly,
    deleteOthers config keptId reads count w = (Returned n, w')
    /\ sent w' = (sent w ++ newly)%list
    /\ Forall (fun request =>
                 exists read, In read reads /\ read_id read <> keptId
                              /\ request = DELETE_READ_MUTATION (read_id read))
              newly
    /\ count <= n <= count + Z.of_nat (List.length newly).
Proof.
  induction reads as [|read rest IH]; intros count w; cbn [deleteOthers].
  - exists count, w, []. rewrite app_nil_r. cbn.
    repeat split; [constructor|lia|lia].
  - destruct (read_id read =? keptId) eqn:Hkept.
    + destruct (IH count w) as (n & w' & newly & Hrun & Hsent & Hall & Hn).
      exists n, w', newly. repeat split; try assumption; try lia.
      eapply Forall_impl; [|exact Hall].
      intros request (r & Hin & Hr). exists r. split; [right; exact Hin|exact Hr].
    + apply Z.eqb_neq in Hkept. unfold bind.
      destruct (deleteRead_sent config (read_id read) w) as (ok & w1 & Hdel & Hsent1).
      rewrite Hdel.
      destruct (IH (if ok then count + 1 else count) w1)
        as (n & w' & newly & Hrun & Hsent & Hall & Hn).
      assert (Hlift : Forall (fun request =>
                 exists r, In r (read :: rest) /\ read_id r <> keptId
                           /\ request = DELETE_READ_MUTATION (read_id r)) newly).
      { eapply Forall_impl; [|exact Hall].
        intros request (r & Hin & Hr). exists r. split; [right; exact Hin|exact Hr]. }
      assert (Hone : exists r, In r (read :: rest) /\ read_id r <> keptId
                /\ DELETE_READ_MUTATION (read_id read)
                   = DELETE_READ_MUTATION (read_id r)).
      { exists read. split; [left; reflexivity|]. split; [exact Hkept|reflexivity]. }
      destruct ok.
      * exists n, w', (DELETE_READ_MUTATION (read_id read) :: newly).
        split; [exact Hrun|]. split; [|split].
        -- rewrite Hsent, Hsent1, <- app_assoc. reflexivity.
        -- constructor; assumption.
        -- cbn [List.length]. lia.
      * destruct Hsent1 as [Hsent1 | Hsent1].
        -- exists n, w', newly. rewrite Hsent, Hsent1.
           repeat split; try assumption; lia.
        -- exists n, w', (DELETE_READ_MUTATION (read_id read) :: newly).
           split; [exact Hrun|]. split; [|split].
           ++ rewrite Hsent, Hsent1, <- app_assoc. reflexivity.
           ++ constructor; assumption.
           ++ cbn [List.length]. lia.
Qed.

(** X12.  Whatever the service does, the clean-up returns; it never asks for
    the deletion of the read it reports as kept, every deletion it asks
    for is that of a read the service listed, and it reports no more
    deletions than it asked for. *)
Lemma cleanup_never_deletes_kept config userBookId w :
  exists result w' newly,
    cleanupDuplicateReads config userBookId w = (Returned result, w')
    /\ sent w' = (sent w ++ newly)%list
    /\ 0 <= deleted result <= Z.of_nat (List.length (filter isDelete newly))
    /\ (forall keptId, kept result = Some keptId ->
          ~ In (DELETE_READ_MUTATION keptId) newly)
    /\ (forall readId, In (DELETE_READ_MUTATION readId) newly ->
          exists read,
            In read (match fst (getAllReads config userBookId w) with
                     | Returned reads => reads
                     | Threw _ => []
                     end)
            /\ read_id read = readId)
    /\ (kept result = None -> deleted result = 0).
Proof.
  destruct (getAllReads_sent config userBookId w) as (reads & w1 & Hreads & Hsent1).
  unfold cleanupDuplicateReads, tryCatch, bind. rewrite Hreads. cbn [fst].
  assert (Hquery : exists query,
             sent w1 = (sent w ++ query)%list
             /\ filter isDelete query = []
             /\ forall readId, ~ In (DELETE_READ_MUTATION readId) query).
  { destruct Hsent1 as [H | H].
    - exists []. rewrite app_nil_r. repeat split; auto.
    - exists [GET_ALL_READS_QUERY (JsNum.parseInt userBookId)].
      repeat split; auto. intros readId [Hin | []]. discriminate. }
  destruct Hquery as (query & Hsent & Hnone & Hnotin).
  destruct reads as [|first [|second rest]].
  - exists (mkCleanup 0 None), w1, query. cbn [ret deleted kept].
    rewrite Hnone. repeat split; auto; try lia; try discriminate.
    intros readId Hin. destruct (Hnotin _ Hin).
  - exists (mkCleanup 0 None), w1, query. cbn [ret deleted kept].
    rewrite Hnone. repeat split; auto; try lia; try discriminate.
    intros readId Hin. destruct (Hnotin _ Hin).
  - set (reads := first :: second :: rest).
    set (bestRead := bestReadFrom first reads).
    destruct (deleteOthers_sent config (read_id bestRead) reads 0 w1)
      as (n & w' & newly & Hrun & Hsent' & Hall & Hn).
    rewrite Hrun. unfold ret.
    exists (mkCleanup n (Some (read_id bestRead))), w', (query ++ newly)%list.
    cbn [deleted kept].
    assert (Hdeletes : filter isDelete newly = newly).
    { clear - Hall. induction Hall as [|request l (r & _ & _ & ->) _ IH];
        [reflexivity|]. cbn. rewrite IH. reflexivity. }
    split; [reflexivity|]. split; [|split; [|split; [|split]]].
    + rewrite Hsent', Hsent, <- app_assoc. reflexivity.
    + rewrite filter_app, Hnone, Hdeletes. cbn [app]. lia.
    + intros keptId Hkept Hin. inversion Hkept; subst keptId.
      apply in_app_or in Hin. destruct Hin as [Hin | Hin];
        [exact (Hnotin _ Hin)|].
      rewrite Forall_forall in Hall.
      destruct (Hall _ Hin) as (r & _ & Hneq & Heq).
      inversion Heq. congruence.
    + intros readId Hin. apply in_app_or in Hin.
      destruct Hin as [Hin | Hin]; [destruct (Hnotin _ Hin)|].
      rewrite Forall_forall in Hall.
      destruct (Hall _ Hin) as (r & Hr & _ & Heq).
      inversion Heq. exists r. split; [exact Hr|reflexivity].
    + discriminate.
Qed.

(** ** The user book *)

Lemma find_first {A} (p : A -> bool) (l : list A) :
  match find p l with
  | Some x =>
      exists before after,
        l = (before ++ x :: after)%list
        /\ Forall (fun y => p y = false) before /\ p x = true
  | None => Forall (fun y => p y = false) l
  end.
Proof.
  induction l as [|y l IH]; cbn [find]; [constructor|].
  destruct (p y) eqn:Hy.
  - exists [], l. repeat split; [constructor|exact Hy].
  - destruct (find p l) as [x|].
    + destruct IH as (before & after & -> & Hbefore & Hx).
      exists (y :: before), after. repeat split; [constructor|]; assumption.
    + constructor; assumption.
Qed.

(** X13.  The progress and the read id of a user book are those of the first
    read that is not finished; when every read is finished (or there is
    none) the user book has neither.  The number of pages of the remote
    edition is never reported as 0. *)
Lemma parseUserBook_active_read userBook :
  let reads := match user_book_reads userBook with Some l => l | None => [] end in
  let finished := fun r => truthyString (finished_at r) = true in
  let parsed := parseUserBook userBook in
  (forall id, ub_readId parsed = Some id ->
     exists before read after,
       reads = (before ++ read :: after)%list
       /\ Forall finished before
       /\ ~ finished read
       /\ read_id read = id
       /\ ub_progress parsed
          = Some (mkRemoteProgress (progress_pages read) (started_at read)
                                   (edition_id read) (started_at read)))
  /\ (ub_readId parsed = None <-> Forall finished reads)
  /\ (ub_readId parsed = None -> ub_progress parsed = None)
  /\ ub_remoteTotalPages parsed <> Some 0
  /\ ub_id parsed = row_id userBook.
Proof.
  intros reads finished parsed. subst parsed. unfold parseUserBook.
  fold reads. cbn [ub_readId ub_progress ub_remoteTotalPages ub_id].
  pose proof (find_first (fun r => negb (truthyString (finished_at r))) reads)
    as Hfind.
  destruct (find (fun r => negb (truthyString (finished_at r))) reads)
    as [read|] eqn:Hread; cbn [option_map].
  - destruct Hfind as (before & after & Hreads & Hbefore & Hunfinished).
    apply negb_true_iff in Hunfinished.
    split; [|split; [|split; [|split]]].
    + intros id Hid. inversion Hid; subst id.
      exists before, read, after. split; [exact Hreads|]. split; [|split; [|split]].
      * eapply Forall_impl; [|exact Hbefore]. intros r Hr.
        apply negb_false_iff in Hr. exact Hr.
      * unfold finished. congruence.
      * reflexivity.
      * reflexivity.
    + split; [discriminate|]. intros Hall. rewrite Hreads in Hall.
      apply Forall_app in Hall. destruct Hall as [_ Hall].
      apply Forall_cons_iff in Hall. destruct Hall as [Hfin _].
      unfold finished in Hfin. congruence.
    + discriminate.
    + unfold JsNum.keepTruthy, JsNum.truthy.
      destruct (edition_pages userBook) as [n|]; [destruct (n =? 0) eqn:E; cbn|];
        try (apply Z.eqb_neq in E; congruence);
        destruct (book_pages userBook) as [m|]; try discriminate;
        destruct (m =? 0) eqn:E'; cbn; try discriminate;
        apply Z.eqb_neq in E'; congruence.
    + reflexivity.
  - split; [|split; [|split; [|split]]].
    + discriminate.
    + split; [|reflexivity]. intros _.
      eapply Forall_impl; [|exact Hfind]. intros r Hr.
      apply negb_false_iff in Hr. exact Hr.
    + reflexivity.
    + unfold JsNum.keepTruthy, JsNum.truthy.
      destruct (edition_pages userBook) as [n|]; [destruct (n =? 0) eqn:E; cbn|];
        try (apply Z.eqb_neq in E; congruence);
        destruct (book_pages userBook) as [m|]; try discriminate;
        destruct (m =? 0) eqn:E'; cbn; try discriminate;
        apply Z.eqb_neq in E'; congruence.
    + reflexivity.
Qed.

(** ** The edit distance *)

Lemma prefixDistance_bounds a b i : forall j,
  Z.abs (Z.of_nat i - Z.of_nat j) <= prefixDistance a b i j
  <= Z.max (Z.of_nat i) (Z.of_nat j).
Proof.
  induction i as [|i IHi]; intros j.
  - rewrite prefixDistance_row0. lia.
  - induction j as [|j IHj].
    + rewrite prefixDistance_col0. lia.
    + rewrite prefixDistance_step.
      pose proof (IHi j) as H1. pose proof (IHi (S j)) as H2.
      destruct (sameChar a i b j); lia.
Qed.

Lemma prefixDistance_zero a b i : forall j,
  prefixDistance a b i j = 0 ->
  i = j /\ forall k, (k < i)%nat -> sameChar a k b k = true.
Proof.
  induction i as [|i IHi]; intros j.
  - rewrite prefixDistance_row0. intros H. split; [lia|]. intros k Hk. lia.
  - destruct j as [|j].
    + rewrite prefixDistance_col0. lia.
    + rewrite prefixDistance_step. destruct (sameChar a i b j) eqn:Hsame.
      * intros H. destruct (IHi j H) as [-> Hk]. split; [reflexivity|].
        intros k Hlt. destruct (Nat.eq_dec k j) as [->|Hne]; [exact Hsame|].
        apply Hk. lia.
      * pose proof (prefixDistance_nonneg a b i j).
        pose proof (prefixDistance_nonneg a b (S i) j).
        pose proof (prefixDistance_nonneg a b i (S j)). lia.
Qed.

Lemma same_chars_eq a : forall b,
  String.length a = String.length b ->
  (forall k, (k < String.length a)%nat -> sameChar a k b k = true) ->
  a = b.
Proof.
  induction a as [|c a IH]; intros [|d b] Hlen Hsame; try discriminate;
    [reflexivity|].
  cbn in Hlen. f_equal.
  - specialize (Hsame 0%nat). cbn in Hsame.
    apply Ascii.eqb_eq. apply Hsame. lia.
  - apply IH; [lia|]. intros k Hk. specialize (Hsame (S k)).
    cbn in Hsame. apply Hsame. lia.
Qed.

Lemma editDistance_zero a b : editDistance a b = 0 <-> a = b.
Proof.
  split.
  - unfold editDistance. intros H.
    destruct (prefixDistance_zero _ _ _ _ H) as [Hlen Hsame].
    apply same_chars_eq; assumption.
  - intros ->. apply prefixDistance_same.
Qed.

(** X14.  The value computed by the matrix is symmetric, lies between the
    difference of the lengths and the greater length, and is 0 exactly
    for equal strings. *)
Lemma levenshteinDistance_metric str1 str2 :
  levenshteinDistance str1 str2 = levenshteinDistance str2 str1
  /\ Z.abs (Z.of_nat (String.length str1) - Z.of_nat (String.length str2))
     <= levenshteinDistance str1 str2
     <= Z.max (Z.of_nat (String.length str1)) (Z.of_nat (String.length str2))
  /\ (levenshteinDistance str1 str2 = 0 <-> str1 = str2).
Proof.
  rewrite !levenshteinDistance_refines. split; [apply editDistance_sym|]. split.
  - pose proof (prefixDistance_bounds str2 str1 (String.length str2)
                  (String.length str1)) as H.
    unfold editDistance. lia.
  - rewrite editDistance_zero. split; congruence.
Qed.

(** ** Similarity and score *)

Lemma stringSimilarity_value str1 str2 :
  let n := Nat.max (String.length str1) (String.length str2) in
  (n = 0%nat -> stringSimilarity str1 str2 = 1%Q)
  /\ (n <> 0%nat ->
      (stringSimilarity str1 str2
       == 1 - inject_Z (editDistance str1 str2) / inject_Z (Z.of_nat n))%Q).
Proof.
  intros n. subst n.
  destruct (stringSimilarity_formula str1 str2) as (Hlen & Hempty & Hformula).
  destruct (String.length str2 <? String.length str1)%nat eqn:Hcmp.
  - apply Nat.ltb_lt in Hcmp.
    replace (Nat.max (String.length str1) (String.length str2))
      with (String.length str1) by lia.
    split; assumption.
  - apply Nat.ltb_ge in Hcmp.
    replace (Nat.max (String.length str1) (String.length str2))
      with (String.length str2) by lia.
    rewrite (editDistance_sym str1 str2). split; assumption.
Qed.

Lemma length_zero_empty s : String.length s = 0%nat -> s = EmptyString.
Proof. destruct s; [reflexivity|discriminate]. Qed.

Lemma similarity_fraction (d n : Z) :
  0 < n -> 0 <= d <= n ->
  (0 <= inject_Z d / inject_Z n <= 1)%Q
  /\ (d <> 0 -> (0 < inject_Z d / inject_Z n)%Q).
Proof.
  intros Hn Hd.
  assert (Hpos : (0 < inject_Z n)%Q).
  { change 0%Q with (inject_Z 0). rewrite <- Zlt_Qlt. lia. }
  split; [split|].
  - apply Qle_shift_div_l; [exact Hpos|]. rewrite Qmult_0_l.
    change 0%Q with (inject_Z 0). rewrite <- Zle_Qle. lia.
  - apply Qle_shift_div_r; [exact Hpos|]. rewrite Qmult_1_l.
    rewrite <- Zle_Qle. lia.
  - intros Hne. apply Qlt_shift_div_l; [exact Hpos|]. rewrite Qmult_0_l.
    change 0%Q with (inject_Z 0). rewrite <- Zlt_Qlt. lia.
Qed.

Lemma stringSimilarity_unit str1 str2 :
  (0 <= stringSimilarity str1 str2 <= 1)%Q.
Proof.
  destruct (stringSimilarity_value str1 str2) as [Hzero Hvalue].
  set (n := Nat.max (String.length str1) (String.length str2)) in *.
  pose proof (prefixDistance_bounds str1 str2 (String.length str1)
                (String.length str2)) as Hbounds.
  fold (editDistance str1 str2) in Hbounds.
  destruct (Nat.eq_dec n 0) as [Hn | Hn].
  - rewrite (Hzero Hn). split; discriminate.
  - specialize (Hvalue Hn).
    destruct (similarity_fraction (editDistance str1 str2) (Z.of_nat n))
      as [Hfrac _]; [lia|lia|].
    lra.
Qed.

(** X15.  The similarity of two strings is a fraction between 0 and 1, does
    not depend on the order of the two strings, and is 1 exactly for
    equal strings. *)
Lemma stringSimilarity_range str1 str2 :
  (0 <= stringSimilarity str1 str2 <= 1)%Q
  /\ (stringSimilarity str1 str2 == stringSimilarity str2 str1)%Q
  /\ ((stringSimilarity str1 str2 == 1)%Q <-> str1 = str2).
Proof.
  split; [apply stringSimilarity_unit|].
  destruct (stringSimilarity_value str1 str2) as [Hzero Hvalue].
  destruct (stringSimilarity_value str2 str1) as [Hzero' Hvalue'].
  rewrite (Nat.max_comm (String.length str2)) in Hzero', Hvalue'.
  rewrite (editDistance_sym str2 str1) in Hvalue'.
  set (n := Nat.max (String.length str1) (String.length str2)) in *.
  pose proof (prefixDistance_bounds str1 str2 (String.length str1)
                (String.length str2)) as Hbounds.
  fold (editDistance str1 str2) in Hbounds.
  pose proof (editDistance_zero str1 str2) as Hequal.
  set (d := editDistance str1 str2) in *.
  destruct (Nat.eq_dec n 0) as [Hn | Hn].
  - rewrite (Hzero Hn), (Hzero' Hn). split; [reflexivity|].
    split; [|reflexivity]. intros _.
    rewrite (length_zero_empty str1), (length_zero_empty str2) by lia.
    reflexivity.
  - specialize (Hvalue Hn). specialize (Hvalue' Hn).
    split; [lra|]. split.
    + intros Hone. apply Hequal.
      destruct (Z.eq_dec d 0) as [Hd | Hd]; [exact Hd|].
      destruct (similarity_fraction d (Z.of_nat n)) as [_ Hfrac]; [lia|lia|].
      specialize (Hfrac Hd). lra.
    + intros ->. apply stringSimilarity_same.
Qed.

(** The constants of the score are doubles. *)
Lemma round_constants :
  Double.round 0 = 0%Q /\ Double.round 1 = 1%Q /\ Double.round 30 = 30%Q
  /\ Double.round 70 = 70%Q /\ Double.round 100 = 100%Q.
Proof. vm_compute. repeat split. Qed.

Lemma round_between lo hi q :
  (lo <= q <= hi)%Q -> (Double.round lo <= Double.round q <= Double.round hi)%Q.
Proof. intros [Hlo Hhi]. split; apply round_le; assumption. Qed.

Lemma Qabs_bound q bound : (0 <= q <= bound)%Q -> (Qabs q <= bound)%Q.
Proof. intros [Hlo Hhi]. rewrite Qabs_pos; assumption. Qed.

(** The steps of the score: each intermediate double lies in the range of
    its exact counterpart. *)
Lemma score_steps t a :
  (0 <= t <= 1)%Q -> (0 <= a <= 1)%Q ->
  let td := Double.round t in
  let x := Double.round (td * 70) in
  let x' := Double.round (0 + x) in
  let ad := Double.round a in
  let y := Double.round (ad * 30) in
  (0 <= td <= 1)%Q /\ (0 <= x <= 70)%Q /\ (0 <= x' <= 70)%Q
  /\ (0 <= ad <= 1)%Q /\ (0 <= y <= 30)%Q
  /\ (0 <= Double.round (x' + y) <= 100)%Q.
Proof.
  intros Ht Ha td x x' ad y.
  destruct round_constants as (R0 & R1 & R30 & R70 & R100).
  assert (Htd : (0 <= td <= 1)%Q).
  { pose proof (round_between 0 1 t Ht) as H. rewrite R0, R1 in H. exact H. }
  assert (Hx : (0 <= x <= 70)%Q).
  { pose proof (round_between 0 70 (td * 70)) as H. rewrite R0, R70 in H.
    apply H. lra. }
  assert (Hx' : (0 <= x' <= 70)%Q).
  { pose proof (round_between 0 70 (0 + x)) as H. rewrite R0, R70 in H.
    apply H. lra. }
  assert (Had : (0 <= ad <= 1)%Q).
  { pose proof (round_between 0 1 a Ha) as H. rewrite R0, R1 in H. exact H. }
  assert (Hy : (0 <= y <= 30)%Q).
  { pose proof (round_between 0 30 (ad * 30)) as H. rewrite R0, R30 in H.
    apply H. lra. }
  repeat split; try tauto.
  - pose proof (round_between 0 100 (x' + y)) as H. rewrite R0, R100 in H.
    apply H. lra.
  - pose proof (round_between 0 100 (x' + y)) as H. rewrite R0, R100 in H.
    apply H. lra.
Qed.


(** With a title similarity of at most 3/7 the score, as the code rounds
    it, is at most 60. *)
Lemma low_title_scores_at_most_60 book hb :
  (stringSimilarity (JsString.toLowerCase (title book))
                    (JsString.toLowerCase (hb_title hb)) <= 3 # 7)%Q ->
  (score (scoreCandidate book hb) <= 60)%Q.
Proof.
  intros Hlow. rewrite scoreCandidate_formula.
  unfold Double.add, Double.mul.
  set (t := stringSimilarity (JsString.toLowerCase (title book))
                             (JsString.toLowerCase (hb_title hb))) in *.
  set (a := stringSimilarity
              (JsString.toLowerCase (author book))
              (JsString.toLowerCase (JsString.joinSpace (hb_authors hb)))).
  assert (Ht : (0 <= t <= 1)%Q) by apply stringSimilarity_unit.
  assert (Ha : (0 <= a <= 1)%Q) by apply stringSimilarity_unit.
  destruct (score_steps t a Ht Ha) as (Htd & Hx & Hx' & Had & Hy & _).
  pose proof (round_le t (3 # 7) Hlow) as Ltd.
  set (td := Double.round t) in *.
  assert (Lx : (Double.round (td * 70)
                <= Double.round (Double.round (3 # 7) * 70))%Q)
    by (apply round_le; lra).
  set (x := Double.round (td * 70)) in *.
  assert (Lx' : (Double.round (0 + x)
                 <= Double.round (0 + Double.round (Double.round (3 # 7) * 70)))%Q)
    by (apply round_le; lra).
  set (x' := Double.round (0 + x)) in *.
  set (y := Double.round (Double.round a * 30)) in *.
  eapply Qle_trans.
  - apply (round_le (x' + y)
             (Double.round (0 + Double.round (Double.round (3 # 7) * 70)) + 30)).
    lra.
  - vm_compute. discriminate.
Qed.

(** X16.  The score of a candidate lies between 0 and 100, and a score above
    the threshold of 60 needs a title similarity above 3/7: the author
    alone never makes a match. *)
Lemma scoreCandidate_range book hb :
  (0 <= score (scoreCandidate book hb) <= 100)%Q
  /\ ((60 < score (scoreCandidate book hb))%Q ->
      (3 # 7 < stringSimilarity (JsString.toLowerCase (title book))
                                (JsString.toLowerCase (hb_title hb)))%Q).
Proof.
  split.
  - rewrite scoreCandidate_formula.
    apply (score_steps _ _
             (stringSimilarity_unit (JsString.toLowerCase (title book))
                (JsString.toLowerCase (hb_title hb)))
             (stringSimilarity_unit (JsString.toLowerCase (author book))
                (JsString.toLowerCase (JsString.joinSpace (hb_authors hb))))).
  - intros Hscore. apply Qnot_le_lt. intros Hlow.
    apply (Qlt_not_le _ _ Hscore). apply low_title_scores_at_most_60. exact Hlow.
Qed.



(** ** The sort of the candidates *)

Lemma insertScored_permutation x sorted :
  Permutation (x :: sorted) (insertScored x sorted).
Proof.
  induction sorted as [|y rest IH]; cbn [insertScored]; [reflexivity|].
  destruct (Qle_bool (score y) (score x)); [reflexivity|].
  rewrite perm_swap. apply perm_skip. exact IH.
Qed.

Lemma insertScored_sorted x sorted :
  StronglySorted (fun a b => (score b <= score a)%Q) sorted ->
  StronglySorted (fun a b => (score b <= score a)%Q) (insertScored x sorted).
Proof.
  induction sorted as [|y rest IH]; intros Hsorted; cbn [insertScored].
  - repeat constructor.
  - apply StronglySorted_inv in Hsorted. destruct Hsorted as [Hrest Hy].
    destruct (Qle_bool (score y) (score x)) eqn:Hle.
    + apply Qle_bool_iff in Hle. constructor.
      * constructor; assumption.
      * constructor; [exact Hle|].
        eapply Forall_impl; [|exact Hy]. intros b Hb. cbv beta in Hb.
        eapply Qle_trans; eassumption.
    + constructor; [apply IH; exact Hrest|].
      rewrite Forall_forall. intros b Hb.
      apply (Permutation_in _ (Permutation_sym (insertScored_permutation x rest)))
        in Hb.
      destruct Hb as [<- | Hb].
      * apply Qlt_le_weak. apply Qnot_le_lt. intros H.
        apply Qle_bool_iff in H. congruence.
      * rewrite Forall_forall in Hy. apply Hy, Hb.
Qed.

Lemma insertScored_stable q x sorted :
  filter (fun s => Qeq_bool (score s) q) (insertScored x sorted)
  = filter (fun s => Qeq_bool (score s) q) (x :: sorted).
Proof.
  induction sorted as [|y rest IH]; cbn [insertScored]; [reflexivity|].
  destruct (Qle_bool (score y) (score x)) eqn:Hle; [reflexivity|].
  cbn [filter] in *. rewrite IH.
  destruct (Qeq_bool (score x) q) eqn:Hx; [|reflexivity].
  destruct (Qeq_bool (score y) q) eqn:Hy; [|reflexivity].
  apply Qeq_bool_iff in Hx, Hy.
  assert (Hfalse : Qle_bool (score y) (score x) = true).
  { apply Qle_bool_iff. rewrite Hx, Hy. apply Qle_refl. }
  congruence.
Qed.

Lemma sortByScore_permutation scored : Permutation scored (sortByScore scored).
Proof.
  induction scored as [|x rest IH]; cbn [sortByScore fold_right]; [constructor|].
  fold (sortByScore rest). rewrite <- insertScored_permutation.
  apply perm_skip. exact IH.
Qed.

Lemma sortByScore_stable q scored :
  filter (fun s => Qeq_bool (score s) q) (sortByScore scored)
  = filter (fun s => Qeq_bool (score s) q) scored.
Proof.
  induction scored as [|x rest IH]; cbn [sortByScore fold_right]; [reflexivity|].
  fold (sortByScore rest). rewrite insertScored_stable. cbn [filter].
  rewrite IH. reflexivity.
Qed.

(** X17.  The sort of the scored candidates rearranges them by decreasing
    score and keeps candidates of equal score in the order in which the
    search returned them. *)
Lemma sortByScore_stable_sort scored :
  Permutation scored (sortByScore scored)
  /\ StronglySorted (fun a b => (score b <= score a)%Q) (sortByScore scored)
  /\ forall q,
       filter (fun s => Qeq_bool (score s) q) (sortByScore scored)
       = filter (fun s => Qeq_bool (score s) q) scored.
Proof.
  split; [apply sortByScore_permutation|]. split.
  - induction scored as [|x rest IH]; cbn [sortByScore fold_right];
      [constructor|].
    apply insertScored_sorted. exact IH.
  - intros q. apply sortByScore_stable.
Qed.

Lemma filter_head {A} (p : A -> bool) (l : list A) x t :
  filter p l = x :: t ->
  exists before after,
    l = (before ++ x :: after)%list /\ Forall (fun y => p y = false) before.
Proof.
  induction l as [|y l IH]; cbn [filter]; [discriminate|].
  destruct (p y) eqn:Hy.
  - intros H. inversion H; subst. exists [], l. split; [reflexivity|constructor].
  - intros H. destruct (IH H) as (before & after & -> & Hbefore).
    exists (y :: before), after. split; [reflexivity|].
    constructor; assumption.
Qed.

(** The first of the candidates with the highest score is the one that
    is accepted. *)
Lemma bestMatch_split book results hb :
  bestMatch book results = Some hb ->
  exists before after,
    results = (before ++ hb :: after)%list
    /\ Forall (fun other =>
                 (score (scoreCandidate book other)
                  < score (scoreCandidate book hb))%Q) before
    /\ Forall (fun other =>
                 (score (scoreCandidate book other)
                  <= score (scoreCandidate book hb))%Q) after.
Proof.
  unfold bestMatch.
  destruct (sortByScore (map (scoreCandidate book) results)) as [|top rest]
    eqn:Hsorted; [discriminate|].
  destruct (negb (Qle_bool (score top) 60)); [|discriminate].
  intros Hhb. inversion Hhb; subst hb. clear Hhb.
  destruct (sortByScore_head _ _ _ Hsorted) as [_ Hmax].
  pose proof (sortByScore_stable (score top) (map (scoreCandidate book) results))
    as Hstable.
  rewrite Hsorted in Hstable. cbn [filter] in Hstable.
  assert (Hrefl : Qeq_bool (score top) (score top) = true)
    by (apply Qeq_bool_iff; reflexivity).
  rewrite Hrefl in Hstable. symmetry in Hstable.
  destruct (filter_head _ _ _ _ Hstable) as (sbefore & safter & Hsplit & Hlower).
  apply map_eq_app in Hsplit.
  destruct Hsplit as (before & tail & -> & Hbefore & Htail).
  apply map_eq_cons in Htail.
  destruct Htail as (candidate & after & -> & Hcandidate & Hafter).
  subst top sbefore safter. cbn [scoreCandidate scored_book].
  exists before, after. split; [reflexivity|]. split.
  - rewrite Forall_forall. intros other Hother.
    assert (Hle : (score (scoreCandidate book other)
                   <= score (scoreCandidate book candidate))%Q).
    { apply Hmax. apply in_map. apply in_or_app. left. exact Hother. }
    rewrite Forall_forall in Hlower.
    specialize (Hlower (scoreCandidate book other) (in_map _ _ _ Hother)).
    cbv beta in Hlower.
    apply Qle_lteq in Hle. destruct Hle as [Hlt | Heq]; [exact Hlt|].
    apply Qeq_bool_iff in Heq. congruence.
  - rewrite Forall_forall. intros other Hother. apply Hmax. apply in_map.
    apply in_or_app. right. right. exact Hother.
Qed.

(** X18.  Among the candidates with the highest score, the matcher takes the
    one the search returned first: every candidate in front of the
    accepted one has a strictly lower score.  The scores compared are
    the doubles that the code computes: of two candidates whose exact
    scores are both 230/3, the one returned later is accepted when the
    rounding of its score ends higher. *)
Lemma bestMatch_first_of_best :
  (forall book results hb,
      bestMatch book results = Some hb ->
      exists before after,
        results = (before ++ hb :: after)%list
        /\ Forall (fun other =>
                     (score (scoreCandidate book other)
                      < score (scoreCandidate book hb))%Q) before
        /\ Forall (fun other =>
                     (score (scoreCandidate book other)
                      <= score (scoreCandidate book hb))%Q) after)
  /\ ((70 * (2 # 3) + 30 * 1 == 230 # 3)%Q
      /\ (70 * 1 + 30 * (2 # 9) == 230 # 3)%Q
      /\ (stringSimilarity (JsString.toLowerCase (title tieBook))
                           (JsString.toLowerCase (hb_title tieEarlier))
          == 2 # 3)%Q
      /\ (stringSimilarity
            (JsString.toLowerCase (author tieBook))
            (JsString.toLowerCase (JsString.joinSpace (hb_authors tieLater)))
          == 2 # 9)%Q
      /\ (score (scoreCandidate tieBook tieEarlier)
          < score (scoreCandidate tieBook tieLater))%Q
      /\ bestMatch tieBook [tieEarlier; tieLater] = Some tieLater).
Proof.
  split; [exact bestMatch_split|].
  vm_compute. repeat split.
Qed.

Lemma bestMatch_first_of_best_witness :
  exists before after,
    map parseHit duneHits = (before ++ parseHit duneDocument :: after)%list
    /\ Forall (fun other =>
                 (score (scoreCandidate duneBook other)
                  < score (scoreCandidate duneBook (parseHit duneDocument)))%Q)
              before
    /\ Forall (fun other =>
                 (score (scoreCandidate duneBook other)
                  <= score (scoreCandidate duneBook (parseHit duneDocument)))%Q)
              after.
Proof.
  apply (proj1 bestMatch_first_of_best duneBook (map parseHit duneHits)
           (parseHit duneDocument)).
  vm_compute. reflexivity.
Defined.

(** ** Matching by ISBN *)

(** The two ISBN fields of a parsed hit are taken from the hit's list of
    ISBNs by their length: each is empty or has the length its name
    says. *)
Lemma parseHit_isbns doc :
  (isbn_10 (parseHit doc) = EmptyString
   \/ String.length (isbn_10 (parseHit doc)) = 10%nat
      /\ exists isbns, doc_isbns doc = Some isbns /\ In (isbn_10 (parseHit doc)) isbns)
  /\ (isbn_13 (parseHit doc) = EmptyString
      \/ String.length (isbn_13 (parseHit doc)) = 13%nat
         /\ exists isbns, doc_isbns doc = Some isbns
                          /\ In (isbn_13 (parseHit doc)) isbns).
Proof.
  unfold parseHit. cbn [isbn_10 isbn_13].
  destruct (doc_isbns doc) as [isbns|]; [|split; left; reflexivity].
  split.
  - destruct (find (fun i => (String.length i =? 10)%nat) isbns) as [i|] eqn:Hfind;
      [|left; reflexivity].
    apply find_some in Hfind. destruct Hfind as [Hin Hlen].
    apply Nat.eqb_eq in Hlen. right. cbn [JsString.orEmpty]. eauto.
  - destruct (find (fun i => (String.length i =? 13)%nat) isbns) as [i|] eqn:Hfind;
      [|left; reflexivity].
    apply find_some in Hfind. destruct Hfind as [Hin Hlen].
    apply Nat.eqb_eq in Hlen. right. cbn [JsString.orEmpty]. eauto.
Qed.

Lemma searchBooks_healthy config title author w delay data docs :
  Js.isBlank (apiToken config) = false ->
  healthy w ->
  remote w (List.length (sent w))
  = mkExchange delay (Response 200 (JsonData (Some data))) ->
  search_hits data = Some docs ->
  exists w',
    searchBooks config title author w = (Returned (map parseHit docs), w')
    /\ sent w'
       = (sent w
          ++ [SEARCH_BOOKS_QUERY
                match keepTruthyString author with
                | Some a => (title ++ " " ++ a)%string
                | None => title
                end 10])%list
    /\ healthy w'.
Proof.
  intros Htoken Hw Hreply Hhits.
  destruct (graphqlRequest_healthy config
              (SEARCH_BOOKS_QUERY
                 match keepTruthyString author with
                 | Some a => (title ++ " " ++ a)%string
                 | None => title
                 end 10) w delay (Some data) Htoken Hw Hreply)
    as (w1 & Hrun & Hsent & _ & Hw1).
  exists w1. split; [|split; assumption].
  unfold searchBooks, bind. rewrite Hrun. cbn [property ret]. rewrite Hhits.
  destruct docs; reflexivity.
Qed.

(** X19.  When the local book carries an ISBN and the search for it returns a
    hit with that ISBN, the first such hit is the match, after a single
    request.  Only codes of 10 or 13 characters can match this way. *)
Lemma matchBook_by_isbn config book w code delay data docs exactMatch :
  keepTruthyString (isbn book) = Some code ->
  Js.isBlank (apiToken config) = false ->
  healthy w ->
  remote w (List.length (sent w))
  = mkExchange delay (Response 200 (JsonData (Some data))) ->
  search_hits data = Some docs ->
  find (fun hb => (String.eqb (isbn_13 hb) code || String.eqb (isbn_10 hb) code)%bool)
       (map parseHit docs) = Some exactMatch ->
  exists w',
    matchBook config book w = (Returned (Some exactMatch), w')
    /\ sent w' = (sent w ++ [SEARCH_BOOKS_QUERY code 10])%list
    /\ (isbn_13 exactMatch = code \/ isbn_10 exactMatch = code)
    /\ (String.length code = 10%nat \/ String.length code = 13%nat).
Proof.
  intros Hisbn Htoken Hw Hreply Hhits Hfind.
  destruct (searchBooks_healthy config code None w delay data docs Htoken Hw
              Hreply Hhits) as (w1 & Hsearch & Hsent & _).
  exists w1. unfold matchBook. rewrite Hisbn. unfold bind at 1.
  rewrite Hsearch, Hfind. split; [reflexivity|]. split; [exact Hsent|].
  apply find_some in Hfind. destruct Hfind as [Hin Hcode].
  apply in_map_iff in Hin. destruct Hin as (doc & <- & _).
  assert (Hnonempty : code <> EmptyString).
  { unfold keepTruthyString, truthyString in Hisbn.
    destruct (isbn book) as [v|]; [|discriminate].
    destruct v; cbn in Hisbn; [discriminate|].
    inversion Hisbn. discriminate. }
  destruct (parseHit_isbns doc) as [H10 H13].
  apply orb_true_iff in Hcode. destruct Hcode as [Hcode | Hcode];
    apply String.eqb_eq in Hcode.
  - split; [left; exact Hcode|]. right.
    destruct H13 as [Hempty | [Hlen _]]; congruence.
  - split; [right; exact Hcode|]. left.
    destruct H10 as [Hempty | [Hlen _]]; congruence.
Qed.

Lemma matchBook_by_isbn_witness :
  exists w',
    matchBook exampleSettings duneWithIsbn (freshWorld duneEditions)
    = (Returned (Some (parseHit duneReprint)), w')
    /\ sent w'
       = (sent (freshWorld duneEditions)
          ++ [SEARCH_BOOKS_QUERY "9780441172719" 10])%list
    /\ (isbn_13 (parseHit duneReprint) = "9780441172719"%string
        \/ isbn_10 (parseHit duneReprint) = "9780441172719"%string)
    /\ (String.length "9780441172719" = 10%nat
        \/ String.length "9780441172719" = 13%nat).
Proof.
  apply (matchBook_by_isbn exampleSettings duneWithIsbn (freshWorld duneEditions)
           "9780441172719" 200 (mkData None None None (Some duneHits)) duneHits
           (parseHit duneReprint)).
  - reflexivity.
  - reflexivity.
  - apply replying_healthy.
  - reflexivity.
  - reflexivity.
  - reflexivity.
Defined.

(** X20.  When no hit carries the ISBN, the matcher searches again by title
    and author and takes the best-scored hit of that second search. *)
Lemma matchBook_isbn_falls_back config book w code delay data docs :
  keepTruthyString (isbn book) = Some code ->
  Js.isBlank (apiToken config) = false ->
  healthy w ->
  remote w (List.length (sent w))
  = mkExchange delay (Response 200 (JsonData (Some data))) ->
  search_hits data = Some docs ->
  find (fun hb => (String.eqb (isbn_13 hb) code || String.eqb (isbn_10 hb) code)%bool)
       (map parseHit docs) = None ->
  exists w1 w',
    searchBooks config code None w = (Returned (map parseHit docs), w1)
    /\ matchBook config book w
       = (match searchBooks config (title book) (Some (author book)) w1 with
          | (Returned results, w2) => (Returned (bestMatch book results), w2)
          | (Threw e, w2) => (Threw e, w2)
          end)
    /\ snd (matchBook config book w) = w'
    /\ sent w'
       = (sent w
          ++ [SEARCH_BOOKS_QUERY code 10;
              SEARCH_BOOKS_QUERY
                (if Js.truthy (author book)
                 then (title book ++ " " ++ author book)%string
                 else title book) 10])%list.
Proof.
  intros Hisbn Htoken Hw Hreply Hhits Hfind.
  destruct (searchBooks_healthy config code None w delay data docs Htoken Hw
              Hreply Hhits) as (w1 & Hsearch & Hsent & Hw1).
  destruct Hw1 as [Hclosed Hserved].
  destruct (Hserved (List.length (sent w1)) (le_n _)) as (delay' & data' & Hreply').
  destruct (graphqlRequest_healthy config
              (SEARCH_BOOKS_QUERY
                 match keepTruthyString (Some (author book)) with
                 | Some a => (title book ++ " " ++ a)%string
                 | None => title book
                 end 10) w1 delay' data' Htoken (conj Hclosed Hserved) Hreply')
    as (w2 & Hrun2 & Hsent2 & _ & _).
  assert (Hworld : snd (searchBooks config (title book) (Some (author book)) w1)
                   = w2).
  { unfold searchBooks, bind. rewrite Hrun2.
    destruct data' as [d|]; cbn [property ret throw];
      [destruct (search_hits d) as [[|doc l]|]|]; reflexivity. }
  assert (Hmatch :
            matchBook config book w
            = (match searchBooks config (title book) (Some (author book)) w1 with
               | (Returned results, w2) => (Returned (bestMatch book results), w2)
               | (Threw e, w2) => (Threw e, w2)
               end)).
  { unfold matchBook. rewrite Hisbn. unfold bind at 1.
    rewrite Hsearch, Hfind. unfold bind. reflexivity. }
  exists w1, w2. split; [exact Hsearch|]. split; [exact Hmatch|]. split.
  - rewrite Hmatch.
    destruct (searchBooks config (title book) (Some (author book)) w1)
      as [[results|e] w3]; exact Hworld.
  - rewrite Hsent2, Hsent, <- app_assoc.
    unfold keepTruthyString, truthyString. cbn [app].
    destruct (Js.truthy (author book)); reflexivity.
Qed.

Lemma matchBook_isbn_falls_back_witness :
  exists w1 w',
    searchBooks exampleSettings "1234567890" None (freshWorld duneEditions)
    = (Returned (map parseHit duneHits), w1)
    /\ matchBook exampleSettings bookWithUnknownIsbn (freshWorld duneEditions)
       = (match searchBooks exampleSettings (title bookWithUnknownIsbn)
                  (Some (author bookWithUnknownIsbn)) w1 with
          | (Returned results, w2) =>
              (Returned (bestMatch bookWithUnknownIsbn results), w2)
          | (Threw e, w2) => (Threw e, w2)
          end)
    /\ snd (matchBook exampleSettings bookWithUnknownIsbn (freshWorld duneEditions))
       = w'
    /\ sent w'
       = (sent (freshWorld duneEditions)
          ++ [SEARCH_BOOKS_QUERY "1234567890" 10;
              SEARCH_BOOKS_QUERY
                (if Js.truthy (author bookWithUnknownIsbn)
                 then (title bookWithUnknownIsbn ++ " "
                       ++ author bookWithUnknownIsbn)%string
                 else title bookWithUnknownIsbn) 10])%list.
Proof.
  apply (matchBook_isbn_falls_back exampleSettings bookWithUnknownIsbn
           (freshWorld duneEditions) "1234567890" 200
           (mkData None None None (Some duneHits)) duneHits).
  - reflexivity.
  - reflexivity.
  - apply replying_healthy.
  - reflexivity.
  - reflexivity.
  - reflexivity.
Defined.

(** ** Page mapping, continued *)

Lemma round_scaled_monotone (p p' l r : Z) :
  0 < l -> 0 <= r -> p <= p' ->
  JsNum.round (inject_Z p / inject_Z l * inject_Z r)
  <= JsNum.round (inject_Z p' / inject_Z l * inject_Z r).
Proof.
  intros Hl Hr Hp.
  pose proof (round_scaled p l r Hl) as [Hlow Hhigh].
  pose proof (round_scaled p' l r Hl) as [Hlow' Hhigh'].
  set (y := JsNum.round (inject_Z p / _ * _)) in *.
  set (y' := JsNum.round (inject_Z p' / _ * _)) in *.
  assert (H : 2 * l * y < 2 * l * (y' + 1)) by nia.
  apply Z.mul_lt_mono_pos_l in H; lia.
Qed.

(** An integer is the nearest integer of itself. *)
Lemma nearestEven_integer k : Double.nearestEven (inject_Z k) = k.
Proof.
  unfold Double.nearestEven. rewrite Qfloor_Z.
  assert (H : (inject_Z k - inject_Z k < 1 # 2)%Q) by lra.
  rewrite Qlt_alt in H. rewrite H. reflexivity.
Qed.

(** The integers below [2^53] are doubles. *)
Lemma round_integer n :
  0 <= n < 2 ^ 53 -> (Double.round (inject_Z n) == inject_Z n)%Q.
Proof.
  intros Hn. unfold Double.round. rewrite Qred_correct.
  destruct (Qcompare_spec 0 (inject_Z n)) as [Heq | Hlt | Hgt].
  - exact Heq.
  - assert (Hpos : 1 <= n).
    { change 0%Q with (inject_Z 0) in Hlt. rewrite <- Zlt_Qlt in Hlt. lia. }
    unfold Double.roundPositive.
    assert (He : -52 <= Double.lastPlace (inject_Z n) <= 0).
    { unfold Double.lastPlace, Double.floorLog2.
      assert (Hone : Qle_bool 1 (inject_Z n) = true).
      { apply Qle_bool_iff. change 1%Q with (inject_Z 1). rewrite <- Zle_Qle. lia. }
      rewrite Hone, Qfloor_Z.
      pose proof (Z.log2_nonneg n).
      assert (Z.log2 n < 53) by (apply Z.log2_lt_pow2; lia).
      lia. }
    set (e := Double.lastPlace (inject_Z n)) in *.
    assert (Hq : (inject_Z n / Double.pow2 e == inject_Z (n * 2 ^ (- e)))%Q).
    { rewrite div_pow2, (pow2_inject (- e)) by lia.
      rewrite inject_Z_mult. reflexivity. }
    rewrite (nearestEven_comp _ _ Hq), nearestEven_integer, inject_Z_mult.
    rewrite <- (pow2_inject (- e)) by lia.
    rewrite <- Qmult_assoc, <- pow2_plus.
    replace (- e + e) with 0 by lia. change (Double.pow2 0) with 1%Q. ring.
  - exfalso. change 0%Q with (inject_Z 0) in Hgt. rewrite <- Zlt_Qlt in Hgt. lia.
Qed.

(** [Math.round] of a number between two integers. *)
Lemma JsNum_round_range lo hi x :
  (inject_Z lo <= x <= inject_Z hi)%Q -> lo <= JsNum.round x <= hi.
Proof.
  intros [Hlo Hhi]. unfold JsNum.round. split.
  - rewrite <- (Qfloor_Z lo). apply Qfloor_resp_le. lra.
  - pose proof (Qfloor_le (x + (1 # 2))) as Hfloor.
    assert (H : (inject_Z (Qfloor (x + (1 # 2))) < inject_Z (hi + 1))%Q).
    { rewrite inject_Z_plus. change (inject_Z 1) with 1%Q. lra. }
    rewrite <- Zlt_Qlt in H. lia.
Qed.

(** [Math.round] of two numbers at most 1 apart. *)
Lemma JsNum_round_close x y :
  (y - 1 <= x <= y + 1)%Q ->
  JsNum.round y - 1 <= JsNum.round x <= JsNum.round y + 1.
Proof.
  intros [Hlo Hhi]. unfold JsNum.round.
  pose proof (Qfloor_le (x + (1 # 2))) as Hx.
  pose proof (Qlt_floor (x + (1 # 2))) as Hx'.
  pose proof (Qfloor_le (y + (1 # 2))) as Hy.
  pose proof (Qlt_floor (y + (1 # 2))) as Hy'.
  rewrite inject_Z_plus in Hx', Hy'. change (inject_Z 1) with 1%Q in Hx', Hy'.
  split.
  - assert (H : (inject_Z (Qfloor (y + (1 # 2))) < inject_Z (Qfloor (x + (1 # 2)) + 2))%Q).
    { rewrite inject_Z_plus. change (inject_Z 2) with 2%Q. lra. }
    rewrite <- Zlt_Qlt in H. lia.
  - assert (H : (inject_Z (Qfloor (x + (1 # 2))) < inject_Z (Qfloor (y + (1 # 2)) + 2))%Q).
    { rewrite inject_Z_plus. change (inject_Z 2) with 2%Q. lra. }
    rewrite <- Zlt_Qlt in H. lia.
Qed.

(** A page of a pagination, as a fraction of the total. *)
Lemma page_fraction (page total : Z) :
  0 < total -> 0 <= page <= total ->
  (0 <= inject_Z page / inject_Z total <= 1)%Q.
Proof.
  intros Ht Hp. apply (similarity_fraction page total Ht Hp).
Qed.

(** The scaled page in double precision: [page / from * to]. *)
Lemma scaled_double_range (page from to : Z) :
  0 < from -> 0 <= to < 2 ^ 53 -> 0 <= page <= from ->
  (0 <= Double.mul (Double.div (inject_Z page) (inject_Z from)) (inject_Z to)
     <= inject_Z to)%Q.
Proof.
  intros Hfrom Hto Hpage. unfold Double.mul, Double.div.
  destruct round_constants as (R0 & R1 & _).
  pose proof (round_between 0 1 _ (page_fraction page from Hfrom Hpage)) as Hq.
  rewrite R0, R1 in Hq.
  set (q := Double.round (inject_Z page / inject_Z from)) in *.
  assert (Hto' : (0 <= inject_Z to)%Q).
  { change 0%Q with (inject_Z 0). rewrite <- Zle_Qle. lia. }
  assert (Hx : (0 <= q * inject_Z to <= inject_Z to)%Q).
  { split.
    - apply Qmult_le_0_compat; [apply Hq|exact Hto'].
    - rewrite <- (Qmult_1_l (inject_Z to)) at 2.
      apply Qmult_le_compat_r; [apply Hq|exact Hto']. }
  pose proof (round_between 0 (inject_Z to) _ Hx) as Hr.
  rewrite R0, (round_integer to Hto) in Hr. exact Hr.
Qed.

(** The last page of a pagination, scaled in double precision. *)
Lemma scaled_double_last (from to : Z) :
  0 < from -> 0 <= to < 2 ^ 53 ->
  (Double.mul (Double.div (inject_Z from) (inject_Z from)) (inject_Z to)
   == inject_Z to)%Q.
Proof.
  intros Hfrom Hto. unfold Double.mul, Double.div.
  assert (Hone : (inject_Z from / inject_Z from == 1)%Q).
  { field. intros H. apply (proj1 (inject_Z_injective from 0)) in H. lia. }
  rewrite (round_comp _ _ Hone).
  destruct round_constants as (_ & R1 & _). rewrite R1.
  rewrite (round_comp _ _ (Qmult_1_l (inject_Z to))).
  apply round_integer. exact Hto.
Qed.

(** The rounding error of a double, with the unit [2^-53] written out. *)
Lemma round_error_unit q bound :
  (Qabs q <= bound)%Q ->
  (q - (bound + 1) * (1 # 9007199254740992) <= Double.round q
   <= q + (bound + 1) * (1 # 9007199254740992))%Q.
Proof.
  intros Hq. pose proof (round_error q bound Hq) as He.
  pose proof (Qabs_nonneg q) as Hn.
  assert (Hu : (Double.pow2 (-53) == 1 # 9007199254740992)%Q)
    by (vm_compute; reflexivity).
  assert (Hs : (0 <= Double.pow2 (-1075) <= 1 # 9007199254740992)%Q)
    by (vm_compute; split; discriminate).
  rewrite Hu in He. set (s := Double.pow2 (-1075)) in *. lra.
Qed.

(** The scaled page in double precision grows with the page. *)
Lemma scaled_double_monotone (page page' from to : Z) :
  0 < from -> 0 <= to -> page <= page' ->
  JsNum.round (Double.mul (Double.div (inject_Z page) (inject_Z from))
                          (inject_Z to))
  <= JsNum.round (Double.mul (Double.div (inject_Z page') (inject_Z from))
                             (inject_Z to)).
Proof.
  intros Hfrom Hto Hpage. unfold JsNum.round, Double.mul, Double.div.
  assert (Hto' : (0 <= inject_Z to)%Q).
  { change 0%Q with (inject_Z 0). rewrite <- Zle_Qle. lia. }
  assert (Hinv : (0 <= / inject_Z from)%Q).
  { apply Qinv_le_0_compat. change 0%Q with (inject_Z 0).
    rewrite <- Zle_Qle. lia. }
  assert (Hq : (inject_Z page / inject_Z from <= inject_Z page' / inject_Z from)%Q).
  { unfold Qdiv. apply Qmult_le_compat_r; [|exact Hinv].
    rewrite <- Zle_Qle. exact Hpage. }
  apply Qfloor_resp_le. apply Qplus_le_l. apply round_le.
  apply Qmult_le_compat_r; [|exact Hto']. apply round_le. exact Hq.
Qed.

(** The scaled page in double precision lies within
    [(3 * to + 1) * 2^-53] of its exact value. *)
Lemma scaled_double_error (page from to : Z) :
  0 < from -> 0 <= to -> 0 <= page <= from ->
  let exact := (inject_Z page / inject_Z from * inject_Z to)%Q in
  let u := (1 # 9007199254740992)%Q in
  (exact - (3 * inject_Z to + 1) * u
   <= Double.mul (Double.div (inject_Z page) (inject_Z from)) (inject_Z to)
   <= exact + (3 * inject_Z to + 1) * u)%Q.
Proof.
  intros Hfrom Hto Hpage exact u. subst exact u.
  unfold Double.mul, Double.div.
  pose proof (page_fraction page from Hfrom Hpage) as Hq.
  destruct round_constants as (R0 & R1 & _).
  pose proof (round_between 0 1 _ Hq) as Hqd. rewrite R0, R1 in Hqd.
  pose proof (round_error_unit _ 1 (Qabs_bound _ _ Hq)) as Eq.
  set (q := (inject_Z page / inject_Z from)%Q) in *.
  set (qd := Double.round q) in *.
  assert (Hto' : (0 <= inject_Z to)%Q).
  { change 0%Q with (inject_Z 0). rewrite <- Zle_Qle. lia. }
  set (t := inject_Z to) in *.
  assert (Hx : (0 <= qd * t <= t)%Q).
  { split.
    - apply Qmult_le_0_compat; [apply Hqd|exact Hto'].
    - rewrite <- (Qmult_1_l t) at 2.
      apply Qmult_le_compat_r; [apply Hqd|exact Hto']. }
  pose proof (round_error_unit _ t (Qabs_bound _ _ Hx)) as Ex.
  assert (Hup : (qd * t <= (q + 2 * (1 # 9007199254740992)) * t)%Q)
    by (apply Qmult_le_compat_r; [lra|exact Hto']).
  assert (Hdown : ((q - 2 * (1 # 9007199254740992)) * t <= qd * t)%Q)
    by (apply Qmult_le_compat_r; [lra|exact Hto']).
  assert (Eup : ((q + 2 * (1 # 9007199254740992)) * t
                 == q * t + 2 * t * (1 # 9007199254740992))%Q) by ring.
  assert (Edown : ((q - 2 * (1 # 9007199254740992)) * t
                   == q * t - 2 * t * (1 # 9007199254740992))%Q) by ring.
  rewrite Eup in Hup. rewrite Edown in Hdown.
  set (x := (qd * t)%Q) in *. set (y := (q * t)%Q) in *.
  set (xd := Double.round x) in *.
  lra.
Qed.

(** X21.  When the paginations differ, the converted page is computed in
    double precision.  For totals below [2^53] the page that is pushed
    lies within the remote edition and the page that is pulled lies
    within the local pagination, and the last page is mapped to the last
    page.  For totals up to [2^51] the page computed differs from the
    exactly rounded one by at most one page, as for page 29 of 100
    pushed to an edition of 50 pages: page 14, where the exact value
    14.5 rounds to 15.  Turning forward never moves the converted page
    backwards.  The first page of a book can be pushed as page 0: page 1
    of 1000 is page 0 of 100. *)
Lemma page_mapping_range (localTotalPages remoteTotal page : Z) :
  0 < localTotalPages < 2 ^ 53 ->
  0 < remoteTotal < 2 ^ 53 ->
  (0 <= page <= localTotalPages ->
   0 <= toRemotePageDouble page localTotalPages remoteTotal <= remoteTotal)
  /\ (0 <= page <= remoteTotal ->
      0 <= toLocalPageDouble page remoteTotal localTotalPages <= localTotalPages)
  /\ toRemotePageDouble localTotalPages localTotalPages remoteTotal = remoteTotal
  /\ toLocalPageDouble remoteTotal remoteTotal localTotalPages = localTotalPages
  /\ (0 <= page <= localTotalPages -> remoteTotal <= 2 ^ 51 ->
      toRemotePage page localTotalPages remoteTotal - 1
      <= toRemotePageDouble page localTotalPages remoteTotal
      <= toRemotePage page localTotalPages remoteTotal + 1)
  /\ (0 <= page <= remoteTotal -> localTotalPages <= 2 ^ 51 ->
      toLocalPage page remoteTotal localTotalPages - 1
      <= toLocalPageDouble page remoteTotal localTotalPages
      <= toLocalPage page remoteTotal localTotalPages + 1)
  /\ (forall page',
        page <= page' ->
        toRemotePageDouble page localTotalPages remoteTotal
        <= toRemotePageDouble page' localTotalPages remoteTotal
        /\ toLocalPageDouble page remoteTotal localTotalPages
           <= toLocalPageDouble page' remoteTotal localTotalPages)
  /\ (toRemotePageDouble 29 100 50 = 14 /\ toRemotePage 29 100 50 = 15)
  /\ (toRemotePageDouble 1 1000 100 = 0 /\ pageToSend false 1 1000 (Some 100) = 0).
Proof.
  intros Hl Hr.
  assert (Hclose : forall p from to,
            0 < from -> 0 <= to <= 2 ^ 51 -> 0 <= p <= from ->
            JsNum.round (inject_Z p / inject_Z from * inject_Z to) - 1
            <= JsNum.round (Double.mul (Double.div (inject_Z p) (inject_Z from))
                                       (inject_Z to))
            <= JsNum.round (inject_Z p / inject_Z from * inject_Z to) + 1).
  { intros p from to Hfrom Hto Hp. apply JsNum_round_close.
    pose proof (scaled_double_error p from to Hfrom (proj1 Hto) Hp) as He.
    cbv zeta in He.
    assert (Hto' : (inject_Z 0 <= inject_Z to <= inject_Z (2 ^ 51))%Q)
      by (split; rewrite <- Zle_Qle; lia).
    change (inject_Z 0) with 0%Q in Hto'.
    change (inject_Z (2 ^ 51)) with (2251799813685248 # 1)%Q in Hto'.
    set (t := inject_Z to) in *.
    set (x := Double.mul _ _) in *.
    set (y := (inject_Z p / inject_Z from * t)%Q) in *.
    lra. }
  unfold toRemotePageDouble, toLocalPageDouble, toRemotePage, toLocalPage.
  split; [|split; [|split; [|split; [|split; [|split; [|split; [|split]]]]]]].
  - intros Hp. apply JsNum_round_range. apply scaled_double_range; lia.
  - intros Hp. apply JsNum_round_range. apply scaled_double_range; lia.
  - apply Z.le_antisymm;
      apply JsNum_round_range with (lo := remoteTotal) (hi := remoteTotal);
      rewrite (scaled_double_last localTotalPages remoteTotal) by lia;
      split; apply Qle_refl.
  - apply Z.le_antisymm;
      apply JsNum_round_range with (lo := localTotalPages) (hi := localTotalPages);
      rewrite (scaled_double_last remoteTotal localTotalPages) by lia;
      split; apply Qle_refl.
  - intros Hp Hbound. apply Hclose; lia.
  - intros Hp Hbound. apply Hclose; lia.
  - intros page' Hpage. split; apply scaled_double_monotone; lia.
  - vm_compute. split; reflexivity.
  - vm_compute. split; reflexivity.
Qed.

Lemma page_mapping_range_witness :
  (0 <= 40 <= 300 -> 0 <= toRemotePageDouble 40 300 412 <= 412)
  /\ (0 <= 40 <= 412 -> 0 <= toLocalPageDouble 40 412 300 <= 300)
  /\ toRemotePageDouble 300 300 412 = 412
  /\ toLocalPageDouble 412 412 300 = 300
  /\ (0 <= 40 <= 300 -> 412 <= 2 ^ 51 ->
      toRemotePage 40 300 412 - 1 <= toRemotePageDouble 40 300 412
      <= toRemotePage 40 300 412 + 1)
  /\ (0 <= 40 <= 412 -> 300 <= 2 ^ 51 ->
      toLocalPage 40 412 300 - 1 <= toLocalPageDouble 40 412 300
      <= toLocalPage 40 412 300 + 1)
  /\ (forall page',
        40 <= page' ->
        toRemotePageDouble 40 300 412 <= toRemotePageDouble page' 300 412
        /\ toLocalPageDouble 40 412 300 <= toLocalPageDouble page' 412 300)
  /\ (toRemotePageDouble 29 100 50 = 14 /\ toRemotePage 29 100 50 = 15)
  /\ (toRemotePageDouble 1 1000 100 = 0 /\ pageToSend false 1 1000 (Some 100) = 0).
Proof. apply (page_mapping_range 300 412 40); lia. Defined.

(** X22.  Both mappings keep the order of the pages: turning forward locally
    never moves the pushed page backwards, and a later remote page is
    never mapped in front of an earlier one. *)
Lemma page_mapping_monotone (fixedLayout : bool) (localTotalPages : Z)
  (remoteTotal : option Z) (page page' : Z) :
  0 < localTotalPages ->
  (forall r, remoteTotal = Some r -> 0 <= r) ->
  page <= page' ->
  pageToSend fixedLayout page localTotalPages remoteTotal
  <= pageToSend fixedLayout page' localTotalPages remoteTotal
  /\ fst (mapRemotePage fixedLayout page localTotalPages remoteTotal)
     <= fst (mapRemotePage fixedLayout page' localTotalPages remoteTotal).
Proof.
  intros Hl Hr Hp. unfold pageToSend, mapRemotePage.
  destruct fixedLayout; [cbn [fst]; lia|].
  unfold JsNum.keepTruthy, JsNum.truthy.
  destruct remoteTotal as [r|]; [|cbn [fst]; lia].
  specialize (Hr r eq_refl).
  destruct (r =? 0) eqn:Hz; cbn [negb]; [cbn [fst]; lia|].
  apply Z.eqb_neq in Hz.
  destruct (r =? localTotalPages); cbn [fst]; [lia|].
  unfold toRemotePage, toLocalPage.
  split; apply round_scaled_monotone; lia.
Qed.

Lemma page_mapping_monotone_witness :
  pageToSend false 40 300 (Some 412) <= pageToSend false 41 300 (Some 412)
  /\ fst (mapRemotePage false 40 300 (Some 412))
     <= fst (mapRemotePage false 41 300 (Some 412)).
Proof.
  apply (page_mapping_monotone false 300 (Some 412) 40 41).
  - lia.
  - intros r H. inversion H. lia.
  - lia.
Defined.

(** ** The hook: what a pull leaves behind, and what a push does with it *)

(** X23.  After a comparison that applied the remote progress or raised a
    conflict, a push does nothing: the hook is still marked as pulling,
    or holds the conflict, and [pushProgressInternal] returns before it
    reads the progress.  A comparison that did neither clears the mark. *)
Lemma pull_outcome_blocks_push strategy c remote fixedLayout page h :
  isPulling h = true ->
  let h' := act strategy c remote fixedLayout page h in
  match resolve strategy (cmp_remoteIsNewer c) (percentageDiff c) with
  | NoAction => isPulling h' = false /\ syncState h' = SyncState.synced
  | _ =>
      forall settings isoDate matchBookHook reader w,
        pushProgressInternal settings isoDate matchBookHook reader h' w
        = (Returned h', w)
  end.
Proof.
  intros Hpulling h'. subst h'. unfold act.
  destruct (resolve strategy (cmp_remoteIsNewer c) (percentageDiff c)).
  - intros settings isoDate matchBookHook reader w. unfold pushProgressInternal.
    destruct (isOpen (state (breaker w)) && _)%bool; [reflexivity|].
    cbn [setSyncState applyRemoteProgress toast isPulling].
    rewrite Hpulling. reflexivity.
  - intros settings isoDate matchBookHook reader w. unfold pushProgressInternal.
    destruct (isOpen (state (breaker w)) && _)%bool; [reflexivity|].
    cbn [setSyncState setConflictDetails isPulling syncState conflictDetails].
    rewrite Hpulling. reflexivity.
  - split; reflexivity.
Qed.

Lemma pull_outcome_blocks_push_witness :
  let h' := act Strategy.receive exampleComparison exampleRemote false 150
                (setPulling true linkedHook) in
  match resolve Strategy.receive (cmp_remoteIsNewer exampleComparison)
                (percentageDiff exampleComparison) with
  | NoAction => isPulling h' = false /\ syncState h' = SyncState.synced
  | _ =>
      forall settings isoDate matchBookHook reader w,
        pushProgressInternal settings isoDate matchBookHook reader h' w
        = (Returned h', w)
  end.
Proof.
  apply (pull_outcome_blocks_push Strategy.receive exampleComparison
           exampleRemote false 150 (setPulling true linkedHook)).
  reflexivity.
Defined.

(** X24.  A pull never throws, whatever the service and the hook's matcher do;
    when the sync is disabled or the strategy is [send], it does not
    consult the matcher and sends nothing. *)
Lemma pullProgress_never_throws settings getTime matchBookHook reader h w :
  (exists h' w',
      pullProgress settings getTime matchBookHook reader h w = (Returned h', w'))
  /\ ((enabled settings = false \/ syncProgress settings = false
       \/ strategy settings = Strategy.send) ->
      snd (pullProgress settings getTime matchBookHook reader h w) = w).
Proof.
  unfold pullProgress. destruct reader as [reader|];
    [|split; [eexists; eexists; reflexivity|reflexivity]].
  destruct (negb (enabled settings) || negb (syncProgress settings))%bool eqn:Hoff.
  { split; [eexists; eexists; reflexivity|reflexivity]. }
  destruct (isStrategy (strategy settings) Strategy.send) eqn:Hsend.
  { split; [eexists; eexists; reflexivity|reflexivity]. }
  split.
  - unfold tryCatch.
    match goal with
    | |- context [match ?m w with _ => _ end] => destruct (m w) as [[h1|e] w1]
    end.
    + eexists; eexists; reflexivity.
    + destruct (Js.includes (thrownMessage e) "HARDCOVER_CIRCUIT_OPEN");
        [eexists; eexists; reflexivity|].
      destruct (Js.includes (thrownMessage e) "NETWORK");
        eexists; eexists; reflexivity.
  - intros [H | [H | H]].
    + rewrite H in Hoff. discriminate.
    + rewrite H in Hoff. cbn in Hoff. rewrite orb_true_r in Hoff. discriminate.
    + rewrite H in Hsend. discriminate.
Qed.

(** X25.  The notice that the sync is temporarily disabled is shown at most
    once while the circuit stays open: after a failure has been
    notified, a further failure with the same count adds no toast. *)
Lemma notifyFailure_disconnect_once h w :
  failureCount (breaker w) <> 1 ->
  exists h1 w1,
    notifyFailure h w = (Returned h1, w1)
    /\ (toasts h1 = toasts h
        \/ toasts h1 = (toasts h ++ [ToastTemporarilyDisabled])%list
           /\ hasNotifiedDisconnect (breaker w1) = true)
    /\ (forall h2, notifyFailure h2 w1 = (Returned h2, w1))
    /\ sent w1 = sent w.
Proof.
  intros Hcount. apply Z.eqb_neq in Hcount. unfold notifyFailure.
  rewrite Hcount.
  destruct ((failureCount (breaker w) =? 3) && isOpen (state (breaker w))
            && negb (hasNotifiedDisconnect (breaker w)))%bool eqn:Hshow.
  - eexists; eexists. split; [reflexivity|]. split; [right; split; reflexivity|].
    split; [|reflexivity].
    intros h2. cbn. rewrite Hcount. rewrite andb_false_r. reflexivity.
  - eexists; eexists. split; [reflexivity|]. split; [left; reflexivity|].
    split; [|reflexivity].
    intros h2. rewrite Hcount, Hshow. reflexivity.
Qed.

Lemma notifyFailure_disconnect_once_witness :
  exists h1 w1,
    notifyFailure linkedHook openWorld = (Returned h1, w1)
    /\ (toasts h1 = toasts linkedHook
        \/ toasts h1 = (toasts linkedHook ++ [ToastTemporarilyDisabled])%list
           /\ hasNotifiedDisconnect (breaker w1) = true)
    /\ (forall h2, notifyFailure h2 w1 = (Returned h2, w1))
    /\ sent w1 = sent openWorld.
Proof.
  apply (notifyFailure_disconnect_once linkedHook openWorld).
  vm_compute. discriminate.
Defined.

(** ** From the first push to the second *)

Lemma onPushResult_sent currentConfig result h w :
  exists h' w',
    onPushResult currentConfig result h w = (Returned h', w')
    /\ sent w' = sent w
    /\ remote w' = remote w
    /\ state (breaker w') = state (breaker w)
    /\ (success result = true ->
        bookConfig h' = pushedConfig currentConfig result (clock w)
        /\ syncState h' = SyncState.synced).
Proof.
  unfold onPushResult. destruct (success result).
  - unfold checkAndClearRecoveryFlag.
    destruct (lastFailureTime (breaker w) =? -1);
      eexists; eexists; (split; [reflexivity|]); cbn; repeat split.
  - unfold notifyFailure.
    destruct (failureCount (breaker w) =? 1);
      [eexists; eexists; (split; [reflexivity|]); repeat split; discriminate|].
    destruct ((failureCount (breaker w) =? 3) && isOpen (state (breaker w))
              && negb (hasNotifiedDisconnect (breaker w)))%bool;
      eexists; eexists; (split; [reflexivity|]); repeat split; discriminate.
Qed.

Lemma updateProgress_sends_update config isoDate userBookId page percentage id
  editionId startedAt keepalive w :
  Js.isBlank (apiToken config) = false ->
  healthy w ->
  id <> 0 ->
  exists result w' rest,
    updateProgress config isoDate userBookId page percentage (Some id) editionId
                   startedAt keepalive w = (Returned result, w')
    /\ sent w'
       = (sent w ++ updateVariables page id editionId startedAt keepalive :: rest)%list.
Proof.
  intros Htoken Hw Hid. destruct Hw as [Hclosed Hserved].
  destruct (Hserved (List.length (sent w)) (le_n _)) as (delay & data & Hreply).
  destruct (graphqlRequest_healthy config
              (updateVariables page id editionId startedAt keepalive) w delay data
              Htoken (conj Hclosed Hserved) Hreply) as (w1 & Hrun & Hsent & _ & _).
  pose proof (updateExistingRead_world config page id editionId startedAt
                keepalive w) as Hworld.
  rewrite Hrun in Hworld. cbn [snd] in Hworld.
  simp updateProgress. apply Z.eqb_neq in Hid. rewrite Hid.
  unfold bind at 1. unfold tryCatch at 1.
  destruct (updateExistingRead config page id editionId startedAt keepalive w)
    as [[step|e] w2]; cbn [snd] in Hworld; subst w2.
  - destruct step as [result|].
    + exists result, w1, []. split; [reflexivity|exact Hsent].
    + simp updateProgress.
      destruct (create_branch_returns config isoDate userBookId page editionId
                  startedAt keepalive w1) as (result & w' & Hcreate & _ & Hs & _).
      exists result, w'.
      destruct Hs as [Hs | Hs].
      * exists []. split; [exact Hcreate|]. rewrite Hs. exact Hsent.
      * eexists. split; [exact Hcreate|]. rewrite Hs, Hsent, <- app_assoc.
        reflexivity.
  - exists failed, w1, []. split; [reflexivity|exact Hsent].
Qed.

(** X26.  The first push of a linked book creates a read and stores its id;
    the push that follows updates that read: its first request is the
    update mutation with the stored id, so that a second read is not
    created as long as the service accepts the update. *)
Lemma first_push_links_read settings isoDate linkId page percentage
  currentConfig h w delay data mutation read :
  Js.isBlank (apiToken settings) = false ->
  healthy w ->
  hardcoverReadId currentConfig = None ->
  remote w (List.length (sent w))
  = mkExchange delay (Response 200 (JsonData (Some data))) ->
  insert_user_book_read data = Some mutation ->
  truthyString (mutation_error mutation) = false ->
  user_book_read mutation = Some read ->
  read_id read <> 0 ->
  exists h1 w1,
    sendProgress settings isoDate linkId page percentage currentConfig h w
    = (Returned h1, w1)
    /\ hardcoverReadId (bookConfig h1) = Some (read_id read)
    /\ hardcoverId (bookConfig h1) = hardcoverId currentConfig
    /\ syncState h1 = SyncState.synced
    /\ (exists today,
          sent w1
          = (sent w ++ [createVariables linkId (inject_Z page)
                          (hardcoverEditionId currentConfig)
                          (hardcoverStartedAt currentConfig)
                          (isSession (syncFrequency settings)) today])%list)
    /\ forall page' percentage',
         exists h2 w2 rest,
           sendProgress settings isoDate linkId page' percentage'
                        (bookConfig h1) h1 w1 = (Returned h2, w2)
           /\ sent w2
              = (sent w1
                 ++ updateVariables (inject_Z page') (read_id read)
                      (hardcoverEditionId (bookConfig h1))
                      (hardcoverStartedAt (bookConfig h1))
                      (isSession (syncFrequency settings)) :: rest)%list.
Proof.
  intros Htoken Hw Hnone Hreply Hmutation Herror Hread Hid.
  set (request := createVariables linkId (inject_Z page)
                    (hardcoverEditionId currentConfig)
                    (hardcoverStartedAt currentConfig)
                    (isSession (syncFrequency settings)) (isoDate (clock w))).
  destruct (graphqlRequest_healthy settings request w delay (Some data) Htoken Hw
              Hreply) as (w0 & Hrun & Hsent & Hremote & Hw0).
  assert (Hupdate :
            updateProgress settings isoDate linkId (inject_Z page) percentage
              (hardcoverReadId currentConfig) (hardcoverEditionId currentConfig)
              (hardcoverStartedAt currentConfig)
              (isSession (syncFrequency settings)) w
            = (Returned (succeeded read), w0)).
  { rewrite Hnone. simp updateProgress.
    unfold tryCatch, createNewRead, bind. fold request. rewrite Hrun.
    cbn [property ret]. rewrite Hmutation.
    unfold keepTruthyString. rewrite Herror, Hread. reflexivity. }
  destruct (onPushResult_sent currentConfig (succeeded read) h w0)
    as (h1 & w1 & Hresult & Hsent1 & Hremote1 & Hstate1 & Hconfig).
  destruct (Hconfig eq_refl) as [Hconfig1 Hsynced].
  assert (Hstored : hardcoverReadId (bookConfig h1) = Some (read_id read)).
  { rewrite Hconfig1. cbn [pushedConfig hardcoverReadId succeeded result_readId].
    unfold JsNum.keepTruthy, JsNum.truthy.
    apply Z.eqb_neq in Hid. rewrite Hid. reflexivity. }
  assert (Hw1 : healthy w1).
  { destruct Hw0 as [Hclosed Hserved]. split; [congruence|].
    intros n Hn. rewrite Hremote1. apply Hserved. rewrite <- Hsent1. exact Hn. }
  exists h1, w1. split; [|split; [|split; [|split; [|split]]]].
  - unfold sendProgress, tryCatch, bind. rewrite Hupdate, Hresult. reflexivity.
  - exact Hstored.
  - rewrite Hconfig1. reflexivity.
  - exact Hsynced.
  - exists (isoDate (clock w)). rewrite Hsent1. exact Hsent.
  - intros page' percentage'.
    destruct (updateProgress_sends_update settings isoDate linkId
                (inject_Z page') percentage' (read_id read)
                (hardcoverEditionId (bookConfig h1))
                (hardcoverStartedAt (bookConfig h1))
                (isSession (syncFrequency settings)) w1 Htoken Hw1 Hid)
      as (result & w2 & rest & Hsecond & Hsent2).
    destruct (onPushResult_sent (bookConfig h1) result h1 w2)
      as (h2 & w3 & Hresult2 & Hsent3 & _).
    exists h2, w3, rest. split.
    + unfold sendProgress, tryCatch, bind. rewrite Hstored, Hsecond, Hresult2.
      reflexivity.
    + rewrite Hsent3. exact Hsent2.
Qed.

Lemma first_push_links_read_witness :
  exists h1 w1,
    sendProgress exampleSettings exampleDate "42" 120 (1 # 2)
                 (bookConfig linkedHook) linkedHook
                 (freshWorld (replying (Response 200 (JsonData (Some acceptedCreation)))))
    = (Returned h1, w1)
    /\ hardcoverReadId (bookConfig h1) = Some (read_id acceptedRead)
    /\ hardcoverId (bookConfig h1) = hardcoverId (bookConfig linkedHook)
    /\ syncState h1 = SyncState.synced
    /\ (exists today,
          sent w1
          = (sent (freshWorld (replying (Response 200 (JsonData (Some acceptedCreation)))))
             ++ [createVariables "42" (inject_Z 120)
                   (hardcoverEditionId (bookConfig linkedHook))
                   (hardcoverStartedAt (bookConfig linkedHook))
                   (isSession (syncFrequency exampleSettings)) today])%list)
    /\ forall page' percentage',
         exists h2 w2 rest,
           sendProgress exampleSettings exampleDate "42" page' percentage'
                        (bookConfig h1) h1 w1 = (Returned h2, w2)
           /\ sent w2
              = (sent w1
                 ++ updateVariables (inject_Z page') (read_id acceptedRead)
                      (hardcoverEditionId (bookConfig h1))
                      (hardcoverStartedAt (bookConfig h1))
                      (isSession (syncFrequency exampleSettings)) :: rest)%list.
Proof.
  apply (first_push_links_read exampleSettings exampleDate "42" 120 (1 # 2)
           (bookConfig linkedHook) linkedHook
           (freshWorld (replying (Response 200 (JsonData (Some acceptedCreation)))))
           200 acceptedCreation (mkReadMutation None (Some acceptedRead))
           acceptedRead).
  - reflexivity.
  - apply replying_healthy.
  - reflexivity.
  - reflexivity.
  - reflexivity.
  - reflexivity.
  - reflexivity.
  - discriminate.
Defined.

(** ** Reading status *)

(** X27.  The name of a status is read back from the number the status is
    sent as; no status is sent as a number that reads back as another
    one, and the number sent for [null] reads back as [UNKNOWN]. *)
Lemma status_round_trip :
  (forall status,
      getStatusName (HARDCOVER_STATUS_MAP (Some status)) = statusKey status)
  /\ getStatusName (HARDCOVER_STATUS_MAP None) = "UNKNOWN"%string
  /\ (forall statusId,
         getStatusName statusId <> "UNKNOWN"%string ->
         exists status, HARDCOVER_STATUS_MAP (Some status) = statusId)
  /\ (forall a b, HARDCOVER_STATUS_MAP a = HARDCOVER_STATUS_MAP b -> a = b).
Proof.
  split; [intros []; reflexivity|]. split; [reflexivity|]. split.
  - intros statusId. unfold getStatusName.
    destruct (statusId =? 1) eqn:H1;
      [apply Z.eqb_eq in H1; exists WANT_TO_READ; auto|].
    destruct (statusId =? 2) eqn:H2;
      [apply Z.eqb_eq in H2; exists CURRENTLY_READING; auto|].
    destruct (statusId =? 3) eqn:H3;
      [apply Z.eqb_eq in H3; exists READ; auto|].
    destruct (statusId =? 4) eqn:H4;
      [apply Z.eqb_eq in H4; exists DNF; auto|].
    congruence.
  - intros [[]|] [[]|]; cbn; intros H; try reflexivity; discriminate.
Qed.

(** ** Resolution of a conflict *)

(** X28.  Taking the remote side of a conflict applies the page that the
    comparison had mapped for it, the one the strategies [receive] and
    [silent] apply, and clears the conflict; a second call does nothing.
    The hook stays marked as pulling, so that a push remains blocked
    until the timer clears the mark. *)
Lemma resolveWithRemote_applies_mapped_page strategy c remote fixedLayout page h :
  resolve strategy (cmp_remoteIsNewer c) (percentageDiff c) = RaiseConflict ->
  let raised := act strategy c remote fixedLayout page h in
  let resolved := resolveWithRemote raised in
  applied resolved = (applied h ++ [cmp_remotePage c])%list
  /\ syncState resolved = SyncState.synced
  /\ conflictDetails resolved = None
  /\ isPulling resolved = isPulling h
  /\ resolveWithRemote resolved = resolved
  /\ (isPulling h = true ->
      forall settings isoDate matchBookHook reader w,
        pushProgressInternal settings isoDate matchBookHook reader resolved w
        = (Returned resolved, w)).
Proof.
  intros Hresolve raised resolved. subst resolved raised. unfold act.
  rewrite Hresolve. cbn. repeat split.
  intros Hpulling settings isoDate matchBookHook reader w.
  unfold pushProgressInternal.
  destruct (isOpen (state (breaker w)) && _)%bool; [reflexivity|].
  cbn. rewrite Hpulling. reflexivity.
Qed.

Lemma resolveWithRemote_applies_mapped_page_witness :
  let raised := act Strategy.prompt exampleComparison exampleRemote false 150
                    linkedHook in
  let resolved := resolveWithRemote raised in
  applied resolved = (applied linkedHook ++ [cmp_remotePage exampleComparison])%list
  /\ syncState resolved = SyncState.synced
  /\ conflictDetails resolved = None
  /\ isPulling resolved = isPulling linkedHook
  /\ resolveWithRemote resolved = resolved
  /\ (isPulling linkedHook = true ->
      forall settings isoDate matchBookHook reader w,
        pushProgressInternal settings isoDate matchBookHook reader resolved w
        = (Returned resolved, w)).
Proof.
  apply (resolveWithRemote_applies_mapped_page Strategy.prompt exampleComparison
           exampleRemote false 150 linkedHook).
  vm_compute. reflexivity.
Defined.

(** ** The effects *)

(** X29.  The status [READ] is reported on the way up only: a run of the
    effect reports it when the book reaches its end from below, so that
    the number of reports is bounded by the number of runs that saw the
    book short of its end, plus one when the effect starts below the end.
    A book that stays at its end is reported once. *)
Lemma read_status_edge_triggered lastPercentage runs :
  (readStatusRuns lastPercentage runs
   <= (if Qle_bool 1 lastPercentage then 0 else 1) + unfinishedRuns runs)%nat
  /\ (unfinishedRuns runs = 0%nat ->
      Qle_bool 1 lastPercentage = false ->
      (exists info rest, runs = Some info :: rest) ->
      readStatusRuns lastPercentage runs = 1%nat).
Proof.
  revert lastPercentage.
  induction runs as [|pageInfo rest IH]; intros lastPercentage.
  - split; [cbn; lia|]. intros _ _ (info & tail & H). discriminate.
  - unfold unfinishedRuns in *. cbn [readStatusRuns filter].
    destruct pageInfo as [info|]; cbn [readStatusEffect].
    + destruct (IH (pagePercentage info)) as [IHle IHone].
      destruct (Qle_bool 1 (pagePercentage info)) eqn:Hend;
        destruct (Qle_bool 1 lastPercentage) eqn:Hlast;
        cbn [andb negb List.length] in *.
      * split; [lia|]. intros _ H. discriminate.
      * split; [lia|]. intros Hnone _ _. lia.
      * split; [lia|]. intros H. discriminate.
      * split; [lia|]. intros H. discriminate.
    + destruct (IH lastPercentage) as [IHle IHone]. split; [lia|].
      intros _ _ (info & tail & H). discriminate.
Qed.

(** When the strategy is [receive], or the sync or the sync of the
    progress is switched off, or the frequency is [session], no run of
    the effect calls [pushProgress]. *)
Lemma autoPushRuns_unwanted settings runs : forall lastSyncedSection,
  (negb (isStrategy (strategy settings) Strategy.receive)
   && enabled settings && syncProgress settings)%bool = false
  \/ syncFrequency settings = Frequency.session ->
  autoPushRuns settings lastSyncedSection runs = [].
Proof.
  induction runs as [|[h progress] rest IH]; intros last Hoff; [reflexivity|].
  cbn [autoPushRuns]. unfold autoPushEffect.
  destruct (isPulling h); [apply IH; exact Hoff|].
  destruct (isConflict (syncState h) || _)%bool; [apply IH; exact Hoff|].
  destruct progress as [currentSection|]; [|apply IH; exact Hoff].
  destruct Hoff as [Hoff | Hoff]; rewrite Hoff.
  - destruct (syncFrequency settings); [apply IH; left; exact Hoff| |
                                        apply IH; left; exact Hoff].
    destruct (sameSection currentSection last); apply IH; left; exact Hoff.
  - apply IH. right. exact Hoff.
Qed.

Lemma autoPushRuns_chapter settings :
  syncFrequency settings = Frequency.chapter ->
  forall runs lastSyncedSection,
    noRepeat (autoPushRuns settings lastSyncedSection runs)
    /\ match autoPushRuns settings lastSyncedSection runs with
       | first :: _ => lastSyncedSection <> Some first
       | [] => True
       end.
Proof.
  intros Hchapter.
  destruct (negb (isStrategy (strategy settings) Strategy.receive)
            && enabled settings && syncProgress settings)%bool eqn:Hwanted.
  2:{ intros runs last.
      rewrite (autoPushRuns_unwanted settings runs last (or_introl Hwanted)).
      split; exact I. }
  induction runs as [|[h progress] rest IH]; intros last; [split; exact I|].
  cbn [autoPushRuns]. unfold autoPushEffect. rewrite Hchapter, Hwanted.
  destruct (isPulling h); [apply IH|].
  destruct (isConflict (syncState h) || _)%bool; [apply IH|].
  destruct progress as [currentSection|]; [|apply IH].
  destruct (sameSection currentSection last) eqn:Hsame; [apply IH|].
  destruct (IH (Some currentSection)) as [IHrepeat IHfirst].
  split.
  - cbn [noRepeat].
    destruct (autoPushRuns settings (Some currentSection) rest) as [|b l];
      [exact I|].
    split; [congruence|exact IHrepeat].
  - intros Hlast. subst last. cbn in Hsame.
    rewrite String.eqb_refl in Hsame. discriminate.
Qed.

(** X30.  With the frequency [chapter], the effect calls [pushProgress] for a
    section only when the section differs from the one it called it for
    last: no two successive calls are for the same section, however
    many page turns, pulls and conflicts lie between them. *)
Lemma autoPush_once_per_chapter settings runs :
  syncFrequency settings = Frequency.chapter ->
  noRepeat (autoPushRuns settings None runs).
Proof.
  intros Hchapter. apply (autoPushRuns_chapter settings Hchapter runs None).
Qed.

Lemma autoPush_once_per_chapter_witness :
  noRepeat (autoPushRuns chapterSettings None
              [(linkedHook, Some "chapter1.xhtml"%string);
               (linkedHook, Some "chapter1.xhtml"%string);
               (setPulling true linkedHook, Some "chapter2.xhtml"%string);
               (linkedHook, Some "chapter2.xhtml"%string);
               (linkedHook, Some "chapter1.xhtml"%string)]).
Proof.
  apply (autoPush_once_per_chapter chapterSettings
           [(linkedHook, Some "chapter1.xhtml"%string);
            (linkedHook, Some "chapter1.xhtml"%string);
            (setPulling true linkedHook, Some "chapter2.xhtml"%string);
            (linkedHook, Some "chapter2.xhtml"%string);
            (linkedHook, Some "chapter1.xhtml"%string)]).
  reflexivity.
Defined.
